(** * AFK / EPIC transport of the Apple coprocessor drivers

    A shallow embedding of [afk.c] (ring-buffer codec, buffer negotiation,
    EPIC framing, reply matching, synchronous commands) and of the AOP
    announce handler of [aop.c], followed by the properties proved about
    them.

    Conventions.  Machine integers are [Z] with the wrap-around of their C
    type written out ([u8], [u16], [u32], [usize]).  Shared memory is a map
    from CPU addresses to bytes; a pointer is an address and NULL is [0].
    Calls into collaborators that the driver only consumes (mailbox send,
    DMA allocator, completions) are recorded in an event log carried by the
    endpoint. *)

From Stdlib Require Import ZArith List Bool Lia String Ascii.
From stdpp Require Import base list.
Import ListNotations.
Open Scope Z_scope.

(** ** Fixed-width arithmetic and bit fields *)

Module Word.

Definition u8 (x : Z) : Z := x mod 2 ^ 8.
Definition u16 (x : Z) : Z := x mod 2 ^ 16.
Definition u32 (x : Z) : Z := x mod 2 ^ 32.
(** [size_t], [u64] and [dma_addr_t] are 64 bits wide on arm64. *)
Definition usize (x : Z) : Z := x mod 2 ^ 64.

(** [GENMASK(h, l)]: the contiguous bit field from bit [l] to bit [h]. *)
Record bitfield := GENMASK { bf_hi : Z; bf_lo : Z }.

Definition bf_mask (f : bitfield) : Z :=
  Z.shiftl (Z.ones (bf_hi f - bf_lo f + 1)) (bf_lo f).

(** [FIELD_GET(mask, reg)] is [(reg & mask) >> shift(mask)]. *)
Definition FIELD_GET (f : bitfield) (reg : Z) : Z :=
  Z.shiftr (Z.land reg (bf_mask f)) (bf_lo f).

(** [FIELD_PREP(mask, val)] is [(val << shift(mask)) & mask]. *)
Definition FIELD_PREP (f : bitfield) (val : Z) : Z :=
  Z.land (Z.shiftl val (bf_lo f)) (bf_mask f).

(** [ALIGN(x, a)] is [(x + (a - 1)) & ~(a - 1)], computed in the type of
    [x], here an unsigned type of [bits] bits. *)
Definition ALIGN (bits : Z) (x a : Z) : Z :=
  Z.land ((x + (a - 1)) mod 2 ^ bits) (Z.lnot (a - 1) mod 2 ^ bits).

(** Little-endian image of [v] on [n] bytes, and its inverse. *)
Fixpoint le_bytes (n : nat) (v : Z) : list Z :=
  match n with
  | O => []
  | S k => v mod 256 :: le_bytes k (v / 256)
  end.

Fixpoint le_val (bs : list Z) : Z :=
  match bs with
  | [] => 0
  | b :: tl => b + 256 * le_val tl
  end.

End Word.
Export Word.

(** ** Byte-addressed memory *)

Module Mem.

Definition mem := Z -> Z.

Definition load (m : mem) (a : Z) (n : nat) : list Z :=
  map (fun i : nat => m (a + Z.of_nat i)) (seq 0 n).

Definition store (m : mem) (a : Z) (bs : list Z) : mem :=
  fun x =>
    if bool_decide (a <= x < a + Z.of_nat (length bs))
    then nth (Z.to_nat (x - a)) bs 0
    else m x.

(** A store is a destination address and the bytes put there. *)
Definition stores := list (Z * list Z).

Definition apply_stores (m : mem) (l : stores) : mem :=
  fold_left (fun acc s => store acc (fst s) (snd s)) l m.

Definition load_le (m : mem) (a : Z) (width : nat) : Z :=
  le_val (load m a width).

Definition store_le (a : Z) (width : nat) (v : Z) : Z * list Z :=
  (a, le_bytes width v).

(** The addresses a list of stores touches. *)
Definition touches (l : stores) (x : Z) : Prop :=
  exists s, In s l /\ fst s <= x < fst s + Z.of_nat (length (snd s)).

(** Memory holds bytes. *)
Definition bytes_ok (m : mem) : Prop := forall a, 0 <= m a < 256.

(** A store that stays inside [lo, hi). *)
Definition store_within (lo hi : Z) (s : Z * list Z) : Prop :=
  lo <= fst s /\ fst s + Z.of_nat (length (snd s)) <= hi.

End Mem.
Export Mem.

(** ** Constants and layouts *)

(** Linux error numbers returned (negated) by the driver. *)
Module Errno.
Definition ENOMEM : Z := 12.
Definition ENOSPC : Z := 28.
Definition ETIMEDOUT : Z := 110.
End Errno.
Export Errno.

(** The control-message types of [enum rbep_msg_type] and the bit fields of
    the 64-bit mailbox word. *)
Definition RBEP_TYPE := GENMASK 63 48.

Definition RBEP_INIT : Z := 0x80.
Definition RBEP_INIT_ACK : Z := 0xa0.
Definition RBEP_GETBUF : Z := 0x89.
Definition RBEP_GETBUF_ACK : Z := 0xa1.
Definition RBEP_INIT_TX : Z := 0x8a.
Definition RBEP_INIT_RX : Z := 0x8b.
Definition RBEP_INIT_RXTX_ACK : Z := 0x8c.
Definition RBEP_START : Z := 0xa3.
Definition RBEP_START_ACK : Z := 0x86.
Definition RBEP_SEND : Z := 0xa2.
Definition RBEP_RECV : Z := 0x85.
Definition RBEP_SHUTDOWN : Z := 0xc0.
Definition RBEP_SHUTDOWN_ACK : Z := 0xc1.

Definition BLOCK_SHIFT : Z := 6.

Definition GETBUF_SIZE := GENMASK 31 16.
Definition GETBUF_TAG := GENMASK 15 0.
Definition GETBUF_ACK_DVA := GENMASK 47 0.

Definition INITRB_OFFSET := GENMASK 47 32.
Definition INITRB_SIZE := GENMASK 31 16.
Definition INITRB_TAG := GENMASK 15 0.

Definition SEND_WPTR := GENMASK 31 0.

(** A member of a packed wire structure: its offset and its width in
    bytes. *)
Record field := Field { f_off : Z; f_width : nat }.

Definition field_in (f : field) (size : Z) : Prop :=
  0 <= f_off f /\ f_off f + Z.of_nat (f_width f) <= size.

(** Modelled from the spec: [struct afk_qe] is declared in [afk.h], which
    is not part of the sources at hand.  The wire format gives the queue
    entry as four 32-bit words, magic, size, channel and type, followed by
    [size] bytes of data. *)
Definition sizeof_afk_qe : Z := 16.
Definition qe_magic : Z := 0.
Definition qe_size : Z := 4.
Definition qe_channel : Z := 8.
Definition qe_type : Z := 12.
Definition qe_data : Z := 16.

(** Modelled from the spec: the remaining declarations of [afk.h].  The
    EPIC headers carry the members the framing layer lists (version,
    sequence number and timestamp; payload length, version, category,
    subtype, timestamp, tag and inline length); their offsets, the enum
    values and the table capacities are parameters of the development. *)
Record afk_abi := {
  QE_MAGIC_IOP : Z;
  QE_MAGIC_AOP : Z;
  MAX_PENDING_CMDS : Z;
  AFK_MAX_CHANNEL : Z;
  EPIC_TYPE_NOTIFY : Z;
  EPIC_TYPE_COMMAND : Z;
  EPIC_TYPE_REPLY : Z;
  EPIC_TYPE_NOTIFY_ACK : Z;
  EPIC_CAT_REPORT : Z;
  EPIC_CAT_NOTIFY : Z;
  EPIC_CAT_REPLY : Z;
  EPIC_CAT_COMMAND : Z;
  EPIC_SUBTYPE_ANNOUNCE : Z;
  EPIC_SUBTYPE_TEARDOWN : Z;
  EPIC_SUBTYPE_STD_SERVICE : Z;
  sizeof_epic_hdr : Z;
  ehdr_version : field;
  ehdr_seq : field;
  ehdr_timestamp : field;
  sizeof_epic_sub_hdr : Z;
  eshdr_length : field;
  eshdr_version : field;
  eshdr_category : field;
  eshdr_type : field;
  eshdr_timestamp : field;
  eshdr_tag : field;
  eshdr_inline_len : field;
  sizeof_epic_cmd : Z;
  cmd_retcode : field;
  cmd_rxbuf : field;
  cmd_rxlen : field;
  cmd_txbuf : field;
  cmd_txlen : field
}.

(** What any C compiler guarantees of those declarations: members lie
    inside their structure and hold the values the driver converts for
    them, and the magic numbers are 32-bit words. *)
Record abi_ok (abi : afk_abi) : Prop := {
  magic_iop_u32 : 0 <= QE_MAGIC_IOP abi < 2 ^ 32;
  magic_aop_u32 : 0 <= QE_MAGIC_AOP abi < 2 ^ 32;
  max_pending_pos : 0 < MAX_PENDING_CMDS abi <= 256;
  max_channel_pos : 0 < AFK_MAX_CHANNEL abi;
  ehdr_size_ok : 0 <= sizeof_epic_hdr abi < 2 ^ 16;
  ehdr_version_in : field_in (ehdr_version abi) (sizeof_epic_hdr abi);
  ehdr_seq_in : field_in (ehdr_seq abi) (sizeof_epic_hdr abi);
  ehdr_timestamp_in : field_in (ehdr_timestamp abi) (sizeof_epic_hdr abi);
  eshdr_size_ok : 0 <= sizeof_epic_sub_hdr abi < 2 ^ 16;
  eshdr_length_in : field_in (eshdr_length abi) (sizeof_epic_sub_hdr abi);
  eshdr_version_in : field_in (eshdr_version abi) (sizeof_epic_sub_hdr abi);
  eshdr_category_in : field_in (eshdr_category abi) (sizeof_epic_sub_hdr abi);
  eshdr_type_in : field_in (eshdr_type abi) (sizeof_epic_sub_hdr abi);
  eshdr_timestamp_in :
    field_in (eshdr_timestamp abi) (sizeof_epic_sub_hdr abi);
  eshdr_tag_in : field_in (eshdr_tag abi) (sizeof_epic_sub_hdr abi);
  eshdr_inline_len_in :
    field_in (eshdr_inline_len abi) (sizeof_epic_sub_hdr abi);
  eshdr_inline_len_wide : (2 <= f_width (eshdr_inline_len abi))%nat;
  cmd_size_ok : 0 <= sizeof_epic_cmd abi < 2 ^ 16;
  cmd_retcode_in : field_in (cmd_retcode abi) (sizeof_epic_cmd abi)
}.

(** The values these declarations have in the Asahi Linux tree, used to
    run the model on concrete inputs. *)
Definition asahi_abi : afk_abi := {|
  QE_MAGIC_IOP := 0x20504f49;
  QE_MAGIC_AOP := 0x20504f41;
  MAX_PENDING_CMDS := 8;
  AFK_MAX_CHANNEL := 16;
  EPIC_TYPE_NOTIFY := 0;
  EPIC_TYPE_COMMAND := 3;
  EPIC_TYPE_REPLY := 4;
  EPIC_TYPE_NOTIFY_ACK := 8;
  EPIC_CAT_REPORT := 0x00;
  EPIC_CAT_NOTIFY := 0x10;
  EPIC_CAT_REPLY := 0x20;
  EPIC_CAT_COMMAND := 0x30;
  EPIC_SUBTYPE_ANNOUNCE := 0x30;
  EPIC_SUBTYPE_TEARDOWN := 0x32;
  EPIC_SUBTYPE_STD_SERVICE := 0xc0;
  sizeof_epic_hdr := 16;
  ehdr_version := Field 0 1;
  ehdr_seq := Field 1 2;
  ehdr_timestamp := Field 8 8;
  sizeof_epic_sub_hdr := 24;
  eshdr_length := Field 0 4;
  eshdr_version := Field 4 1;
  eshdr_category := Field 5 1;
  eshdr_type := Field 6 2;
  eshdr_timestamp := Field 8 8;
  eshdr_tag := Field 16 2;
  eshdr_inline_len := Field 20 4;
  sizeof_epic_cmd := 30;
  cmd_retcode := Field 0 4;
  cmd_rxbuf := Field 4 8;
  cmd_txbuf := Field 12 8;
  cmd_rxlen := Field 20 4;
  cmd_txlen := Field 24 4
|}.


(** ** Driver state *)

(** Calls into the collaborators of the transport, in program order. *)
Inductive event :=
| EvSend (message : Z)
| EvDmaAlloc (size : Z)
| EvDmaFree (size cpu_addr dma_addr : Z)
| EvComplete (completion : Z)
| EvTeardown (channel : Z)
| EvReport (channel subtype : Z) (data : list Z).

(** [struct afk_ringbuffer]: [hdr] and [buf] are addresses. *)
Record afk_ringbuffer := {
  ready : bool;
  hdr : Z;
  buf : Z;
  blksz : Z;
  bufsz : Z
}.

(** One element of [service->cmds].  [completion] is the address of the
    waiter's completion, [None] for NULL. *)
Record epic_cmd_slot := {
  tag : Z;
  rxbuf : Z;
  txbuf : Z;
  rxbuf_dma : Z;
  txbuf_dma : Z;
  rxlen : Z;
  txlen : Z;
  free_on_ack : bool;
  done : bool;
  completion : option Z;
  retcode : Z
}.

Definition empty_slot : epic_cmd_slot := {|
  tag := 0; rxbuf := 0; txbuf := 0; rxbuf_dma := 0; txbuf_dma := 0;
  rxlen := 0; txlen := 0; free_on_ack := false; done := false;
  completion := None; retcode := 0
|}.

(** [struct apple_epic_service_ops]: the name and which callbacks are
    set.  [call] answers a standard-service call with a status and the
    reply bytes. *)
Record apple_epic_service_ops := {
  name : list Z;
  call : option (Z -> list Z -> Z * list Z);
  report : bool;
  teardown : bool
}.

(** [struct apple_epic_service].  [ops] is the position of the matched
    entry in the endpoint's table; [cmd_map] is the tag bitmap. *)
Record apple_epic_service := {
  enabled : bool;
  channel : Z;
  ops : nat;
  cmd_map : Z;
  cmds : list epic_cmd_slot;
  cmd_tag : Z
}.

Definition empty_service : apple_epic_service := {|
  enabled := false; channel := 0; ops := O; cmd_map := 0; cmds := [];
  cmd_tag := 0
|}.

(** [struct apple_dcp_afkep], with the shared memory it points into and
    the log of its calls to collaborators.  [ep_ops] lists the entries of
    the static table before its empty terminator, [None] for a NULL table. *)
Record apple_dcp_afkep := {
  endpoint : Z;
  ep_ops : option (list apple_epic_service_ops);
  bfr : Z;
  bfr_size : Z;
  bfr_dma : Z;
  bfr_tag : Z;
  rxbfr : afk_ringbuffer;
  txbfr : afk_ringbuffer;
  qe_seq : Z;
  num_channels : Z;
  services : list apple_epic_service;
  memory : mem;
  events : list event
}.

Definition set_memory (ep : apple_dcp_afkep) (m : mem) : apple_dcp_afkep := {|
  endpoint := endpoint ep; ep_ops := ep_ops ep; bfr := bfr ep;
  bfr_size := bfr_size ep; bfr_dma := bfr_dma ep; bfr_tag := bfr_tag ep;
  rxbfr := rxbfr ep; txbfr := txbfr ep; qe_seq := qe_seq ep;
  num_channels := num_channels ep; services := services ep;
  memory := m; events := events ep
|}.

Definition log_event (ep : apple_dcp_afkep) (e : event) : apple_dcp_afkep := {|
  endpoint := endpoint ep; ep_ops := ep_ops ep; bfr := bfr ep;
  bfr_size := bfr_size ep; bfr_dma := bfr_dma ep; bfr_tag := bfr_tag ep;
  rxbfr := rxbfr ep; txbfr := txbfr ep; qe_seq := qe_seq ep;
  num_channels := num_channels ep; services := services ep;
  memory := memory ep; events := events ep ++ [e]
|}.

Definition set_bfr (ep : apple_dcp_afkep) (p dma : Z) : apple_dcp_afkep := {|
  endpoint := endpoint ep; ep_ops := ep_ops ep; bfr := p;
  bfr_size := bfr_size ep; bfr_dma := dma; bfr_tag := bfr_tag ep;
  rxbfr := rxbfr ep; txbfr := txbfr ep; qe_seq := qe_seq ep;
  num_channels := num_channels ep; services := services ep;
  memory := memory ep; events := events ep
|}.

Definition set_bfr_size_tag (ep : apple_dcp_afkep) (size t : Z)
  : apple_dcp_afkep := {|
  endpoint := endpoint ep; ep_ops := ep_ops ep; bfr := bfr ep;
  bfr_size := size; bfr_dma := bfr_dma ep; bfr_tag := t;
  rxbfr := rxbfr ep; txbfr := txbfr ep; qe_seq := qe_seq ep;
  num_channels := num_channels ep; services := services ep;
  memory := memory ep; events := events ep
|}.

Definition set_rxbfr (ep : apple_dcp_afkep) (b : afk_ringbuffer)
  : apple_dcp_afkep := {|
  endpoint := endpoint ep; ep_ops := ep_ops ep; bfr := bfr ep;
  bfr_size := bfr_size ep; bfr_dma := bfr_dma ep; bfr_tag := bfr_tag ep;
  rxbfr := b; txbfr := txbfr ep; qe_seq := qe_seq ep;
  num_channels := num_channels ep; services := services ep;
  memory := memory ep; events := events ep
|}.

Definition set_txbfr (ep : apple_dcp_afkep) (b : afk_ringbuffer)
  : apple_dcp_afkep := {|
  endpoint := endpoint ep; ep_ops := ep_ops ep; bfr := bfr ep;
  bfr_size := bfr_size ep; bfr_dma := bfr_dma ep; bfr_tag := bfr_tag ep;
  rxbfr := rxbfr ep; txbfr := b; qe_seq := qe_seq ep;
  num_channels := num_channels ep; services := services ep;
  memory := memory ep; events := events ep
|}.

Definition set_qe_seq (ep : apple_dcp_afkep) (s : Z) : apple_dcp_afkep := {|
  endpoint := endpoint ep; ep_ops := ep_ops ep; bfr := bfr ep;
  bfr_size := bfr_size ep; bfr_dma := bfr_dma ep; bfr_tag := bfr_tag ep;
  rxbfr := rxbfr ep; txbfr := txbfr ep; qe_seq := s;
  num_channels := num_channels ep; services := services ep;
  memory := memory ep; events := events ep
|}.

Definition set_num_channels (ep : apple_dcp_afkep) (n : Z)
  : apple_dcp_afkep := {|
  endpoint := endpoint ep; ep_ops := ep_ops ep; bfr := bfr ep;
  bfr_size := bfr_size ep; bfr_dma := bfr_dma ep; bfr_tag := bfr_tag ep;
  rxbfr := rxbfr ep; txbfr := txbfr ep; qe_seq := qe_seq ep;
  num_channels := n; services := services ep;
  memory := memory ep; events := events ep
|}.

Definition set_services (ep : apple_dcp_afkep)
    (l : list apple_epic_service) : apple_dcp_afkep := {|
  endpoint := endpoint ep; ep_ops := ep_ops ep; bfr := bfr ep;
  bfr_size := bfr_size ep; bfr_dma := bfr_dma ep; bfr_tag := bfr_tag ep;
  rxbfr := rxbfr ep; txbfr := txbfr ep; qe_seq := qe_seq ep;
  num_channels := num_channels ep; services := l;
  memory := memory ep; events := events ep
|}.

(** [ep->services[i]] and [service->cmds[idx]] as the C arrays read
    them; the lists keep the declared array lengths. *)
Definition service_at (ep : apple_dcp_afkep) (i : nat) : apple_epic_service :=
  default empty_service (services ep !! i).

Definition slot_at (s : apple_epic_service) (idx : Z) : epic_cmd_slot :=
  default empty_slot (cmds s !! Z.to_nat idx).

Definition set_service (ep : apple_dcp_afkep) (i : nat)
    (s : apple_epic_service) : apple_dcp_afkep :=
  set_services ep (<[i := s]> (services ep)).

Definition set_slot (s : apple_epic_service) (idx : Z) (c : epic_cmd_slot)
  : apple_epic_service := {|
  enabled := enabled s; channel := channel s; ops := ops s;
  cmd_map := cmd_map s; cmds := <[Z.to_nat idx := c]> (cmds s);
  cmd_tag := cmd_tag s
|}.

Definition set_cmd_map (s : apple_epic_service) (m : Z)
  : apple_epic_service := {|
  enabled := enabled s; channel := channel s; ops := ops s;
  cmd_map := m; cmds := cmds s; cmd_tag := cmd_tag s
|}.

Definition set_cmd_tag (s : apple_epic_service) (t : Z)
  : apple_epic_service := {|
  enabled := enabled s; channel := channel s; ops := ops s;
  cmd_map := cmd_map s; cmds := cmds s; cmd_tag := t
|}.

Definition set_enabled (s : apple_epic_service) (b : bool)
  : apple_epic_service := {|
  enabled := b; channel := channel s; ops := ops s;
  cmd_map := cmd_map s; cmds := cmds s; cmd_tag := cmd_tag s
|}.

(** The two rings an [INIT_TX] / [INIT_RX] message can name. *)
Inductive direction := TX | RX.

Definition ring (ep : apple_dcp_afkep) (d : direction) : afk_ringbuffer :=
  match d with TX => txbfr ep | RX => rxbfr ep end.

Definition set_ring (ep : apple_dcp_afkep) (d : direction)
    (b : afk_ringbuffer) : apple_dcp_afkep :=
  match d with TX => set_txbfr ep b | RX => set_rxbfr ep b end.

(** ** The transport ([afk.c]) *)

Section Afk.

Variable abi : afk_abi.

(** [dmam_alloc_coherent] / [dma_alloc_coherent]: the platform's DMA allocator,
    answering a request of the given size, after the calls logged so far,
    with a CPU address ([0] on failure) and a device address. *)
Variable dma_alloc_coherent : list event -> Z -> Z * Z.

Definition afk_send (ep : apple_dcp_afkep) (message : Z) : apple_dcp_afkep :=
  log_event ep (EvSend message).

Definition afk_getbuf (ep : apple_dcp_afkep) (message : Z)
  : apple_dcp_afkep :=
  let size := u32 (Z.shiftl (FIELD_GET GETBUF_SIZE message) BLOCK_SHIFT) in
  let t := u16 (FIELD_GET GETBUF_TAG message) in
  if negb (bfr ep =? 0) then ep
  else
    let '(p, dma) := dma_alloc_coherent (events ep) size in
    let ep := log_event ep (EvDmaAlloc size) in
    if p =? 0 then ep
    else
      let ep := set_bfr ep p dma in
      let ep := set_bfr_size_tag ep size t in
      let reply :=
        Z.lor (FIELD_PREP RBEP_TYPE RBEP_GETBUF_ACK)
              (FIELD_PREP GETBUF_ACK_DVA (bfr_dma ep)) in
      afk_send ep reply.

(** The read and write pointers live in the second and third header
    block, as little-endian 32-bit words. *)
Definition afk_rb_get_rptr (m : mem) (b : afk_ringbuffer) : Z :=
  load_le m (hdr b + blksz b * 1) 4.

Definition afk_rb_get_wptr (m : mem) (b : afk_ringbuffer) : Z :=
  load_le m (hdr b + blksz b * 2) 4.

Definition afk_rb_set_rptr (m : mem) (b : afk_ringbuffer) (rptr : Z) : mem :=
  store m (hdr b + blksz b * 1) (le_bytes 4 rptr).

Definition afk_rb_set_wptr (m : mem) (b : afk_ringbuffer) (wptr : Z) : mem :=
  store m (hdr b + blksz b * 2) (le_bytes 4 wptr).

Definition set_hdr (b : afk_ringbuffer) (h : Z) : afk_ringbuffer := {|
  ready := ready b; hdr := h; buf := buf b; blksz := blksz b;
  bufsz := bufsz b
|}.

Definition afk_init_rxtx (ep : apple_dcp_afkep) (message : Z)
    (d : direction) : apple_dcp_afkep :=
  let base := u32 (Z.shiftl (FIELD_GET INITRB_OFFSET message) BLOCK_SHIFT) in
  let size := u32 (Z.shiftl (FIELD_GET INITRB_SIZE message) BLOCK_SHIFT) in
  let t := u16 (FIELD_GET INITRB_TAG message) in
  if negb (t =? bfr_tag ep) then ep
  else if ready (ring ep d) then ep
  else if base >=? bfr_size ep then ep
  else
    let end_ := u32 (base + size) in
    if end_ >? bfr_size ep then ep
    else
      let b := set_hdr (ring ep d) (bfr ep + base) in
      let ep := set_ring ep d b in
      let bufsz_ := load_le (memory ep) (hdr b) 4 in
      if size <=? bufsz_ then ep
      else
        let hdrsz := u32 (size - bufsz_) in
        if negb (hdrsz mod 3 =? 0) then ep
        else
          let blksz_ := hdrsz / 3 in
          if (blksz_ <? Z.shiftl 1 BLOCK_SHIFT)
             || negb (blksz_ mod Z.shiftl 1 BLOCK_SHIFT =? 0)
          then ep
          else
            let b := {| ready := true; hdr := hdr b; buf := hdr b + hdrsz;
                        blksz := blksz_; bufsz := bufsz_ |} in
            let ep := set_ring ep d b in
            if ready (rxbfr ep) && ready (txbfr ep)
            then afk_send ep (FIELD_PREP RBEP_TYPE RBEP_START)
            else ep.

(** [strcmp(s, name) == 0] for a table name [s] and the C string at
    address [a]. *)
Fixpoint str_eq_at (s : list Z) (m : mem) (a : Z) : bool :=
  match s with
  | [] => m a =? 0
  | c :: tl => (m a =? c) && str_eq_at tl m (a + 1)
  end.

Fixpoint match_from (tbl : list apple_epic_service_ops) (i : nat)
    (m : mem) (a : Z) : option nat :=
  match tbl with
  | [] => None
  | o :: tl =>
      if str_eq_at (name o) m a then Some i else match_from tl (S i) m a
  end.

(** Returns the position of the first entry whose name is the string at
    [a]; an empty string and a missing table match nothing. *)
Definition afk_match_service (ep : apple_dcp_afkep) (a : Z) : option nat :=
  if memory ep a =? 0 then None
  else match ep_ops ep with
       | None => None
       | Some tbl => match_from tbl O (memory ep) a
       end.

Fixpoint find_service_from (l : list apple_epic_service) (i : nat)
    (ch : Z) : option nat :=
  match l with
  | [] => None
  | s :: tl =>
      if enabled s && (channel s =? ch) then Some i
      else find_service_from tl (S i) ch
  end.

(** The first of the [num_channels] registered services that is enabled
    on [ch]. *)
Definition afk_epic_find_service (ep : apple_dcp_afkep) (ch : Z)
  : option nat :=
  find_service_from (take (Z.to_nat (num_channels ep)) (services ep)) O ch.

Definition afk_recv_handle_teardown (ep : apple_dcp_afkep) (ch : Z)
  : apple_dcp_afkep :=
  match afk_epic_find_service ep ch with
  | None => ep
  | Some si =>
      let service := service_at ep si in
      let ep := set_service ep si (set_enabled service false) in
      match ep_ops ep with
      | Some tbl =>
          if teardown (default {| name := []; call := None; report := false;
                                  teardown := false |} (tbl !! ops service))
          then log_event ep (EvTeardown (channel service))
          else ep
      | None => ep
      end
  end.

(** [bitmap_release_region(map, idx, 0)] clears one bit. *)
Definition bitmap_release_region (map idx : Z) : Z := Z.clearbit map idx.

Definition dma_free_coherent (ep : apple_dcp_afkep) (size cpu dma : Z)
  : apple_dcp_afkep :=
  log_event ep (EvDmaFree size cpu dma).

Definition afk_recv_handle_reply (ep : apple_dcp_afkep) (ch t : Z)
    (payload payload_size : Z) : apple_dcp_afkep :=
  let idx := u8 (Z.land t 0xff) in
  match afk_epic_find_service ep ch with
  | None => ep
  | Some si =>
      if payload_size <? sizeof_epic_cmd abi then ep
      else if idx >=? MAX_PENDING_CMDS abi then ep
      else
        let service := service_at ep si in
        let c := slot_at service idx in
        if done c then ep
        else if negb (t =? tag c) then ep
        else
          let c' := {|
            tag := tag c; rxbuf := rxbuf c; txbuf := txbuf c;
            rxbuf_dma := rxbuf_dma c; txbuf_dma := txbuf_dma c;
            rxlen := rxlen c; txlen := txlen c;
            free_on_ack := free_on_ack c; done := true;
            completion := completion c;
            retcode :=
              load_le (memory ep) (payload + f_off (cmd_retcode abi)) 4
          |} in
          let service := set_slot service idx c' in
          let '(service, rxbuf_, txbuf_, rxlen_, txlen_) :=
            if free_on_ack c'
            then (set_cmd_map service
                    (bitmap_release_region (cmd_map service) idx),
                  rxbuf c', txbuf c', rxlen c', txlen c')
            else (service, 0, 0, 0, 0) in
          let ep := set_service ep si service in
          let ep :=
            match completion c' with
            | Some w => log_event ep (EvComplete w)
            | None => ep
            end in
          let ep :=
            if negb (rxbuf_ =? 0) && negb (rxlen_ =? 0)
            then dma_free_coherent ep rxlen_ rxbuf_ (rxbuf_dma c')
            else ep in
          if negb (txbuf_ =? 0) && negb (txlen_ =? 0)
          then dma_free_coherent ep txlen_ txbuf_ (txbuf_dma c')
          else ep
  end.

Definition store_field (a : Z) (f : field) (v : Z) : Z * list Z :=
  store_le (a + f_off f) (f_width f) v.

Definition load_field (m : mem) (a : Z) (f : field) : Z :=
  load_le m (a + f_off f) (f_width f).

(** The placement decision of [afk_send_epic]: the offset of the queue
    entry, the offset of its second copy when the frame wraps, and the
    offset at which the EPIC header starts; [None] is [-ENOMEM].  The
    comparisons are made in [size_t]. *)
Definition afk_send_epic_place (bufsz_ rptr wptr total_epic_size
    total_size : Z) : option (Z * option Z * Z) :=
  if wptr <? rptr then
    if usize (wptr + total_size) >? rptr then None
    else Some (wptr, None, u32 (wptr + sizeof_afk_qe))
  else
    if usize (wptr + sizeof_afk_qe) >? bufsz_ then None
    else if usize (wptr + total_size) >? bufsz_ then
      if sizeof_afk_qe >? rptr then None
      else
        let wptr' := u32 sizeof_afk_qe in
        if usize (wptr' + total_epic_size) >? rptr then None
        else Some (wptr, Some 0, wptr')
    else Some (wptr, None, u32 (wptr + sizeof_afk_qe)).

Definition qe_stores (a total_epic_size ch etype : Z) : stores :=
  [ store_le (a + qe_magic) 4 (u32 (QE_MAGIC_IOP abi));
    store_le (a + qe_size) 4 (u32 total_epic_size);
    store_le (a + qe_channel) 4 (u32 ch);
    store_le (a + qe_type) 4 (u32 etype) ].

(** The [memcpy] of the queue entry from [hdr] to [hdr2], reading the entry
    just written. *)
Definition qe_copy_stores (m : mem) (a : Z) (a2 : option Z) : stores :=
  match a2 with
  | Some a2 => [ (a2, load m a (Z.to_nat sizeof_afk_qe)) ]
  | None => []
  end.

Definition ehdr_stores (a seq : Z) : stores :=
  [ (a, repeat 0 (Z.to_nat (sizeof_epic_hdr abi)));
    store_field a (ehdr_version abi) 2;
    store_field a (ehdr_seq abi) (u16 seq);
    store_field a (ehdr_timestamp abi) 0 ].

Definition eshdr_stores (a payload_len t ecat stype : Z) : stores :=
  [ (a, repeat 0 (Z.to_nat (sizeof_epic_sub_hdr abi)));
    store_field a (eshdr_length abi) (u32 payload_len);
    store_field a (eshdr_version abi) 4;
    store_field a (eshdr_category abi) ecat;
    store_field a (eshdr_type abi) (u16 stype);
    store_field a (eshdr_timestamp abi) 0;
    store_field a (eshdr_tag abi) (u16 t);
    store_field a (eshdr_inline_len abi)
      (if ecat =? EPIC_CAT_REPLY abi
       then u16 (usize (payload_len - 4))
       else u16 0) ].

(** The stores of the envelope: both EPIC headers, then the payload, from
    offset [wptr] of the body at [b]. *)
Definition epic_stores (b wptr seq t ecat stype : Z) (payload : list Z)
  : stores :=
  let payload_len := Z.of_nat (length payload) in
  let wptr1 := u32 (wptr + sizeof_epic_hdr abi) in
  let wptr2 := u32 (wptr1 + sizeof_epic_sub_hdr abi) in
  ehdr_stores (b + wptr) seq
    ++ eshdr_stores (b + wptr1) payload_len t ecat stype
    ++ [ (b + wptr2, payload) ].

(** Every store [afk_send_epic] makes into the body of the TX ring, in
    program order, for a placement [(hdr_, hdr2, wptr)]. *)
Definition afk_send_epic_stores (ep : apple_dcp_afkep)
    (hdr_ : Z) (hdr2 : option Z) (wptr : Z)
    (ch t etype ecat stype : Z) (payload : list Z) : stores :=
  let b := buf (txbfr ep) in
  let payload_len := Z.of_nat (length payload) in
  let total_epic_size :=
    usize (sizeof_epic_hdr abi + sizeof_epic_sub_hdr abi + payload_len) in
  let qe := qe_stores (b + hdr_) total_epic_size ch etype in
  let cp :=
    qe_copy_stores (apply_stores (memory ep) qe) (b + hdr_)
      (option_map (Z.add b) hdr2) in
  qe ++ cp ++ epic_stores b wptr (qe_seq ep) t ecat stype payload.

Definition afk_send_epic (ep : apple_dcp_afkep)
    (ch t etype ecat stype : Z) (payload : list Z)
  : Z * apple_dcp_afkep :=
  let tx := txbfr ep in
  let rptr := afk_rb_get_rptr (memory ep) tx in
  let wptr := afk_rb_get_wptr (memory ep) tx in
  let payload_len := Z.of_nat (length payload) in
  let total_epic_size :=
    usize (sizeof_epic_hdr abi + sizeof_epic_sub_hdr abi + payload_len) in
  let total_size := usize (sizeof_afk_qe + total_epic_size) in
  match afk_send_epic_place (bufsz tx) rptr wptr total_epic_size
          total_size with
  | None => (- ENOMEM, ep)
  | Some (hdr_, hdr2, wptr) =>
      let m :=
        apply_stores (memory ep)
          (afk_send_epic_stores ep hdr_ hdr2 wptr ch t etype ecat stype
             payload) in
      let wptr := u32 (wptr + sizeof_epic_hdr abi) in
      let wptr := u32 (wptr + sizeof_epic_sub_hdr abi) in
      let wptr := u32 (wptr + payload_len) in
      let wptr := ALIGN 32 wptr (Z.shiftl 1 BLOCK_SHIFT) in
      let wptr := if wptr =? bufsz tx then 0 else wptr in
      let m := afk_rb_set_wptr m tx wptr in
      let ep' := set_qe_seq (set_memory ep m) (u16 (qe_seq ep + 1)) in
      (0, afk_send ep'
            (Z.lor (FIELD_PREP RBEP_TYPE RBEP_SEND)
                   (FIELD_PREP SEND_WPTR wptr)))
  end.

(** [struct epic_std_service_ap_call]: five 32-bit words and 48 opaque
    bytes, packed. *)
Definition sizeof_ap_call : Z := 68.
Definition ap_call_type : Z := 8.
Definition ap_call_len : Z := 12.

Definition null_ops : apple_epic_service_ops :=
  {| name := []; call := None; report := false; teardown := false |}.

Definition service_ops (ep : apple_dcp_afkep) (s : apple_epic_service)
  : apple_epic_service_ops :=
  match ep_ops ep with
  | Some tbl => default null_ops (tbl !! ops s)
  | None => null_ops
  end.

Definition afk_recv_handle_std_service (ep : apple_dcp_afkep)
    (ch type_ eshdr payload payload_size : Z) : apple_dcp_afkep :=
  match afk_epic_find_service ep ch with
  | None => ep
  | Some si =>
      let service := service_at ep si in
      let category := load_field (memory ep) eshdr (eshdr_category abi) in
      if (type_ =? EPIC_TYPE_NOTIFY abi)
         && (category =? EPIC_CAT_NOTIFY abi) then
        if payload_size <? sizeof_ap_call then ep
        else
          let call_size := load_le (memory ep) (payload + ap_call_len) 4 in
          if payload_size <? usize (sizeof_ap_call + call_size) then ep
          else
            match call (service_ops ep service) with
            | None => ep
            | Some f =>
                let '(ret, out) :=
                  f (load_le (memory ep) (payload + ap_call_type) 4)
                    (load (memory ep) (payload + sizeof_ap_call)
                       (Z.to_nat call_size)) in
                if negb (ret =? 0) then ep
                else
                  let reply :=
                    load (memory ep) payload (Z.to_nat sizeof_ap_call)
                    ++ take (Z.to_nat call_size)
                         (out ++ repeat 0 (Z.to_nat call_size))
                    ++ repeat 0
                         (Z.to_nat (payload_size - sizeof_ap_call
                                    - call_size)) in
                  snd (afk_send_epic ep ch
                         (load_field (memory ep) eshdr (eshdr_tag abi))
                         (EPIC_TYPE_NOTIFY_ACK abi) (EPIC_CAT_REPLY abi)
                         (EPIC_SUBTYPE_STD_SERVICE abi) reply)
            end
      else if (type_ =? EPIC_TYPE_NOTIFY abi)
              && (category =? EPIC_CAT_REPORT abi) then
        if report (service_ops ep service)
        then log_event ep
               (EvReport ch (load_field (memory ep) eshdr (eshdr_type abi))
                  (load (memory ep) payload (Z.to_nat payload_size)))
        else ep
      else ep
  end.

(** [ep->ep_ops->recv_handle_init]: the platform's announce handler. *)
Variable recv_handle_init :
  apple_dcp_afkep -> Z -> Z -> Z -> Z -> apple_dcp_afkep.

(** The payload of a frame as [afk_recv_handle] takes it: what follows
    the two EPIC headers, when the frame is long enough to hold them. *)
Definition epic_payload (data data_size : Z) : option (Z * Z) :=
  if data_size <? usize (sizeof_epic_hdr abi + sizeof_epic_sub_hdr abi)
  then None
  else Some (data + sizeof_epic_hdr abi + sizeof_epic_sub_hdr abi,
             usize (data_size - sizeof_epic_hdr abi
                    - sizeof_epic_sub_hdr abi)).

Definition afk_recv_handle (ep : apple_dcp_afkep)
    (ch type_ data data_size : Z) : apple_dcp_afkep :=
  let eshdr := data + sizeof_epic_hdr abi in
  let subtype := load_field (memory ep) eshdr (eshdr_type abi) in
  let category := load_field (memory ep) eshdr (eshdr_category abi) in
  match epic_payload data data_size with
  | None => ep
  | Some (payload, payload_size) =>
      match afk_epic_find_service ep ch with
      | None =>
          if negb (type_ =? EPIC_TYPE_NOTIFY abi)
             && negb (type_ =? EPIC_TYPE_REPLY abi) then ep
          else if negb (category =? EPIC_CAT_REPORT abi) then ep
          else if subtype =? EPIC_SUBTYPE_TEARDOWN abi then ep
          else if negb (subtype =? EPIC_SUBTYPE_ANNOUNCE abi)
                  && negb (subtype =? EPIC_SUBTYPE_STD_SERVICE abi) then ep
          else recv_handle_init ep subtype ch payload payload_size
      | Some _ =>
          if (type_ =? EPIC_TYPE_NOTIFY abi)
             && (category =? EPIC_CAT_REPORT abi)
             && (subtype =? EPIC_SUBTYPE_TEARDOWN abi)
          then afk_recv_handle_teardown ep ch
          else if (type_ =? EPIC_TYPE_REPLY abi)
                  && (category =? EPIC_CAT_REPLY abi)
          then afk_recv_handle_reply ep ch
                 (load_field (memory ep) eshdr (eshdr_tag abi))
                 payload payload_size
          else if subtype =? EPIC_SUBTYPE_STD_SERVICE abi
          then afk_recv_handle_std_service ep ch type_ eshdr payload
                 payload_size
          else ep
      end
  end.

(** A decoded queue entry: what [afk_recv] hands to [afk_recv_handle]. *)
Record frame := {
  fr_channel : Z;
  fr_type : Z;
  fr_data : Z;
  fr_size : Z
}.

Definition qe_magic_ok (magic : Z) : bool :=
  (magic =? QE_MAGIC_IOP abi) || (magic =? QE_MAGIC_AOP abi).

(** [afk_recv] up to the call of the handler: the endpoint with the read
    pointer published, and the frame, or [None] where the function
    returns [false]. *)
Definition afk_recv_qe (ep : apple_dcp_afkep)
  : apple_dcp_afkep * option frame :=
  let rx := rxbfr ep in
  if negb (ready rx) then (ep, None)
  else
    let rptr := afk_rb_get_rptr (memory ep) rx in
    let wptr := afk_rb_get_wptr (memory ep) rx in
    if rptr =? wptr then (ep, None)
    else if rptr >? usize (bufsz rx - sizeof_afk_qe) then (ep, None)
    else
      let hdr_ := buf rx + rptr in
      let magic := load_le (memory ep) (hdr_ + qe_magic) 4 in
      let size := load_le (memory ep) (hdr_ + qe_size) 4 in
      if negb (qe_magic_ok magic) then (ep, None)
      else
        let wrap :=
          usize (u32 (rptr + size) + sizeof_afk_qe) >? bufsz rx in
        let rptr := if wrap then 0 else rptr in
        let hdr_ := buf rx + rptr in
        let magic := load_le (memory ep) (hdr_ + qe_magic) 4 in
        let size := load_le (memory ep) (hdr_ + qe_size) 4 in
        if wrap && negb (qe_magic_ok magic) then (ep, None)
        else
          let ep :=
            if wrap
            then set_memory ep (afk_rb_set_rptr (memory ep) rx rptr)
            else ep in
          if usize (u32 (rptr + size) + sizeof_afk_qe) >? bufsz rx
          then (ep, None)
          else
            let ch := load_le (memory ep) (hdr_ + qe_channel) 4 in
            let type_ := load_le (memory ep) (hdr_ + qe_type) 4 in
            let rptr :=
              u32 (ALIGN 64 (usize (usize (rptr + sizeof_afk_qe) + size))
                     (Z.shiftl 1 BLOCK_SHIFT)) in
            let rptr := if rptr >? bufsz rx then 0 else rptr in
            let rptr := if rptr =? bufsz rx then 0 else rptr in
            (set_memory ep (afk_rb_set_rptr (memory ep) rx rptr),
             Some {| fr_channel := ch; fr_type := type_;
                     fr_data := hdr_ + qe_data; fr_size := size |}).

(** The part of [afk_recv] behind the tests of the pointers, from
    [dma_rmb()] to the call of the handler, for a read pointer [rptr]:
    the queue entry at [rptr] is decoded, or the one at offset 0 where
    the entry at [rptr] does not fit in front of the end of the body. *)
Definition afk_recv_at (ep : apple_dcp_afkep) (rptr : Z)
  : apple_dcp_afkep * option frame :=
  let rx := rxbfr ep in
  let hdr_ := buf rx + rptr in
  let magic := load_le (memory ep) (hdr_ + qe_magic) 4 in
  let size := load_le (memory ep) (hdr_ + qe_size) 4 in
  if negb (qe_magic_ok magic) then (ep, None)
  else
    let wrap :=
      usize (u32 (rptr + size) + sizeof_afk_qe) >? bufsz rx in
    let rptr := if wrap then 0 else rptr in
    let hdr_ := buf rx + rptr in
    let magic := load_le (memory ep) (hdr_ + qe_magic) 4 in
    let size := load_le (memory ep) (hdr_ + qe_size) 4 in
    if wrap && negb (qe_magic_ok magic) then (ep, None)
    else
      let ep :=
        if wrap
        then set_memory ep (afk_rb_set_rptr (memory ep) rx rptr)
        else ep in
      if usize (u32 (rptr + size) + sizeof_afk_qe) >? bufsz rx
      then (ep, None)
      else
        let ch := load_le (memory ep) (hdr_ + qe_channel) 4 in
        let type_ := load_le (memory ep) (hdr_ + qe_type) 4 in
        let rptr :=
          u32 (ALIGN 64 (usize (usize (rptr + sizeof_afk_qe) + size))
                 (Z.shiftl 1 BLOCK_SHIFT)) in
        let rptr := if rptr >? bufsz rx then 0 else rptr in
        let rptr := if rptr =? bufsz rx then 0 else rptr in
        (set_memory ep (afk_rb_set_rptr (memory ep) rx rptr),
         Some {| fr_channel := ch; fr_type := type_;
                 fr_data := hdr_ + qe_data; fr_size := size |}).

Definition afk_recv (ep : apple_dcp_afkep) : bool * apple_dcp_afkep :=
  match afk_recv_qe ep with
  | (ep, None) => (false, ep)
  | (ep, Some f) =>
      (true, afk_recv_handle ep (fr_channel f) (fr_type f) (fr_data f)
               (fr_size f))
  end.

(** [bitmap_find_free_region(map, bits, 0)]: the first clear bit below
    [bits], which it sets; [None] where it returns an error. *)
Fixpoint first_clear_bit (map : Z) (pos : Z) (n : nat) : option Z :=
  match n with
  | O => None
  | S k =>
      if Z.testbit map pos then first_clear_bit map (pos + 1) k
      else Some pos
  end.

Definition bitmap_find_free_region (map bits : Z) : option (Z * Z) :=
  match first_clear_bit map 0 (Z.to_nat bits) with
  | Some idx => Some (idx, Z.setbit map idx)
  | None => None
  end.

(** What [afk_send_command] holds while it sleeps in
    [wait_for_completion_timeout]. *)
Record cmd_wait := {
  w_idx : Z;
  w_rxbuf : Z;
  w_txbuf : Z;
  w_rxbuf_dma : Z;
  w_txbuf_dma : Z;
  w_output_len : Z;
  w_payload_len : Z;
  w_completion : Z
}.

(** The image of [struct epic_cmd] that is sent as the command payload:
    zeroed, then the five members set. *)
Definition epic_cmd_bytes (rxbuf_dma_ output_len txbuf_dma_ payload_len : Z)
  : list Z :=
  load
    (apply_stores (fun _ => 0)
       [ store_field 0 (cmd_retcode abi) (u32 0);
         store_field 0 (cmd_rxbuf abi) (usize rxbuf_dma_);
         store_field 0 (cmd_rxlen abi) (u32 output_len);
         store_field 0 (cmd_txbuf abi) (usize txbuf_dma_);
         store_field 0 (cmd_txlen abi) (u32 payload_len) ])
    0 (Z.to_nat (sizeof_epic_cmd abi)).

(** [afk_send_command] from its entry to the wait: either it returns an
    error ([inl]) or it sleeps with the command pending ([inr]).
    [service] is the position of the service in [ep->services] and [w]
    the address of the completion on the caller's stack. *)
Definition afk_send_command_submit (ep : apple_dcp_afkep) (service : nat)
    (type_ : Z) (payload : list Z) (output_len : Z) (w : Z)
  : apple_dcp_afkep * (Z + cmd_wait) :=
  let payload_len := Z.of_nat (length payload) in
  let '(rxbuf_, rxbuf_dma_) := dma_alloc_coherent (events ep) output_len in
  let ep := log_event ep (EvDmaAlloc output_len) in
  if rxbuf_ =? 0 then (ep, inl (- ENOMEM))
  else
    let '(txbuf_, txbuf_dma_) := dma_alloc_coherent (events ep) payload_len in
    let ep := log_event ep (EvDmaAlloc payload_len) in
    if txbuf_ =? 0
    then (dma_free_coherent ep output_len rxbuf_ rxbuf_dma_, inl (- ENOMEM))
    else
      let ep := set_memory ep (store (memory ep) txbuf_ payload) in
      let cmd := epic_cmd_bytes rxbuf_dma_ output_len txbuf_dma_ payload_len in
      let s := service_at ep service in
      match bitmap_find_free_region (cmd_map s) (MAX_PENDING_CMDS abi) with
      | None =>
          let ep := dma_free_coherent ep payload_len txbuf_ txbuf_dma_ in
          (dma_free_coherent ep output_len rxbuf_ rxbuf_dma_, inl (- ENOSPC))
      | Some (idx, map') =>
          let t :=
            u16 (Z.lor (u16 (Z.shiftl (Z.land (cmd_tag s) 0xff) 8))
                       (Z.land idx 0xff)) in
          let s := set_cmd_tag (set_cmd_map s map') (u8 (cmd_tag s + 1)) in
          let s := set_slot s idx {|
            tag := t; rxbuf := rxbuf_; txbuf := txbuf_;
            rxbuf_dma := rxbuf_dma_; txbuf_dma := txbuf_dma_;
            rxlen := output_len; txlen := payload_len;
            free_on_ack := false; done := false;
            completion := Some w; retcode := retcode (slot_at s idx)
          |} in
          let ep := set_service ep service s in
          let '(ret, ep) :=
            afk_send_epic ep (channel s) t (EPIC_TYPE_COMMAND abi)
              (EPIC_CAT_COMMAND abi) type_ cmd in
          if negb (ret =? 0) then
            let s := service_at ep service in
            let ep :=
              set_service ep service
                (set_cmd_map s (bitmap_release_region (cmd_map s) idx)) in
            let ep := dma_free_coherent ep payload_len txbuf_ txbuf_dma_ in
            (dma_free_coherent ep output_len rxbuf_ rxbuf_dma_, inl ret)
          else
            (ep, inr {| w_idx := idx; w_rxbuf := rxbuf_; w_txbuf := txbuf_;
                        w_rxbuf_dma := rxbuf_dma_;
                        w_txbuf_dma := txbuf_dma_;
                        w_output_len := output_len;
                        w_payload_len := payload_len;
                        w_completion := w |})
      end.

(** The locked re-check after the wait returned [ret]: [Some e] where
    the function returns [e] at once, [None] where it goes on to collect
    the reply. *)
Definition afk_send_command_recheck (ep : apple_dcp_afkep) (service : nat)
    (cw : cmd_wait) (ret : Z) : apple_dcp_afkep * option Z :=
  if ret <=? 0 then
    let s := service_at ep service in
    let c := slot_at s (w_idx cw) in
    if negb (done c) then
      let c' := {|
        tag := tag c; rxbuf := rxbuf c; txbuf := txbuf c;
        rxbuf_dma := rxbuf_dma c; txbuf_dma := txbuf_dma c;
        rxlen := rxlen c; txlen := txlen c;
        free_on_ack := true; done := done c;
        completion := None; retcode := retcode c
      |} in
      (set_service ep service (set_slot s (w_idx cw) c'),
       Some (- ETIMEDOUT))
    else (ep, None)
  else (ep, None).

(** The result of a command that completed: the status, the device's
    return code and the bytes copied out of the response buffer. *)
Record cmd_result := {
  r_ret : Z;
  r_retcode : Z;
  r_output : list Z
}.

(** The tail of [afk_send_command] once the reply is in: read the
    result, release the tag and free both buffers. *)
Definition afk_send_command_collect (ep : apple_dcp_afkep) (service : nat)
    (cw : cmd_wait) : apple_dcp_afkep * cmd_result :=
  let s := service_at ep service in
  let res := {|
    r_ret := 0;
    r_retcode := retcode (slot_at s (w_idx cw));
    r_output := load (memory ep) (w_rxbuf cw) (Z.to_nat (w_output_len cw))
  |} in
  let ep :=
    set_service ep service
      (set_cmd_map s (bitmap_release_region (cmd_map s) (w_idx cw))) in
  let ep :=
    dma_free_coherent ep (w_payload_len cw) (w_txbuf cw) (w_txbuf_dma cw) in
  (dma_free_coherent ep (w_output_len cw) (w_rxbuf cw) (w_rxbuf_dma cw), res).

(** [afk_send_command] from the return of the wait to its own return. *)
Definition afk_send_command_finish (ep : apple_dcp_afkep) (service : nat)
    (cw : cmd_wait) (ret : Z) : apple_dcp_afkep * cmd_result :=
  match afk_send_command_recheck ep service cw ret with
  | (ep, Some e) => (ep, {| r_ret := e; r_retcode := 0; r_output := [] |})
  | (ep, None) => afk_send_command_collect ep service cw
  end.

End Afk.

(** ** The AOP platform layer ([aop.c]) *)

Module Aop.

(** [struct aop_epic_service_init]: a 16-byte name, four 32-bit words, the
    channel, two more words; 0x2c bytes in all. *)
Definition sizeof_aop_epic_service_init : Z := 0x2c.
Definition prop_name : Z := 0.
Definition prop_channel : Z := 32.

(** The announce handler of the AOP endpoints.  It takes the channel from
    the payload, not from its argument.  The three [WARN_ON]s of the C
    function only print; they do not return. *)
Definition apple_aop_recv_handle_init (abi : afk_abi)
    (ep : apple_dcp_afkep) (subtype ch payload payload_size : Z)
  : apple_dcp_afkep :=
  if payload_size <? sizeof_aop_epic_service_init then ep
  else if num_channels ep >=? AFK_MAX_CHANNEL abi then ep
  else
    let prop_ch := load_le (memory ep) (payload + prop_channel) 4 in
    match afk_match_service ep (payload + prop_name) with
    | None => ep
    | Some o =>
        let ch_idx := num_channels ep in
        let ep := set_num_channels ep (ch_idx + 1) in
        let s := service_at ep (Z.to_nat ch_idx) in
        set_service ep (Z.to_nat ch_idx) {|
          enabled := true; channel := prop_ch; ops := o;
          cmd_map := cmd_map s; cmds := cmds s; cmd_tag := 0
        |}
    end.

(** The receive path of an AOP endpoint: the transport with the AOP
    announce handler plugged in. *)
Definition aop_recv_handle (abi : afk_abi) (ep : apple_dcp_afkep)
    (ch type_ data data_size : Z) : apple_dcp_afkep :=
  afk_recv_handle abi (apple_aop_recv_handle_init abi) ep ch type_ data
    data_size.

Definition c_string (s : string) : list Z :=
  map (fun c => Z.of_nat (nat_of_ascii c)) (list_ascii_of_string s).

(** [spuappep_ops]: two services, each with a report callback. *)
Definition spuappep_ops : list apple_epic_service_ops :=
  [ {| name := c_string "SPUApp"; call := None; report := true;
       teardown := false |};
    {| name := c_string "i2c"; call := None; report := true;
       teardown := false |} ].

End Aop.

(** ** The message worker and the service calls ([afk.c]) *)

Definition ROUNDTRIP_BUF_SIZE : Z := 0x1000.

Definition EINVAL : Z := 22.

(** The members of [struct apple_dcp_afkep] that only the message worker
    uses, beside the endpoint itself: the two round-trip rings and the
    completions [started] and [stopped], [true] once completed. *)
Record afkep_worker := {
  wk_ep : apple_dcp_afkep;
  rt_rxbfr : afk_ringbuffer;
  rt_txbfr : afk_ringbuffer;
  started : bool;
  stopped : bool
}.

Definition set_wk_ep (st : afkep_worker) (ep : apple_dcp_afkep)
  : afkep_worker := {|
  wk_ep := ep; rt_rxbfr := rt_rxbfr st; rt_txbfr := rt_txbfr st;
  started := started st; stopped := stopped st
|}.

Definition set_started (st : afkep_worker) (b : bool) : afkep_worker := {|
  wk_ep := wk_ep st; rt_rxbfr := rt_rxbfr st; rt_txbfr := rt_txbfr st;
  started := b; stopped := stopped st
|}.

Definition set_stopped (st : afkep_worker) (b : bool) : afkep_worker := {|
  wk_ep := wk_ep st; rt_rxbfr := rt_rxbfr st; rt_txbfr := rt_txbfr st;
  started := started st; stopped := b
|}.

Definition set_buf (b : afk_ringbuffer) (p : Z) : afk_ringbuffer := {|
  ready := ready b; hdr := hdr b; buf := p; blksz := blksz b;
  bufsz := bufsz b
|}.

(** [struct epic_service_call] is declared in [afk.h] as well: its size,
    the four members [afk_service_call] sets and checks, and the magic
    number are parameters. *)
Record service_call_abi := {
  sizeof_epic_service_call : Z;
  call_group : field;
  call_command : field;
  call_data_len : field;
  call_magic : field;
  EPIC_SERVICE_CALL_MAGIC : Z
}.

(** Two members of a packed structure do not overlap. *)
Definition field_apart (f g : field) : Prop :=
  f_off f + Z.of_nat (f_width f) <= f_off g
  \/ f_off g + Z.of_nat (f_width g) <= f_off f.

(** What the declaration guarantees: the members lie inside the
    structure, side by side, [group] is a 16-bit and the other three are
    32-bit words, and the magic number is one too. *)
Record service_call_abi_ok (sc : service_call_abi) : Prop := {
  call_size_ok : 0 <= sizeof_epic_service_call sc < 2 ^ 16;
  call_group_in : field_in (call_group sc) (sizeof_epic_service_call sc);
  call_command_in : field_in (call_command sc) (sizeof_epic_service_call sc);
  call_data_len_in :
    field_in (call_data_len sc) (sizeof_epic_service_call sc);
  call_magic_in : field_in (call_magic sc) (sizeof_epic_service_call sc);
  call_group_width : f_width (call_group sc) = 2%nat;
  call_command_width : f_width (call_command sc) = 4%nat;
  call_data_len_width : f_width (call_data_len sc) = 4%nat;
  call_magic_width : f_width (call_magic sc) = 4%nat;
  call_group_command : field_apart (call_group sc) (call_command sc);
  call_group_data_len : field_apart (call_group sc) (call_data_len sc);
  call_group_magic : field_apart (call_group sc) (call_magic sc);
  call_command_data_len : field_apart (call_command sc) (call_data_len sc);
  call_command_magic : field_apart (call_command sc) (call_magic sc);
  call_data_len_magic : field_apart (call_data_len sc) (call_magic sc);
  call_magic_u32 : 0 <= EPIC_SERVICE_CALL_MAGIC sc < 2 ^ 32
}.

(** The layout in the Asahi Linux tree: two bytes of padding, the group,
    the command, the data length, the magic number and 48 opaque bytes. *)
Definition asahi_service_call : service_call_abi := {|
  sizeof_epic_service_call := 64;
  call_group := Field 2 2;
  call_command := Field 4 4;
  call_data_len := Field 8 4;
  call_magic := Field 12 4;
  EPIC_SERVICE_CALL_MAGIC := 0x69706378
|}.

Section Dispatch.

Variable abi : afk_abi.
Variable dma_alloc_coherent : list event -> Z -> Z * Z.
Variable recv_handle_init :
  apple_dcp_afkep -> Z -> Z -> Z -> Z -> apple_dcp_afkep.

(** [afk_alloc_roundtrip] for the ring [b] of the endpoint.  The device
    address of the new buffer is written to [ep->bfr_dma], the member that
    also holds the device address of the staging buffer; as in
    [afk_getbuf], a failed allocation leaves it alone. *)
Definition afk_alloc_roundtrip (ep : apple_dcp_afkep) (b : afk_ringbuffer)
  : apple_dcp_afkep * afk_ringbuffer :=
  let size := u32 ROUNDTRIP_BUF_SIZE in
  let '(p, dma) := dma_alloc_coherent (events ep) size in
  let ep := log_event ep (EvDmaAlloc size) in
  if p =? 0 then (ep, set_buf b 0)
  else
    (set_bfr ep (bfr ep) dma,
     {| ready := true; hdr := hdr b; buf := p; blksz := blksz b;
        bufsz := size |}).

Definition afk_init_roundtrip (st : afkep_worker) : afkep_worker :=
  let '(ep, rx) := afk_alloc_roundtrip (wk_ep st) (rt_rxbfr st) in
  let '(ep, tx) := afk_alloc_roundtrip ep (rt_txbfr st) in
  {| wk_ep := afk_send ep (FIELD_PREP RBEP_TYPE RBEP_INIT_ACK);
     rt_rxbfr := rx; rt_txbfr := tx;
     started := started st; stopped := stopped st |}.

(** [while (afk_recv(ep));] run for at most [fuel] calls; [None] when the
    calls run out before the ring is drained. *)
Fixpoint afk_recv_loop (fuel : nat) (ep : apple_dcp_afkep)
  : option apple_dcp_afkep :=
  match fuel with
  | O => None
  | S k =>
      let '(more, ep) := afk_recv abi recv_handle_init ep in
      if more then afk_recv_loop k ep else Some ep
  end.

(** [afk_receive_message_worker]: one mailbox word, dispatched on its
    type. *)
Definition afk_receive_message_worker (fuel : nat) (st : afkep_worker)
    (message : Z) : option afkep_worker :=
  let type_ := u16 (FIELD_GET RBEP_TYPE message) in
  if type_ =? RBEP_INIT_ACK then Some st
  else if type_ =? RBEP_START_ACK then Some (set_started st true)
  else if type_ =? RBEP_SHUTDOWN_ACK then Some (set_stopped st true)
  else if type_ =? RBEP_INIT then Some (afk_init_roundtrip st)
  else if type_ =? RBEP_GETBUF
  then Some (set_wk_ep st (afk_getbuf dma_alloc_coherent (wk_ep st) message))
  else if type_ =? RBEP_INIT_TX
  then Some (set_wk_ep st (afk_init_rxtx (wk_ep st) message TX))
  else if type_ =? RBEP_INIT_RX
  then Some (set_wk_ep st (afk_init_rxtx (wk_ep st) message RX))
  else if type_ =? RBEP_INIT_RXTX_ACK then Some st
  else if type_ =? RBEP_RECV
  then option_map (set_wk_ep st) (afk_recv_loop fuel (wk_ep st))
  else Some st.

Variable sc : service_call_abi.

(** [bfr_len] of [afk_service_call], computed in [size_t]: the length of
    the buffer that is both the payload and the output of
    [afk_send_command]. *)
Definition afk_service_call_bfr_len (data_len data_pad output_len
    output_pad : Z) : Z :=
  usize (Z.max (usize (data_len + data_pad)) (usize (output_len + output_pad))
         + sizeof_epic_service_call sc).

(** The buffer [afk_service_call] hands to [afk_send_command] with the
    subtype [EPIC_SUBTYPE_STD_SERVICE]: zeroed by [kzalloc], the header
    members set, the data copied behind the header. *)
Definition afk_service_call_request (group command : Z) (data : list Z)
    (data_pad output_len output_pad : Z) : list Z :=
  let data_len := Z.of_nat (length data) in
  load
    (apply_stores (fun _ => 0)
       [ store_field 0 (call_group sc) (u16 group);
         store_field 0 (call_command sc) (u32 command);
         store_field 0 (call_data_len sc) (u32 (usize (data_len + data_pad)));
         store_field 0 (call_magic sc) (u32 (EPIC_SERVICE_CALL_MAGIC sc));
         (sizeof_epic_service_call sc, data) ])
    0 (Z.to_nat (afk_service_call_bfr_len data_len data_pad output_len
                   output_pad)).

(** A member of the call header in the buffer [bfr]. *)
Definition call_field (bfr : list Z) (f : field) : Z :=
  le_val (take (f_width f) (drop (Z.to_nat (f_off f)) bfr)).

(** [afk_service_call] from the return of [afk_send_command], which left
    the response in the buffer, to its own return: the status, and the
    caller's [output_len] bytes ([None] for a NULL [output]). *)
Definition afk_service_call_finish (group command : Z)
    (output : option (list Z)) (output_len : Z) (res : cmd_result)
  : Z * option (list Z) :=
  let bfr := r_output res in
  if negb (r_ret res =? 0) then (r_ret res, output)
  else if negb (u32 (r_retcode res) =? 0) then (- EINVAL, output)
  else if negb (call_field bfr (call_magic sc)
                =? EPIC_SERVICE_CALL_MAGIC sc)
          || negb (call_field bfr (call_group sc) =? u16 group)
          || negb (call_field bfr (call_command sc) =? u32 command)
  then (- EINVAL, output)
  else
    let retlen := call_field bfr (call_data_len sc) in
    let retlen := if output_len <? retlen then u32 output_len else retlen in
    match output with
    | Some o =>
        if output_len =? 0 then (0, output)
        else
          (0, Some (take (Z.to_nat retlen)
                      (drop (Z.to_nat (sizeof_epic_service_call sc)) bfr)
                    ++ repeat 0 (Z.to_nat (output_len - retlen))))
    | None => (0, None)
    end.

End Dispatch.

(** ** Vocabulary of the statements *)

(** The bytes of a ring body that are written and not yet consumed: the
    circular interval from the read pointer up to the write pointer. *)
Definition reserved (rptr wptr o : Z) : Prop :=
  (rptr <= wptr /\ rptr <= o < wptr)
  \/ (wptr < rptr /\ (rptr <= o \/ o < wptr)).

(** The sixteen bytes of a queue entry for an envelope of [epic] bytes on
    channel [ch] with message type [ty], as the host writes it. *)
Definition qe_image (abi : afk_abi) (epic ch ty : Z) : list Z :=
  le_bytes 4 (u32 (QE_MAGIC_IOP abi)) ++ le_bytes 4 (u32 epic)
    ++ le_bytes 4 (u32 ch) ++ le_bytes 4 (u32 ty).

(** The three layouts of a frame of [total] bytes, with an envelope of
    [epic] bytes, in a body of [bufsz_] bytes. *)
Inductive layout (bufsz_ rptr wptr epic total : Z)
  : Z -> option Z -> Z -> Prop :=
| layout_before_rptr :
    wptr < rptr -> wptr + total <= rptr ->
    layout bufsz_ rptr wptr epic total wptr None (wptr + sizeof_afk_qe)
| layout_before_end :
    rptr <= wptr -> wptr + total <= bufsz_ ->
    layout bufsz_ rptr wptr epic total wptr None (wptr + sizeof_afk_qe)
| layout_wrapped :
    rptr <= wptr -> wptr + sizeof_afk_qe <= bufsz_ ->
    bufsz_ < wptr + total -> sizeof_afk_qe + epic <= rptr ->
    layout bufsz_ rptr wptr epic total wptr (Some 0) sizeof_afk_qe.

(** When no layout exists. *)
Definition no_layout (bufsz_ rptr wptr epic total : Z) : Prop :=
  (wptr < rptr /\ rptr < wptr + total)
  \/ (rptr <= wptr /\ bufsz_ < wptr + total
      /\ (bufsz_ < wptr + sizeof_afk_qe \/ rptr < sizeof_afk_qe + epic)).

(** A ring as [afk_init_rxtx] leaves it when it accepts an announcement:
    three header blocks, each a positive multiple of 0x40, in front of a
    body whose size, like the total, is a multiple of 0x40 and fits the
    16-bit size field of the message. *)
Record rb_ok (b : afk_ringbuffer) : Prop := {
  rb_is_ready : ready b = true;
  rb_blksz_min : 0x40 <= blksz b;
  rb_blksz_mult : blksz b mod 0x40 = 0;
  rb_buf_after_hdr : buf b = hdr b + 3 * blksz b;
  rb_bufsz_nonneg : 0 <= bufsz b;
  rb_bufsz_mult : bufsz b mod 0x40 = 0;
  rb_total_max : bufsz b + 3 * blksz b <= 0xffff * 0x40
}.

(** The fields of an [INIT_TX] / [INIT_RX] message as [afk_init_rxtx]
    decodes them, and the body size it reads from the first header block
    of the announced ring. *)
Definition initrb_base (message : Z) : Z :=
  u32 (Z.shiftl (FIELD_GET INITRB_OFFSET message) BLOCK_SHIFT).

Definition initrb_size (message : Z) : Z :=
  u32 (Z.shiftl (FIELD_GET INITRB_SIZE message) BLOCK_SHIFT).

Definition initrb_tag (message : Z) : Z :=
  u16 (FIELD_GET INITRB_TAG message).

Definition initrb_bufsz (ep : apple_dcp_afkep) (message : Z) : Z :=
  load_le (memory ep) (bfr ep + initrb_base message) 4.

(** The acceptance condition in the words of the negotiation protocol:
    matching tag, total size above the body size, a header that divides
    into three blocks, each a positive multiple of 0x40. *)
Definition init_rxtx_layout_ok (ep : apple_dcp_afkep) (message : Z) : Prop :=
  let size := initrb_size message in
  let bufsz_ := initrb_bufsz ep message in
  initrb_tag message = bfr_tag ep
  /\ bufsz_ < size
  /\ (size - bufsz_) mod 3 = 0
  /\ 0x40 <= (size - bufsz_) / 3
  /\ ((size - bufsz_) / 3) mod 0x40 = 0.

(** The guards the function applies before it looks at the layout: the
    announced window has to lie inside the staging buffer. *)
Definition init_rxtx_window_ok (ep : apple_dcp_afkep) (message : Z) : Prop :=
  initrb_base message < bfr_size ep
  /\ initrb_base message + initrb_size message <= bfr_size ep.

(** The receiving end of a ring the host has written: the same ring
    taken as RX ring, with the read pointer set to [off]. *)
Definition loopback (ep : apple_dcp_afkep) (off : Z) : apple_dcp_afkep :=
  set_rxbfr
    (set_memory ep (afk_rb_set_rptr (memory ep) (txbfr ep) off))
    (txbfr ep).

(** A slot after its reply has been taken: done, with the return code. *)
Definition completed (c : epic_cmd_slot) (rc : Z) : epic_cmd_slot := {|
  tag := tag c; rxbuf := rxbuf c; txbuf := txbuf c;
  rxbuf_dma := rxbuf_dma c; txbuf_dma := txbuf_dma c;
  rxlen := rxlen c; txlen := txlen c;
  free_on_ack := free_on_ack c; done := true;
  completion := completion c; retcode := rc
|}.

(** A slot after its waiter has given up: handed over to the reply
    handler, the completion detached. *)
Definition abandoned (c : epic_cmd_slot) : epic_cmd_slot := {|
  tag := tag c; rxbuf := rxbuf c; txbuf := txbuf c;
  rxbuf_dma := rxbuf_dma c; txbuf_dma := txbuf_dma c;
  rxlen := rxlen c; txlen := txlen c;
  free_on_ack := true; done := done c;
  completion := None; retcode := retcode c
|}.

(** The state [afk_send_command] leaves behind while it sleeps in the
    wait: the service is the enabled one of its channel, the tag slot is
    reserved in the bitmap, and the slot holds the command with both
    buffers, not done, not handed over, the completion attached. *)
Record pending (abi : afk_abi) (ep : apple_dcp_afkep) (service : nat)
    (cw : cmd_wait) : Prop := {
  pend_found :
    afk_epic_find_service ep (channel (service_at ep service))
    = Some service;
  pend_service : (service < length (services ep))%nat;
  pend_idx : 0 <= w_idx cw < MAX_PENDING_CMDS abi;
  pend_slot_exists :
    (Z.to_nat (w_idx cw) < length (cmds (service_at ep service)))%nat;
  pend_reserved :
    Z.testbit (cmd_map (service_at ep service)) (w_idx cw) = true;
  pend_tag_idx :
    u8 (Z.land (tag (slot_at (service_at ep service) (w_idx cw))) 0xff)
    = w_idx cw;
  pend_rxbuf : rxbuf (slot_at (service_at ep service) (w_idx cw)) = w_rxbuf cw;
  pend_txbuf : txbuf (slot_at (service_at ep service) (w_idx cw)) = w_txbuf cw;
  pend_rxbuf_dma :
    rxbuf_dma (slot_at (service_at ep service) (w_idx cw)) = w_rxbuf_dma cw;
  pend_txbuf_dma :
    txbuf_dma (slot_at (service_at ep service) (w_idx cw)) = w_txbuf_dma cw;
  pend_rxlen :
    rxlen (slot_at (service_at ep service) (w_idx cw)) = w_output_len cw;
  pend_txlen :
    txlen (slot_at (service_at ep service) (w_idx cw)) = w_payload_len cw;
  pend_not_handed_over :
    free_on_ack (slot_at (service_at ep service) (w_idx cw)) = false;
  pend_not_done : done (slot_at (service_at ep service) (w_idx cw)) = false;
  pend_completion :
    completion (slot_at (service_at ep service) (w_idx cw))
    = Some (w_completion cw);
  pend_rxbuf_nonnull : w_rxbuf cw <> 0;
  pend_txbuf_nonnull : w_txbuf cw <> 0
}.

(** The registered services that are enabled on channel [ch]. *)
Definition enabled_on (ep : apple_dcp_afkep) (ch : Z)
  : list apple_epic_service :=
  List.filter (fun s => enabled s && (channel s =? ch))
    (take (Z.to_nat (num_channels ep)) (services ep)).

(** The C string at address [a] is [s]: the bytes of [s], then the
    terminator. *)
Definition string_at (m : mem) (a : Z) (s : list Z) : Prop :=
  load m a (length s) = s /\ m (a + Z.of_nat (length s)) = 0.

(** The service is enabled on channel [ch]. *)
Definition serves (s : apple_epic_service) (ch : Z) : Prop :=
  enabled s = true /\ channel s = ch.

(** The other ring of the pair. *)
Definition opposite (d : direction) : direction :=
  match d with TX => RX | RX => TX end.

(** The members of [struct epic_sub_hdr], in the order [afk_send_epic]
    stores them. *)
Definition eshdr_members (abi : afk_abi) : list field :=
  [ eshdr_length abi; eshdr_version abi; eshdr_category abi; eshdr_type abi;
    eshdr_timestamp abi; eshdr_tag abi; eshdr_inline_len abi ].

(** The members of a structure lie side by side. *)
Definition members_apart (l : list field) : Prop :=
  ForallOrdPairs field_apart l.

(** ** Concrete endpoints *)

(** States on which the model is run: an AOP endpoint with a 4 KiB
    staging buffer at address 0x10000 that holds a TX ring at offset 0 and
    an RX ring at offset 0x400, each with 0x40-byte header blocks and a
    0x80-byte body. *)
Module Sample.

Definition tx_ring : afk_ringbuffer :=
  {| ready := true; hdr := 0x10000; buf := 0x100c0; blksz := 0x40;
     bufsz := 0x80 |}.

Definition rx_ring : afk_ringbuffer :=
  {| ready := true; hdr := 0x10400; buf := 0x104c0; blksz := 0x40;
     bufsz := 0x80 |}.

Definition blank_ring : afk_ringbuffer :=
  {| ready := false; hdr := 0; buf := 0; blksz := 0; bufsz := 0 |}.

(** Zeroed memory with the body size written to the first header block
    of both rings. *)
Definition mem0 : mem :=
  apply_stores (fun _ => 0)
    [ store_le 0x10000 4 0x80; store_le 0x10400 4 0x80 ].

Definition blank_service : apple_epic_service :=
  {| enabled := false; channel := 0; ops := O; cmd_map := 0;
     cmds := repeat empty_slot 8; cmd_tag := 0 |}.

(** After [GETBUF], before the rings are announced. *)
Definition ep_staged : apple_dcp_afkep := {|
  endpoint := 0x20;
  ep_ops := Some Aop.spuappep_ops;
  bfr := 0x10000; bfr_size := 0x1000; bfr_dma := 0x80000000; bfr_tag := 7;
  rxbfr := blank_ring; txbfr := blank_ring;
  qe_seq := 0;
  num_channels := 0;
  services := repeat blank_service 16;
  memory := mem0;
  events := []
|}.

(** Both rings ready and empty. *)
Definition ep_idle : apple_dcp_afkep :=
  set_txbfr (set_rxbfr ep_staged rx_ring) tx_ring.

(** The TX ring with the given read and write pointers. *)
Definition ep_tx (rptr wptr : Z) : apple_dcp_afkep :=
  set_memory ep_idle
    (afk_rb_set_wptr (afk_rb_set_rptr mem0 tx_ring rptr) tx_ring wptr).

(** A command waiting in slot 2 of a service on channel 5: tag 0x0302,
    a 64-byte response buffer and a 30-byte request buffer. *)
Definition pending_slot : epic_cmd_slot := {|
  tag := 0x0302; rxbuf := 0x20000; txbuf := 0x21000;
  rxbuf_dma := 0x90000000; txbuf_dma := 0x90001000;
  rxlen := 64; txlen := 30; free_on_ack := false; done := false;
  completion := Some 0x7000; retcode := 0
|}.

Definition busy_service : apple_epic_service :=
  {| enabled := true; channel := 5; ops := O; cmd_map := 4;
     cmds := <[2%nat := pending_slot]> (repeat empty_slot 8);
     cmd_tag := 4 |}.

Definition ep_busy : apple_dcp_afkep :=
  set_num_channels (set_service ep_idle 0 busy_service) 1.

Definition waiter : cmd_wait := {|
  w_idx := 2; w_rxbuf := 0x20000; w_txbuf := 0x21000;
  w_rxbuf_dma := 0x90000000; w_txbuf_dma := 0x90001000;
  w_output_len := 64; w_payload_len := 30; w_completion := 0x7000
|}.

(** The same command with nothing to read back: an empty response
    buffer. *)
Definition pending_slot_no_output : epic_cmd_slot := {|
  tag := 0x0302; rxbuf := 0x20000; txbuf := 0x21000;
  rxbuf_dma := 0x90000000; txbuf_dma := 0x90001000;
  rxlen := 0; txlen := 30; free_on_ack := false; done := false;
  completion := Some 0x7000; retcode := 0
|}.

Definition ep_busy_no_output : apple_dcp_afkep :=
  set_num_channels
    (set_service ep_idle 0
       {| enabled := true; channel := 5; ops := O; cmd_map := 4;
          cmds := <[2%nat := pending_slot_no_output]> (repeat empty_slot 8);
          cmd_tag := 4 |})
    1.

Definition waiter_no_output : cmd_wait := {|
  w_idx := 2; w_rxbuf := 0x20000; w_txbuf := 0x21000;
  w_rxbuf_dma := 0x90000000; w_txbuf_dma := 0x90001000;
  w_output_len := 0; w_payload_len := 30; w_completion := 0x7000
|}.

(** A service on channel 5 with no command in flight. *)
Definition ep_ready : apple_dcp_afkep :=
  set_num_channels
    (set_service ep_idle 0
       {| enabled := true; channel := 5; ops := O; cmd_map := 3;
          cmds := repeat empty_slot 8; cmd_tag := 3 |})
    1.

(** An announce frame at address 0x30000: zeroed EPIC headers with the
    subtype [EPIC_SUBTYPE_STD_SERVICE], then the AOP service record with
    the name [SPUApp] and the channel 5. *)
Definition announce_mem (m : mem) : mem :=
  apply_stores m
    [ store_le (0x30010 + 6) 2 0xc0;
      (0x30028, Aop.c_string "SPUApp");
      store_le (0x30028 + 32) 4 5 ].

Definition ep_announce : apple_dcp_afkep :=
  set_memory ep_ready (announce_mem mem0).

(** A TX ring with a 128 KiB body, empty. *)
Definition big_ring : afk_ringbuffer :=
  {| ready := true; hdr := 0x100000; buf := 0x1000c0; blksz := 0x40;
     bufsz := 0x20000 |}.

Definition ep_big : apple_dcp_afkep :=
  set_memory (set_txbfr ep_idle big_ring)
    (store mem0 0x100000 (le_bytes 4 0x20000)).

(** The big ring with the given read and write pointers. *)
Definition ep_big_tx (rptr wptr : Z) : apple_dcp_afkep :=
  set_memory ep_big
    (afk_rb_set_wptr (afk_rb_set_rptr (memory ep_big) big_ring rptr)
       big_ring wptr).

(** An allocator that hands out consecutive pages and never fails. *)
Definition page_alloc (log : list event) (size : Z) : Z * Z :=
  let n := Z.of_nat (length log) in
  (0x20000 + 0x1000 * n, 0x90000000 + 0x1000 * n).

End Sample.

(** Further states: an endpoint whose staging buffer was never allocated;
    the idle endpoint after the host has sent a four-byte notification on
    channel 5, taken from the receiving side; and a worker around an
    endpoint, with no round-trip ring yet. *)
Definition ep_fresh : apple_dcp_afkep := set_bfr Sample.ep_staged 0 0.

Definition ep_echo : apple_dcp_afkep :=
  loopback
    (snd (afk_send_epic asahi_abi Sample.ep_idle 5 0x0102 0 0x10 0xc0
            [1; 2; 3; 4]))
    0.

(** The idle endpoint with one frame in its RX ring: a queue entry for 44
    bytes on channel 5 at offset 0, the write pointer at 0x40. *)
Definition ep_inbox : apple_dcp_afkep :=
  set_memory Sample.ep_idle
    (apply_stores Sample.mem0
       [ (0x104c0, qe_image asahi_abi 44 5 0);
         store_le (0x10400 + 0x40 * 2) 4 0x40 ]).

Definition worker_of (ep : apple_dcp_afkep) : afkep_worker := {|
  wk_ep := ep; rt_rxbfr := Sample.blank_ring; rt_txbfr := Sample.blank_ring;
  started := false; stopped := false
|}.

(** The idle endpoint with a queue entry at offset 0x40 of its RX ring
    whose size field is 0xfffffff0, the read pointer on it. *)
Definition ep_oversized : apple_dcp_afkep :=
  set_memory Sample.ep_idle
    (apply_stores Sample.mem0
       [ (0x104c0 + 0x40, qe_image asahi_abi 0xfffffff0 5 0);
         store_le (0x10400 + 0x40 * 1) 4 0x40 ]).

(** * Properties *)

(** ** Words and memory *)

Lemma length_le_bytes (n : nat) (v : Z) : length (le_bytes n v) = n.
Proof. revert v; induction n as [|n IH]; intros v; simpl; [|rewrite IH]; reflexivity. Qed.

Lemma le_val_le_bytes (n : nat) (v : Z) :
  le_val (le_bytes n v) = v mod 256 ^ Z.of_nat n.
Proof.
  revert v; induction n as [|n IH]; intros v.
  - simpl. rewrite Z.mod_1_r. reflexivity.
  - cbn [le_bytes le_val]. rewrite IH.
    rewrite Nat2Z.inj_succ, Z.pow_succ_r by lia.
    rewrite Z.rem_mul_r by lia. reflexivity.
Qed.

Lemma le_val_le_bytes_small (n : nat) (v : Z) :
  0 <= v < 256 ^ Z.of_nat n -> le_val (le_bytes n v) = v.
Proof. intros H. rewrite le_val_le_bytes. apply Z.mod_small, H. Qed.

Lemma length_load (m : mem) (a : Z) (n : nat) : length (load m a n) = n.
Proof. unfold load. rewrite length_map, length_seq. reflexivity. Qed.

Lemma store_outside (m : mem) (a : Z) (bs : list Z) (x : Z) :
  x < a \/ a + Z.of_nat (length bs) <= x -> store m a bs x = m x.
Proof.
  intros H. unfold store. rewrite bool_decide_eq_false_2; [reflexivity | lia].
Qed.

Lemma store_inside (m : mem) (a : Z) (bs : list Z) (x : Z) :
  a <= x < a + Z.of_nat (length bs) ->
  store m a bs x = nth (Z.to_nat (x - a)) bs 0.
Proof.
  intros H. unfold store. rewrite bool_decide_eq_true_2; [reflexivity | lia].
Qed.

Lemma load_ext (m m' : mem) (a : Z) (n : nat) :
  (forall x, a <= x < a + Z.of_nat n -> m' x = m x) ->
  load m' a n = load m a n.
Proof.
  intros H. unfold load. apply map_ext_in. intros i Hi.
  apply in_seq in Hi. apply H. lia.
Qed.

Lemma load_store_same (m : mem) (a : Z) (bs : list Z) :
  load (store m a bs) a (length bs) = bs.
Proof.
  unfold load. apply nth_ext with (d := 0) (d' := 0).
  - rewrite length_map, length_seq. reflexivity.
  - intros i Hi. rewrite length_map, length_seq in Hi.
    rewrite (nth_indep _ 0 ((fun i : nat => store m a bs (a + Z.of_nat i)) O))
      by (rewrite length_map, length_seq; exact Hi).
    rewrite (map_nth (fun i : nat => store m a bs (a + Z.of_nat i))).
    rewrite seq_nth by exact Hi. simpl.
    rewrite store_inside by lia.
    f_equal. lia.
Qed.

Lemma load_store_other (m : mem) (a : Z) (bs : list Z) (b : Z) (n : nat) :
  b + Z.of_nat n <= a \/ a + Z.of_nat (length bs) <= b ->
  load (store m a bs) b n = load m b n.
Proof. intros H. apply load_ext. intros x Hx. apply store_outside. lia. Qed.

Lemma apply_stores_app (m : mem) (l1 l2 : stores) :
  apply_stores m (l1 ++ l2) = apply_stores (apply_stores m l1) l2.
Proof. unfold apply_stores. apply fold_left_app. Qed.

Lemma apply_stores_cons (m : mem) (s : Z * list Z) (l : stores) :
  apply_stores m (s :: l) = apply_stores (store m (fst s) (snd s)) l.
Proof. reflexivity. Qed.

(** A store list leaves alone every address it does not touch. *)
Lemma apply_stores_untouched (l : stores) (m : mem) (x : Z) :
  ~ touches l x -> apply_stores m l x = m x.
Proof.
  revert m; induction l as [|s l IH]; intros m H; [reflexivity|].
  rewrite apply_stores_cons, IH.
  - apply store_outside.
    destruct (Z_lt_dec x (fst s)) as [?|?]; [left; assumption|].
    destruct (Z_le_dec (fst s + Z.of_nat (length (snd s))) x) as [?|?];
      [right; assumption|].
    exfalso. apply H. exists s. split; [left; reflexivity | lia].
  - intros (s' & Hin & Hr). apply H. exists s'. split; [right; exact Hin | exact Hr].
Qed.

Lemma touches_app (l1 l2 : stores) (x : Z) :
  touches (l1 ++ l2) x <-> touches l1 x \/ touches l2 x.
Proof.
  unfold touches. split.
  - intros (s & Hin & Hr). apply in_app_or in Hin. destruct Hin; [left | right]; eauto.
  - intros [(s & Hin & Hr) | (s & Hin & Hr)]; exists s; split; auto;
      apply in_or_app; auto.
Qed.

Lemma touches_cons (s : Z * list Z) (l : stores) (x : Z) :
  touches (s :: l) x <->
  fst s <= x < fst s + Z.of_nat (length (snd s)) \/ touches l x.
Proof.
  unfold touches. split.
  - intros (s' & [<- | Hin] & Hr); [left; exact Hr | right; eauto].
  - intros [Hr | (s' & Hin & Hr)]; [exists s | exists s']; simpl; auto.
Qed.

Lemma touches_nil (x : Z) : ~ touches [] x.
Proof. intros (s & [] & _). Qed.

Lemma u32_small (x : Z) : 0 <= x < 2 ^ 32 -> u32 x = x.
Proof. apply Z.mod_small. Qed.

Lemma usize_small (x : Z) : 0 <= x < 2 ^ 64 -> usize x = x.
Proof. apply Z.mod_small. Qed.

Lemma u16_small (x : Z) : 0 <= x < 2 ^ 16 -> u16 x = x.
Proof. apply Z.mod_small. Qed.

(** On values that do not overflow, [ALIGN] rounds up to the next
    multiple of a power of two. *)
Lemma ALIGN_spec (bits k x : Z) :
  0 <= k <= bits -> 0 <= x -> x + (2 ^ k - 1) < 2 ^ bits ->
  ALIGN bits x (2 ^ k) = 2 ^ k * ((x + (2 ^ k - 1)) / 2 ^ k).
Proof.
  intros Hk Hx Hlt. unfold ALIGN.
  assert (Hp : 0 < 2 ^ k) by (apply Z.pow_pos_nonneg; lia).
  rewrite (Z.mod_small (x + (2 ^ k - 1))) by lia.
  rewrite <- (Z.land_ones (Z.lnot (2 ^ k - 1))) by lia.
  rewrite Z.land_assoc.
  rewrite (Z.land_comm (x + (2 ^ k - 1)) (Z.lnot (2 ^ k - 1))).
  rewrite <- Z.land_assoc.
  rewrite (Z.land_ones (x + (2 ^ k - 1))), Z.mod_small by lia.
  rewrite Z.land_comm, <- Z.ldiff_land.
  replace (2 ^ k - 1) with (Z.ones k) at 2 by (rewrite Z.ones_equiv; lia).
  rewrite Z.ldiff_ones_r by lia.
  rewrite Z.shiftl_mul_pow2, Z.shiftr_div_pow2 by lia.
  lia.
Qed.

(** ** Buffer negotiation *)

(** C9.  A [GETBUF] that arrives while the staging buffer exists changes
    nothing: the endpoint is returned as it was, so no allocation is
    requested, no [GETBUF_ACK] is sent, and the buffer pointer, its size
    and its tag keep their values. *)
Theorem afk_getbuf_buffer_exists
    (alloc : list event -> Z -> Z * Z) (ep : apple_dcp_afkep) (message : Z) :
  bfr ep <> 0 ->
  afk_getbuf alloc ep message = ep
  /\ events (afk_getbuf alloc ep message) = events ep
  /\ bfr (afk_getbuf alloc ep message) = bfr ep
  /\ bfr_size (afk_getbuf alloc ep message) = bfr_size ep
  /\ bfr_tag (afk_getbuf alloc ep message) = bfr_tag ep.
Proof.
  intros H. unfold afk_getbuf.
  destruct (Z.eqb_spec (bfr ep) 0) as [E|_]; [contradiction|].
  simpl. repeat split; reflexivity.
Qed.

Lemma afk_getbuf_buffer_exists_witness :
  Sample.ep_staged.(bfr) <> 0
  /\ afk_getbuf Sample.page_alloc Sample.ep_staged 0x0089000000400007
     = Sample.ep_staged.
Proof.
  assert (H : Sample.ep_staged.(bfr) <> 0) by (vm_compute; discriminate).
  split; [exact H|].
  exact (proj1 (afk_getbuf_buffer_exists Sample.page_alloc Sample.ep_staged
                  0x0089000000400007 H)).
Defined.

(** Without a staging buffer the same message allocates and answers, so
    the log does record both calls. *)
Example afk_getbuf_fresh :
  let ep := set_bfr Sample.ep_staged 0 0 in
  events (afk_getbuf Sample.page_alloc ep 0x0089000000400007)
  = [EvDmaAlloc 0x1000; EvSend 0x00a1000090000000].
Proof. vm_compute. reflexivity. Qed.

(** ** Reply matching *)

(** C5.  A reply is dropped, and the endpoint with all its services and
    pending commands is returned as it was, when the slot index of its
    tag is out of range, when the slot is already done, or when the tag
    differs from the one stored in the slot.  In particular the [done]
    flag of the slot keeps its value, nothing is freed and no completion
    is signalled. *)
Theorem afk_recv_handle_reply_rejects
    (abi : afk_abi) (ep : apple_dcp_afkep) (ch t payload payload_size : Z)
    (si : nat) :
  afk_epic_find_service ep ch = Some si ->
  let idx := u8 (Z.land t 0xff) in
  let c := slot_at (service_at ep si) idx in
  idx >= MAX_PENDING_CMDS abi \/ done c = true \/ t <> tag c ->
  let ep' := afk_recv_handle_reply abi ep ch t payload payload_size in
  ep' = ep
  /\ done (slot_at (service_at ep' si) idx) = done c
  /\ events ep' = events ep.
Proof.
  intros Hs idx c H ep'.
  assert (E : ep' = ep).
  { subst ep'. unfold afk_recv_handle_reply. rewrite Hs.
    fold idx. fold c.
    destruct (payload_size <? sizeof_epic_cmd abi); [reflexivity|].
    destruct (Z.geb_spec idx (MAX_PENDING_CMDS abi)) as [?|Hlt];
      [reflexivity|].
    destruct (done c) eqn:Hd; [reflexivity|].
    destruct (Z.eqb_spec t (tag c)) as [Ht|?]; [|reflexivity].
    exfalso. destruct H as [H|[H|H]]; [lia | discriminate | contradiction]. }
  rewrite E. repeat split; reflexivity.
Qed.

Lemma afk_recv_handle_reply_rejects_witness :
  let ep := Sample.ep_busy in
  afk_recv_handle_reply asahi_abi ep 5 0x0502 0x104e8 30 = ep
  /\ done (slot_at (service_at ep 0) 2) = false.
Proof.
  assert (Hs : afk_epic_find_service Sample.ep_busy 5 = Some 0%nat)
    by (vm_compute; reflexivity).
  assert (Hc : u8 (Z.land 0x0502 0xff) >= MAX_PENDING_CMDS asahi_abi
               \/ done (slot_at (service_at Sample.ep_busy 0)
                          (u8 (Z.land 0x0502 0xff))) = true
               \/ 0x0502 <> tag (slot_at (service_at Sample.ep_busy 0)
                                   (u8 (Z.land 0x0502 0xff))))
    by (right; right; vm_compute; discriminate).
  split.
  - exact (proj1 (afk_recv_handle_reply_rejects asahi_abi Sample.ep_busy 5
                    0x0502 0x104e8 30 0%nat Hs Hc)).
  - vm_compute. reflexivity.
Defined.

(** A reply on a channel without an enabled service, or one too short to
    hold the command record, is dropped in the same way. *)
Lemma afk_recv_handle_reply_no_service
    (abi : afk_abi) (ep : apple_dcp_afkep) (ch t payload payload_size : Z) :
  afk_epic_find_service ep ch = None ->
  afk_recv_handle_reply abi ep ch t payload payload_size = ep.
Proof. intros H. unfold afk_recv_handle_reply. rewrite H. reflexivity. Qed.

(** The matching reply, for comparison, does complete the command. *)
Example afk_recv_handle_reply_accepts :
  let ep' := afk_recv_handle_reply asahi_abi Sample.ep_busy 5 0x0302
               0x104e8 30 in
  done (slot_at (service_at ep' 0) 2) = true
  /\ events ep' = [EvComplete 0x7000].
Proof. vm_compute. split; reflexivity. Qed.

(** ** Sending: running out of space *)

(** The frame size as [afk_send_epic] computes it is the sum of the three
    headers and the payload, for any payload that fits in an address
    space. *)
Lemma total_sizes (abi : afk_abi) (n : Z) :
  abi_ok abi -> 0 <= n < 2 ^ 63 ->
  usize (sizeof_epic_hdr abi + sizeof_epic_sub_hdr abi + n)
  = sizeof_epic_hdr abi + sizeof_epic_sub_hdr abi + n
  /\ usize (sizeof_afk_qe
            + usize (sizeof_epic_hdr abi + sizeof_epic_sub_hdr abi + n))
     = sizeof_afk_qe + sizeof_epic_hdr abi + sizeof_epic_sub_hdr abi + n.
Proof.
  intros Habi Hn.
  pose proof (ehdr_size_ok abi Habi). pose proof (eshdr_size_ok abi Habi).
  unfold sizeof_afk_qe.
  assert (E : usize (sizeof_epic_hdr abi + sizeof_epic_sub_hdr abi + n)
              = sizeof_epic_hdr abi + sizeof_epic_sub_hdr abi + n)
    by (apply usize_small; lia).
  rewrite E. split; [reflexivity|]. rewrite usize_small; lia.
Qed.

(** C7.  With the write pointer below the read pointer, a frame that
    would run past the read pointer is refused with [-ENOMEM]; the
    endpoint is returned as it was, so the write pointer in the third
    header block is not stored to and no [SEND] message leaves. *)
Theorem afk_send_epic_no_room_before_rptr
    (abi : afk_abi) (ep : apple_dcp_afkep) (ch t etype ecat stype : Z)
    (payload : list Z) :
  abi_ok abi ->
  let tx := txbfr ep in
  let rptr := afk_rb_get_rptr (memory ep) tx in
  let wptr := afk_rb_get_wptr (memory ep) tx in
  let total :=
    sizeof_afk_qe + sizeof_epic_hdr abi + sizeof_epic_sub_hdr abi
    + Z.of_nat (length payload) in
  0 <= wptr < rptr -> rptr < 2 ^ 32 ->
  Z.of_nat (length payload) < 2 ^ 63 ->
  wptr + total > rptr ->
  let r := afk_send_epic abi ep ch t etype ecat stype payload in
  r = (- ENOMEM, ep)
  /\ afk_rb_get_wptr (memory (snd r)) tx = wptr
  /\ events (snd r) = events ep.
Proof.
  intros Habi tx rptr wptr total Hw Hr Hlen Hfull r.
  assert (E : r = (- ENOMEM, ep)).
  { subst r. unfold afk_send_epic. fold tx. fold rptr. fold wptr.
    destruct (total_sizes abi (Z.of_nat (length payload)) Habi) as [E1 E2];
      [lia|].
    rewrite E2, E1. fold total.
    unfold afk_send_epic_place.
    destruct (Z.ltb_spec wptr rptr) as [_|?]; [|lia].
    pose proof (ehdr_size_ok abi Habi). pose proof (eshdr_size_ok abi Habi).
    rewrite usize_small by (unfold total, sizeof_afk_qe in *; lia).
    destruct (Z.gtb_spec (wptr + total) rptr) as [_|?]; [reflexivity | lia]. }
  rewrite E. repeat split; reflexivity.
Qed.

Lemma asahi_abi_ok : abi_ok asahi_abi.
Proof.
  constructor; unfold field_in; simpl; lia.
Qed.

Lemma afk_send_epic_no_room_before_rptr_witness :
  let ep := Sample.ep_tx 0x40 0 in
  afk_send_epic asahi_abi ep 5 0 3 0x30 0xc0 (repeat 0 100)
  = (- ENOMEM, ep).
Proof.
  refine (proj1 (afk_send_epic_no_room_before_rptr asahi_abi
                   (Sample.ep_tx 0x40 0) 5 0 3 0x30 0xc0 (repeat 0 100)
                   asahi_abi_ok _ _ _ _)).
  - vm_compute. split; [discriminate | reflexivity].
  - vm_compute. reflexivity.
  - vm_compute. reflexivity.
  - vm_compute. reflexivity.
Defined.

(** ** Sending: where the stores go *)

Lemma load_S (m : mem) (a : Z) (n : nat) :
  load m a (S n) = m a :: load m (a + 1) n.
Proof.
  unfold load. simpl. rewrite Z.add_0_r. f_equal.
  rewrite <- seq_shift, map_map. apply map_ext. intros i. f_equal. lia.
Qed.

Lemma load_app (m : mem) (a : Z) (n1 n2 : nat) :
  load m a (n1 + n2) = load m a n1 ++ load m (a + Z.of_nat n1) n2.
Proof.
  revert a; induction n1 as [|n1 IH]; intros a.
  - simpl. rewrite Z.add_0_r. reflexivity.
  - change (S n1 + n2)%nat with (S (n1 + n2)).
    rewrite !load_S, IH. simpl. do 3 f_equal. lia.
Qed.

Lemma load_apply_stores_untouched (l : stores) (m : mem) (a : Z) (n : nat) :
  (forall x, a <= x < a + Z.of_nat n -> ~ touches l x) ->
  load (apply_stores m l) a n = load m a n.
Proof.
  intros H. apply load_ext. intros x Hx. apply apply_stores_untouched, H, Hx.
Qed.

Lemma load_le_store (m : mem) (a : Z) (n : nat) (v : Z) :
  load_le (store m a (le_bytes n v)) a n = v mod 256 ^ Z.of_nat n.
Proof.
  unfold load_le.
  rewrite <- (length_le_bytes n v) at 2.
  rewrite load_store_same. apply le_val_le_bytes.
Qed.

Section SendFootprint.

Variable abi : afk_abi.
Hypothesis Habi : abi_ok abi.

Lemma touches_within (l : stores) (lo hi x : Z) :
  List.Forall (store_within lo hi) l -> touches l x -> lo <= x < hi.
Proof.
  intros Hall (s & Hin & Hr).
  rewrite List.Forall_forall in Hall. destruct (Hall s Hin). lia.
Qed.

Lemma store_field_within (a : Z) (f : field) (v size : Z) :
  field_in f size -> store_within a (a + size) (store_field a f v).
Proof.
  intros [H0 H1]. unfold store_within, store_field, store_le. simpl.
  rewrite length_le_bytes. lia.
Qed.

Lemma touches_qe_stores (a e ch ty x : Z) :
  touches (qe_stores abi a e ch ty) x -> a <= x < a + sizeof_afk_qe.
Proof.
  apply touches_within.
  unfold qe_stores, sizeof_afk_qe, qe_magic, qe_size, qe_channel, qe_type.
  repeat constructor; simpl; lia.
Qed.

Lemma touches_qe_copy_stores (m : mem) (a : Z) (a2 : option Z) (x : Z) :
  touches (qe_copy_stores m a a2) x ->
  exists o, a2 = Some o /\ o <= x < o + sizeof_afk_qe.
Proof.
  destruct a2 as [o|]; simpl; intros H.
  - exists o. split; [reflexivity|].
    revert H. apply touches_within. repeat constructor; cbn [fst snd].
    + lia.
    + rewrite length_load. reflexivity.
  - destruct (touches_nil _ H).
Qed.

Lemma touches_ehdr_stores (a seq x : Z) :
  touches (ehdr_stores abi a seq) x -> a <= x < a + sizeof_epic_hdr abi.
Proof.
  pose proof (ehdr_size_ok abi Habi) as Hs.
  apply touches_within. unfold ehdr_stores.
  constructor.
  { split; cbn [fst snd]; [lia | rewrite repeat_length; lia]. }
  repeat (apply List.Forall_cons;
          [apply store_field_within;
           auto using ehdr_version_in, ehdr_seq_in, ehdr_timestamp_in|]).
  apply List.Forall_nil.
Qed.

Lemma touches_eshdr_stores (a n t ecat stype x : Z) :
  touches (eshdr_stores abi a n t ecat stype) x ->
  a <= x < a + sizeof_epic_sub_hdr abi.
Proof.
  pose proof (eshdr_size_ok abi Habi) as Hs.
  apply touches_within. unfold eshdr_stores.
  constructor.
  { split; cbn [fst snd]; [lia | rewrite repeat_length; lia]. }
  repeat (apply List.Forall_cons;
          [apply store_field_within;
           auto using eshdr_length_in, eshdr_version_in, eshdr_category_in,
             eshdr_type_in, eshdr_timestamp_in, eshdr_tag_in,
             eshdr_inline_len_in|]).
  apply List.Forall_nil.
Qed.

Lemma touches_epic_stores (b w seq t ecat stype : Z) (payload : list Z)
    (x : Z) :
  let w1 := u32 (w + sizeof_epic_hdr abi) in
  let w2 := u32 (w1 + sizeof_epic_sub_hdr abi) in
  touches (epic_stores abi b w seq t ecat stype payload) x ->
  b + w <= x < b + w + sizeof_epic_hdr abi
  \/ b + w1 <= x < b + w1 + sizeof_epic_sub_hdr abi
  \/ b + w2 <= x < b + w2 + Z.of_nat (length payload).
Proof.
  intros w1 w2. unfold epic_stores. fold w1. fold w2. intros H.
  apply touches_app in H; destruct H as [H|H].
  { left. eapply touches_ehdr_stores, H. }
  apply touches_app in H; destruct H as [H|H].
  { right; left. eapply touches_eshdr_stores, H. }
  right; right.
  apply touches_cons in H; destruct H as [H|H]; [exact H|].
  destruct (touches_nil _ H).
Qed.

(** The five regions the stores of one send fall into. *)
Lemma touches_afk_send_epic_stores (ep : apple_dcp_afkep)
    (h : Z) (h2 : option Z) (w ch t etype ecat stype : Z)
    (payload : list Z) (x : Z) :
  let b := buf (txbfr ep) in
  let w1 := u32 (w + sizeof_epic_hdr abi) in
  let w2 := u32 (w1 + sizeof_epic_sub_hdr abi) in
  touches (afk_send_epic_stores abi ep h h2 w ch t etype ecat stype payload)
    x ->
  b + h <= x < b + h + sizeof_afk_qe
  \/ (exists o, h2 = Some o /\ b + o <= x < b + o + sizeof_afk_qe)
  \/ b + w <= x < b + w + sizeof_epic_hdr abi
  \/ b + w1 <= x < b + w1 + sizeof_epic_sub_hdr abi
  \/ b + w2 <= x < b + w2 + Z.of_nat (length payload).
Proof.
  intros b w1 w2. unfold afk_send_epic_stores. fold b.
  intros H.
  apply touches_app in H; destruct H as [H|H].
  { left. eapply touches_qe_stores, H. }
  apply touches_app in H; destruct H as [H|H].
  { right; left. apply touches_qe_copy_stores in H.
    destruct H as (o & Ho & Hr). destruct h2 as [o2|]; [|discriminate].
    simpl in Ho. injection Ho as <-. exists o2. split; [reflexivity | lia]. }
  right; right. eapply touches_epic_stores, H.
Qed.

End SendFootprint.

Section SendPlacement.

Variable abi : afk_abi.
Hypothesis Habi : abi_ok abi.

(** On 32-bit pointers and a payload that fits an address space, the
    placement decision is one of the three layouts, or there is none. *)
Lemma afk_send_epic_place_spec (bufsz_ rptr wptr n : Z) :
  0 <= rptr < 2 ^ 32 -> 0 <= wptr < 2 ^ 32 -> 0 <= bufsz_ < 2 ^ 32 ->
  0 <= n < 2 ^ 63 ->
  let epic := sizeof_epic_hdr abi + sizeof_epic_sub_hdr abi + n in
  let total := sizeof_afk_qe + epic in
  match afk_send_epic_place bufsz_ rptr wptr epic total with
  | Some (h, h2, w) => layout bufsz_ rptr wptr epic total h h2 w
  | None => no_layout bufsz_ rptr wptr epic total
  end.
Proof.
  intros Hr Hw Hb Hn epic total.
  pose proof (ehdr_size_ok abi Habi). pose proof (eshdr_size_ok abi Habi).
  assert (He : 0 <= epic < 2 ^ 63 + 2 ^ 17) by (unfold epic; lia).
  unfold afk_send_epic_place, no_layout.
  assert (Ht : total = sizeof_afk_qe + epic) by reflexivity.
  unfold sizeof_afk_qe in *.
  rewrite (usize_small (wptr + total)) by lia.
  rewrite (usize_small (wptr + 16)) by lia.
  rewrite (u32_small 16) by lia.
  rewrite (usize_small (16 + epic)) by lia.
  destruct (Z.ltb_spec wptr rptr).
  - destruct (Z.gtb_spec (wptr + total) rptr); [left; lia|].
    rewrite u32_small by lia. apply layout_before_rptr; lia.
  - destruct (Z.gtb_spec (wptr + 16) bufsz_); [right; lia|].
    destruct (Z.gtb_spec (wptr + total) bufsz_).
    + destruct (Z.gtb_spec 16 rptr); [right; lia|].
      destruct (Z.gtb_spec (16 + epic) rptr); [right; lia|].
      apply layout_wrapped; unfold sizeof_afk_qe; lia.
    + rewrite u32_small by lia. apply layout_before_end; lia.
Qed.

End SendPlacement.

(** C1.  On a ring whose pointers lie inside the body, a send of a frame
    no larger than the body either returns [-ENOMEM] and leaves the
    endpoint alone, or succeeds, and then every address it stores to in
    the body (both queue entries, the two EPIC headers and the payload)
    is inside the body and outside the unconsumed region between the
    read and the write pointer.  Apart from those stores only the
    write-pointer word of the header changes. *)
Theorem afk_send_epic_placement_safe
    (abi : afk_abi) (ep : apple_dcp_afkep) (ch t etype ecat stype : Z)
    (payload : list Z) :
  abi_ok abi ->
  let tx := txbfr ep in
  let rptr := afk_rb_get_rptr (memory ep) tx in
  let wptr := afk_rb_get_wptr (memory ep) tx in
  let n := Z.of_nat (length payload) in
  let epic := usize (sizeof_epic_hdr abi + sizeof_epic_sub_hdr abi + n) in
  let total := usize (sizeof_afk_qe + epic) in
  0 <= rptr < bufsz tx -> 0 <= wptr < bufsz tx -> bufsz tx < 2 ^ 32 ->
  sizeof_afk_qe + sizeof_epic_hdr abi + sizeof_epic_sub_hdr abi + n
    <= bufsz tx ->
  let r := afk_send_epic abi ep ch t etype ecat stype payload in
  match afk_send_epic_place (bufsz tx) rptr wptr epic total with
  | None => r = (- ENOMEM, ep)
  | Some (h, h2, w) =>
      let l :=
        afk_send_epic_stores abi ep h h2 w ch t etype ecat stype payload in
      fst r = 0
      /\ (forall x, touches l x ->
            buf tx <= x < buf tx + bufsz tx
            /\ ~ reserved rptr wptr (x - buf tx))
      /\ (forall x, ~ touches l x ->
            ~ (hdr tx + blksz tx * 2 <= x < hdr tx + blksz tx * 2 + 4) ->
            memory (snd r) x = memory ep x)
  end.
Proof.
  intros Habi tx rptr wptr n epic total Hr Hw Hb Hfit r.
  pose proof (ehdr_size_ok abi Habi) as Heh.
  pose proof (eshdr_size_ok abi Habi) as Hsh.
  assert (Hn0 : 0 <= n) by (unfold n; lia).
  assert (Hn : 0 <= n < 2 ^ 63) by (unfold sizeof_afk_qe in Hfit; lia).
  destruct (total_sizes abi n Habi Hn) as [E1 E2].
  pose proof (afk_send_epic_place_spec abi Habi (bufsz tx) rptr wptr n)
    as Hspec.
  cbv zeta in Hspec.
  assert (Hp : afk_send_epic_place (bufsz tx) rptr wptr epic total
               = afk_send_epic_place (bufsz tx) rptr wptr
                   (sizeof_epic_hdr abi + sizeof_epic_sub_hdr abi + n)
                   (sizeof_afk_qe
                    + (sizeof_epic_hdr abi + sizeof_epic_sub_hdr abi + n))).
  { unfold total, epic. rewrite E2, E1. f_equal. lia. }
  specialize (Hspec ltac:(lia) ltac:(lia) ltac:(lia) Hn).
  rewrite <- Hp in Hspec.
  subst r. unfold afk_send_epic. fold tx rptr wptr n epic total.
  destruct (afk_send_epic_place (bufsz tx) rptr wptr epic total)
    as [[[h h2] w]|]; [|reflexivity].
  cbv zeta. split; [reflexivity|]. split.
  - intros x Hx.
    apply (touches_afk_send_epic_stores abi Habi) in Hx. cbv zeta in Hx.
    fold tx in Hx. fold n in Hx.
    unfold reserved.
    inversion Hspec; subst; unfold sizeof_afk_qe in *;
      rewrite ?(u32_small (wptr + 16 + sizeof_epic_hdr abi)),
        ?(u32_small (16 + sizeof_epic_hdr abi)),
        ?(u32_small (wptr + 16 + sizeof_epic_hdr abi
                     + sizeof_epic_sub_hdr abi)),
        ?(u32_small (16 + sizeof_epic_hdr abi + sizeof_epic_sub_hdr abi))
        in Hx by lia;
      destruct Hx as [Hx|[(o & Ho & Hx)|[Hx|[Hx|Hx]]]];
      try discriminate;
      try (injection Ho as <-);
      (split; [lia | intros [[? ?]|[? [?|?]]]; lia]).
  - intros x Hx Hblock. cbn [snd memory afk_send set_qe_seq set_memory log_event].
    unfold afk_rb_set_wptr. rewrite store_outside.
    + apply apply_stores_untouched, Hx.
    + rewrite length_le_bytes. fold tx. lia.
Qed.

Lemma afk_send_epic_placement_safe_witness :
  let ep := Sample.ep_tx 0 0x40 in
  let payload := repeat 0 8 in
  let r := afk_send_epic asahi_abi ep 5 0 3 0x30 0xc0 payload in
  let l :=
    afk_send_epic_stores asahi_abi ep 0x40 None 0x50 5 0 3 0x30 0xc0
      payload in
  fst r = 0
  /\ (forall x, touches l x ->
        0x100c0 <= x < 0x100c0 + 0x80 /\ ~ reserved 0 0x40 (x - 0x100c0)).
Proof.
  intros ep payload r l.
  assert (H0 : 0 <= afk_rb_get_rptr (memory ep) (txbfr ep) < bufsz (txbfr ep))
    by (vm_compute; split; [discriminate | reflexivity]).
  assert (H1 : 0 <= afk_rb_get_wptr (memory ep) (txbfr ep) < bufsz (txbfr ep))
    by (vm_compute; split; [discriminate | reflexivity]).
  assert (H2 : bufsz (txbfr ep) < 2 ^ 32) by (vm_compute; reflexivity).
  assert (H3 : sizeof_afk_qe + sizeof_epic_hdr asahi_abi
               + sizeof_epic_sub_hdr asahi_abi + Z.of_nat (length payload)
               <= bufsz (txbfr ep))
    by (vm_compute; discriminate).
  pose proof (afk_send_epic_placement_safe asahi_abi ep 5 0 3 0x30 0xc0
                payload asahi_abi_ok H0 H1 H2 H3) as H.
  change (afk_send_epic_place (bufsz (txbfr ep))
            (afk_rb_get_rptr (memory ep) (txbfr ep))
            (afk_rb_get_wptr (memory ep) (txbfr ep))
            (usize (sizeof_epic_hdr asahi_abi + sizeof_epic_sub_hdr asahi_abi
                    + Z.of_nat (length payload)))
            (usize (sizeof_afk_qe
                    + usize (sizeof_epic_hdr asahi_abi
                             + sizeof_epic_sub_hdr asahi_abi
                             + Z.of_nat (length payload)))))
    with (Some (0x40, @None Z, 0x50)) in H.
  destruct H as (Hret & Hin & _). split; [exact Hret | exact Hin].
Defined.

(** ** Ring announcement *)

Lemma FIELD_GET_spec (hi lo reg : Z) :
  0 <= lo <= hi ->
  FIELD_GET (GENMASK hi lo) reg = (reg / 2 ^ lo) mod 2 ^ (hi - lo + 1).
Proof.
  intros H. unfold FIELD_GET, bf_mask. simpl.
  rewrite Z.shiftr_land, Z.shiftr_shiftl_l by lia.
  rewrite Z.sub_diag, Z.shiftl_0_r, Z.land_ones by lia.
  rewrite Z.shiftr_div_pow2 by lia. reflexivity.
Qed.

Lemma initrb_base_range (message : Z) :
  0 <= initrb_base message <= 0xffff * 64
  /\ initrb_base message mod 64 = 0.
Proof.
  unfold initrb_base, INITRB_OFFSET, BLOCK_SHIFT.
  rewrite FIELD_GET_spec by lia.
  rewrite Z.shiftl_mul_pow2 by lia.
  pose proof (Z.mod_pos_bound (message / 2 ^ 32) (2 ^ (47 - 32 + 1))
                ltac:(lia)) as Hb.
  change (47 - 32 + 1) with 16 in *.
  rewrite u32_small by lia.
  split; [lia|]. change (2 ^ 6) with 64. apply Z.mod_mul. lia.
Qed.

Lemma initrb_size_range (message : Z) :
  0 <= initrb_size message <= 0xffff * 64
  /\ initrb_size message mod 64 = 0.
Proof.
  unfold initrb_size, INITRB_SIZE, BLOCK_SHIFT.
  rewrite FIELD_GET_spec by lia.
  rewrite Z.shiftl_mul_pow2 by lia.
  pose proof (Z.mod_pos_bound (message / 2 ^ 16) (2 ^ (31 - 16 + 1))
                ltac:(lia)) as Hb.
  change (31 - 16 + 1) with 16 in *.
  rewrite u32_small by lia.
  split; [lia|]. change (2 ^ 6) with 64. apply Z.mod_mul. lia.
Qed.

Lemma le_val_range (bs : list Z) :
  List.Forall (fun b => 0 <= b < 256) bs ->
  0 <= le_val bs < 256 ^ Z.of_nat (length bs).
Proof.
  induction 1 as [|b bs Hb _ IH]; [simpl; lia|].
  cbn [le_val length]. rewrite Nat2Z.inj_succ, Z.pow_succ_r by lia. lia.
Qed.

Lemma load_le_range (m : mem) (a : Z) (n : nat) :
  bytes_ok m -> 0 <= load_le m a n < 256 ^ Z.of_nat n.
Proof.
  intros H. unfold load_le.
  pose proof (le_val_range (load m a n)) as Hr.
  rewrite length_load in Hr. apply Hr.
  unfold load. apply List.Forall_forall. intros b Hb.
  apply in_map_iff in Hb. destruct Hb as (i & <- & _). apply H.
Qed.

Lemma bytes_ok_store (m : mem) (a : Z) (bs : list Z) :
  bytes_ok m -> List.Forall (fun b => 0 <= b < 256) bs ->
  bytes_ok (store m a bs).
Proof.
  intros Hm Hbs x. unfold store. destruct (bool_decide _) eqn:E; [|apply Hm].
  apply bool_decide_eq_true in E.
  rewrite List.Forall_forall in Hbs. apply Hbs, nth_In.
  apply Nat2Z.inj_lt. lia.
Qed.

Lemma le_bytes_bytes (n : nat) (v : Z) :
  List.Forall (fun b => 0 <= b < 256) (le_bytes n v).
Proof.
  revert v; induction n as [|n IH]; intros v; simpl; constructor.
  - apply Z.mod_pos_bound. lia.
  - apply IH.
Qed.

Lemma ring_set_ring (ep : apple_dcp_afkep) (d : direction)
    (b : afk_ringbuffer) : ring (set_ring ep d b) d = b.
Proof. destruct d; reflexivity. Qed.

Lemma ring_afk_send (ep : apple_dcp_afkep) (d : direction) (message : Z) :
  ring (afk_send ep message) d = ring ep d.
Proof. destruct d; reflexivity. Qed.

(** C4, as the code has it.  A ring that is not ready yet becomes ready
    on an [INIT_TX] / [INIT_RX] message exactly when the announced
    window lies inside the staging buffer and the layout is acceptable:
    the tag is the staging buffer's, the total size exceeds the body
    size found in the ring's first header block, the header divides into
    three blocks and each block is a positive multiple of 0x40.  In every
    other case the ring stays not ready. *)
Theorem afk_init_rxtx_accepts_iff
    (ep : apple_dcp_afkep) (message : Z) (d : direction) :
  bytes_ok (memory ep) ->
  ready (ring ep d) = false ->
  ready (ring (afk_init_rxtx ep message d) d) = true
  <-> init_rxtx_window_ok ep message /\ init_rxtx_layout_ok ep message.
Proof.
  intros Hm Hnr.
  destruct (initrb_base_range message) as [Hb _].
  destruct (initrb_size_range message) as [Hs _].
  pose proof (load_le_range (memory ep) (bfr ep + initrb_base message) 4 Hm)
    as Hz.
  change (256 ^ Z.of_nat 4) with (2 ^ 32) in Hz.
  unfold init_rxtx_window_ok, init_rxtx_layout_ok, initrb_bufsz.
  unfold afk_init_rxtx.
  fold (initrb_base message) (initrb_size message) (initrb_tag message).
  cbv zeta.
  set (base := initrb_base message) in *.
  set (size := initrb_size message) in *.
  set (t := initrb_tag message) in *.
  destruct (Z.eqb_spec t (bfr_tag ep)) as [Et|Et]; cbn [negb];
    [|rewrite Hnr; split; [discriminate | tauto]].
  rewrite Hnr.
  destruct (Z.geb_spec base (bfr_size ep));
    [rewrite Hnr; split; [discriminate | lia]|].
  rewrite (u32_small (base + size)) by lia.
  destruct (Z.gtb_spec (base + size) (bfr_size ep));
    [rewrite Hnr; split; [discriminate | lia]|].
  assert (Hmem : forall b, memory (set_ring ep d b) = memory ep)
    by (intros b; destruct d; reflexivity).
  rewrite Hmem. cbn [hdr set_hdr].
  set (bufsz_ := load_le (memory ep) (bfr ep + base) 4) in *.
  destruct (Z.leb_spec size bufsz_);
    [rewrite ring_set_ring; cbn [ready set_hdr]; rewrite Hnr;
     split; [discriminate | lia]|].
  rewrite (u32_small (size - bufsz_)) by lia.
  destruct (Z.eqb_spec ((size - bufsz_) mod 3) 0) as [E3|E3]; cbn [negb];
    [|rewrite ring_set_ring; cbn [ready set_hdr]; rewrite Hnr;
      split; [discriminate | tauto]].
  change (Z.shiftl 1 BLOCK_SHIFT) with 64.
  destruct (Z.ltb_spec ((size - bufsz_) / 3) 64); cbn [orb];
    [rewrite ring_set_ring; cbn [ready set_hdr]; rewrite Hnr;
     split; [discriminate | lia]|].
  destruct (Z.eqb_spec (((size - bufsz_) / 3) mod 64) 0) as [E64|E64];
    cbn [negb];
    [|rewrite ring_set_ring; cbn [ready set_hdr]; rewrite Hnr;
      split; [discriminate | tauto]].
  split; [intros _; repeat split; try assumption; lia|].
  intros _.
  match goal with
  | |- context [if ?c then afk_send ?e ?m else _] =>
      destruct c; [rewrite ring_afk_send|]; rewrite ring_set_ring; reflexivity
  end.
Qed.

Lemma bytes_ok_apply_stores (l : stores) (m : mem) :
  bytes_ok m ->
  List.Forall (fun s => List.Forall (fun b => 0 <= b < 256) (snd s)) l ->
  bytes_ok (apply_stores m l).
Proof.
  intros Hm Hl. revert m Hm. induction Hl as [|s l Hs _ IH]; intros m Hm.
  - exact Hm.
  - rewrite apply_stores_cons. apply IH, bytes_ok_store; assumption.
Qed.

Lemma bytes_ok_mem0 : bytes_ok Sample.mem0.
Proof.
  apply bytes_ok_apply_stores.
  - intros a. lia.
  - repeat (apply List.Forall_cons; [apply le_bytes_bytes|]).
    apply List.Forall_nil.
Qed.

Lemma afk_init_rxtx_accepts_iff_witness :
  let message := 0x008a000000050007 in
  ready (ring (afk_init_rxtx Sample.ep_staged message TX) TX) = true
  <-> init_rxtx_window_ok Sample.ep_staged message
      /\ init_rxtx_layout_ok Sample.ep_staged message.
Proof.
  exact (afk_init_rxtx_accepts_iff Sample.ep_staged 0x008a000000050007 TX
           bytes_ok_mem0 eq_refl).
Defined.

(** The ring announced by that message is the TX ring of the sample
    endpoint. *)
Example afk_init_rxtx_sample :
  ring (afk_init_rxtx Sample.ep_staged 0x008a000000050007 TX) TX
  = Sample.tx_ring.
Proof. vm_compute. reflexivity. Qed.

(** The layout conditions alone do not decide acceptance: a ring whose
    layout is acceptable but whose window (offset 0xfc0, size 0x400) runs
    past the end of the 0x1000-byte staging buffer is rejected. *)
Lemma afk_init_rxtx_layout_not_enough :
  let ep :=
    set_memory Sample.ep_staged
      (store Sample.mem0 0x10fc0 (le_bytes 4 0x340)) in
  let message := 0x008a003f00100007 in
  ~ (ready (ring (afk_init_rxtx ep message TX) TX) = true
     <-> init_rxtx_layout_ok ep message).
Proof.
  intros ep message [_ H].
  assert (Hl : init_rxtx_layout_ok ep message).
  { unfold init_rxtx_layout_ok. cbv zeta.
    repeat split; vm_compute; try reflexivity; discriminate. }
  specialize (H Hl). vm_compute in H. discriminate.
Qed.

(** A message for a ring that is already ready changes nothing. *)
Lemma afk_init_rxtx_already_ready
    (ep : apple_dcp_afkep) (message : Z) (d : direction) :
  ready (ring ep d) = true -> afk_init_rxtx ep message d = ep.
Proof.
  intros H. unfold afk_init_rxtx. rewrite H.
  destruct (negb _); reflexivity.
Qed.

(** ** Sending: what the stores leave in memory *)

Lemma load_store_eq (m : mem) (a : Z) (bs : list Z) (a' : Z) (n : nat) :
  a' = a -> n = length bs -> load (store m a bs) a' n = bs.
Proof. intros -> ->. apply load_store_same. Qed.

Lemma load_slice (m : mem) (a : Z) (n : nat) (l1 l2 l3 : list Z) :
  load m a n = l1 ++ l2 ++ l3 ->
  load m (a + Z.of_nat (length l1)) (length l2) = l2.
Proof.
  intros H.
  assert (Hn : n = (length l1 + (length l2 + length l3))%nat).
  { apply (f_equal (@length Z)) in H.
    rewrite length_load, !length_app in H. exact H. }
  subst n. rewrite !load_app in H.
  apply app_inj_1 in H; [|apply length_load]. destruct H as [_ H].
  apply app_inj_1 in H; [|apply length_load]. apply H.
Qed.

(** Stores that come after a store and stay clear of it do not change
    what it wrote. *)
Lemma load_after_stores (l1 : stores) (a : Z) (bs : list Z) (l2 : stores)
    (m : mem) :
  (forall x, a <= x < a + Z.of_nat (length bs) -> ~ touches l2 x) ->
  load (apply_stores m (l1 ++ (a, bs) :: l2)) a (length bs) = bs.
Proof.
  intros H. rewrite apply_stores_app, apply_stores_cons.
  rewrite load_apply_stores_untouched by exact H.
  apply load_store_same.
Qed.

Section SendImage.

Variable abi : afk_abi.
Hypothesis Habi : abi_ok abi.

Lemma length_qe_image (epic ch ty : Z) :
  length (qe_image abi epic ch ty) = 16%nat.
Proof. unfold qe_image. rewrite !length_app, !length_le_bytes. reflexivity. Qed.

Lemma qe_stores_image (m : mem) (a epic ch ty : Z) :
  load (apply_stores m (qe_stores abi a epic ch ty)) a 16
  = qe_image abi epic ch ty.
Proof.
  unfold qe_stores, qe_image, apply_stores, store_le, qe_magic, qe_size,
    qe_channel, qe_type.
  cbn [fold_left fst snd].
  change 16%nat with (4 + (4 + (4 + 4)))%nat. rewrite !load_app.
  change (Z.of_nat 4) with 4.
  repeat f_equal.
  - rewrite !load_store_other by (rewrite length_le_bytes; lia).
    apply load_store_eq; [lia | rewrite length_le_bytes; reflexivity].
  - rewrite !load_store_other by (rewrite length_le_bytes; lia).
    apply load_store_eq; [lia | rewrite length_le_bytes; reflexivity].
  - rewrite !load_store_other by (rewrite length_le_bytes; lia).
    apply load_store_eq; [lia | rewrite length_le_bytes; reflexivity].
  - apply load_store_eq; [lia | rewrite length_le_bytes; reflexivity].
Qed.

(** Reading the words of a queue entry back. *)
Lemma qe_image_fields (m : mem) (a epic ch ty : Z) :
  load m a 16 = qe_image abi epic ch ty ->
  load_le m (a + qe_magic) 4 = QE_MAGIC_IOP abi
  /\ load_le m (a + qe_size) 4 = u32 epic
  /\ load_le m (a + qe_channel) 4 = u32 ch
  /\ load_le m (a + qe_type) 4 = u32 ty.
Proof.
  intros H. unfold qe_image in H.
  pose proof (magic_iop_u32 abi Habi) as Hmg.
  assert (U : forall v, le_val (le_bytes 4 (u32 v)) = u32 v).
  { intros v. apply le_val_le_bytes_small.
    change (256 ^ Z.of_nat 4) with (2 ^ 32). apply Z.mod_pos_bound. lia. }
  unfold load_le, qe_magic, qe_size, qe_channel, qe_type.
  repeat split.
  - pose proof (load_slice m a 16 [] _ _ H) as E.
    rewrite length_le_bytes in E. change (Z.of_nat (length [])) with 0 in E.
    rewrite E, U. apply u32_small, Hmg.
  - pose proof (load_slice m a 16 _ _ _ H) as E.
    rewrite !length_le_bytes in E. change (Z.of_nat 4) with 4 in E.
    rewrite E. apply U.
  - rewrite app_assoc in H.
    pose proof (load_slice m a 16 _ _ _ H) as E.
    rewrite length_app, !length_le_bytes in E.
    change (Z.of_nat (4 + 4)) with 8 in E. rewrite E. apply U.
  - rewrite !app_assoc in H. rewrite <- (app_nil_r (_ ++ le_bytes 4 (u32 ty))) in H.
    rewrite <- !app_assoc in H. rewrite !app_assoc in H.
    rewrite <- (app_assoc _ (le_bytes 4 (u32 ty)) []) in H.
    pose proof (load_slice m a 16 _ _ _ H) as E.
    rewrite !length_app, !length_le_bytes in E.
    change (Z.of_nat (4 + 4 + 4)) with 12 in E. rewrite E. apply U.
Qed.

End SendImage.

Section EnvelopeImage.

Variable abi : afk_abi.
Hypothesis Habi : abi_ok abi.

Lemma eshdr_stores_last (a n t ecat stype : Z) :
  exists l1,
    eshdr_stores abi a n t ecat stype
    = l1 ++ [ store_field a (eshdr_inline_len abi)
                (if ecat =? EPIC_CAT_REPLY abi
                 then u16 (usize (n - 4)) else u16 0) ].
Proof.
  exists (removelast (eshdr_stores abi a n t ecat stype)). reflexivity.
Qed.

(** What the envelope stores leave behind: the payload after the two
    headers, the inline length in the sub-header, and nothing outside the
    envelope. *)
Lemma epic_stores_image (m : mem) (b w seq t ecat stype : Z)
    (payload : list Z) :
  let n := Z.of_nat (length payload) in
  let eh := sizeof_epic_hdr abi in
  let sh := sizeof_epic_sub_hdr abi in
  0 <= w -> w + eh + sh + n < 2 ^ 32 ->
  let m' := apply_stores m (epic_stores abi b w seq t ecat stype payload) in
  load m' (b + w + eh + sh) (length payload) = payload
  /\ load_field m' (b + w + eh) (eshdr_inline_len abi)
     = (if ecat =? EPIC_CAT_REPLY abi then u16 (usize (n - 4)) else 0)
  /\ (forall x, ~ (b + w <= x < b + w + eh + sh + n) -> m' x = m x).
Proof.
  intros n eh sh Hw Hfit m'.
  pose proof (ehdr_size_ok abi Habi) as Heh.
  pose proof (eshdr_size_ok abi Habi) as Hsh.
  fold eh in Heh. fold sh in Hsh.
  assert (Hn : 0 <= n) by (unfold n; lia).
  assert (Hm' : m' = apply_stores m
                       (ehdr_stores abi (b + w) seq
                        ++ eshdr_stores abi (b + (w + eh)) n t ecat stype
                        ++ [(b + (w + eh + sh), payload)])).
  { subst m'. unfold epic_stores. fold eh sh n.
    rewrite (u32_small (w + eh)) by lia.
    rewrite (u32_small (w + eh + sh)) by lia. reflexivity. }
  split; [|split].
  - rewrite Hm', app_assoc.
    replace (b + w + eh + sh) with (b + (w + eh + sh)) by lia.
    apply load_after_stores. intros x _. apply touches_nil.
  - destruct (eshdr_stores_last (b + (w + eh)) n t ecat stype) as [l1 El].
    rewrite Hm', El, <- (app_assoc l1), app_assoc. cbn [app].
    set (v := if ecat =? EPIC_CAT_REPLY abi then u16 (usize (n - 4))
              else u16 0).
    destruct (eshdr_inline_len_in abi Habi) as [Hf0 Hf1]. fold sh in Hf1.
    pose proof (eshdr_inline_len_wide abi Habi) as Hwd.
    unfold load_field, load_le, store_field, store_le.
    replace (b + w + eh) with (b + (w + eh)) by lia.
    rewrite <- (length_le_bytes (f_width (eshdr_inline_len abi)) v) at 2.
    rewrite load_after_stores.
    + rewrite le_val_le_bytes_small.
      * subst v. destruct (ecat =? EPIC_CAT_REPLY abi); reflexivity.
      * assert (0 <= v < 2 ^ 16).
        { subst v. destruct (ecat =? EPIC_CAT_REPLY abi);
            apply Z.mod_pos_bound; lia. }
        assert (2 ^ 16 <= 256 ^ Z.of_nat (f_width (eshdr_inline_len abi))).
        { change 256 with (2 ^ 8). rewrite <- Z.pow_mul_r by lia.
          apply Z.pow_le_mono_r; lia. }
        lia.
    + intros x Hx Ht. rewrite length_le_bytes in Hx.
      apply touches_cons in Ht. destruct Ht as [Ht|Ht].
      * cbn [fst snd] in Ht. lia.
      * destruct (touches_nil _ Ht).
  - intros x Hx. subst m'. apply apply_stores_untouched. intros Ht.
    apply (touches_epic_stores abi Habi) in Ht. cbv zeta in Ht.
    fold eh sh n in Ht.
    rewrite (u32_small (w + eh)) in Ht by lia.
    rewrite (u32_small (w + eh + sh)) in Ht by lia. lia.
Qed.

End EnvelopeImage.

Section FrameImage.

Variable abi : afk_abi.
Hypothesis Habi : abi_ok abi.

(** The memory after the stores of a send, for each of the three
    layouts: the queue entry at [h], the same entry at the offset [e]
    where the frame lives ([0] when it wrapped, [h] otherwise), the
    payload behind the two EPIC headers, and the inline length. *)
Lemma afk_send_epic_image (ep : apple_dcp_afkep)
    (bufsz_ rptr wptr h : Z) (h2 : option Z) (w ch t etype ecat stype : Z)
    (payload : list Z) :
  let b := buf (txbfr ep) in
  let n := Z.of_nat (length payload) in
  let eh := sizeof_epic_hdr abi in
  let sh := sizeof_epic_sub_hdr abi in
  let epic := eh + sh + n in
  0 <= rptr < 2 ^ 32 -> 0 <= wptr -> bufsz_ < 2 ^ 32 ->
  layout bufsz_ rptr wptr epic (sizeof_afk_qe + epic) h h2 w ->
  let m' :=
    apply_stores (memory ep)
      (afk_send_epic_stores abi ep h h2 w ch t etype ecat stype payload) in
  let e := match h2 with Some o => o | None => h end in
  w = e + sizeof_afk_qe
  /\ load m' (b + h) 16 = qe_image abi epic ch etype
  /\ load m' (b + e) 16 = qe_image abi epic ch etype
  /\ load m' (b + e + sizeof_afk_qe + eh + sh) (length payload) = payload
  /\ load_field m' (b + e + sizeof_afk_qe + eh) (eshdr_inline_len abi)
     = (if ecat =? EPIC_CAT_REPLY abi then u16 (usize (n - 4)) else 0).
Proof.
  intros b n eh sh epic Hr Hw Hb Hlay m' e.
  pose proof (ehdr_size_ok abi Habi) as Heh.
  pose proof (eshdr_size_ok abi Habi) as Hsh.
  fold eh in Heh. fold sh in Hsh.
  assert (Hn0 : 0 <= n) by (unfold n; lia).
  assert (Hn : n < 2 ^ 32)
    by (inversion Hlay; subst; unfold epic, sizeof_afk_qe in *; lia).
  set (mq := apply_stores (memory ep)
               (qe_stores abi (b + h) epic ch etype)).
  set (cp := qe_copy_stores mq (b + h) (option_map (Z.add b) h2)).
  set (m1 := apply_stores mq cp).
  assert (Hm' : m' = apply_stores m1
                       (epic_stores abi b w (qe_seq ep) t ecat stype payload)).
  { subst m' m1 cp mq. unfold afk_send_epic_stores. fold b n eh sh.
    rewrite (usize_small (eh + sh + n)) by lia. fold epic.
    rewrite !apply_stores_app. reflexivity. }
  assert (Hwe : w = e + sizeof_afk_qe /\ 0 <= w
                /\ w + eh + sh + n < 2 ^ 32).
  { subst e. inversion Hlay; subst; cbv beta iota;
      unfold epic, sizeof_afk_qe in *; lia. }
  destruct Hwe as (Hwe & Hw0 & Hfit).
  destruct (epic_stores_image abi Habi m1 b w (qe_seq ep) t ecat stype
              payload Hw0 Hfit) as (Hpl & Hil & Hfr).
  fold n eh sh in Hpl, Hil, Hfr. rewrite <- Hm' in Hpl, Hil, Hfr.
  assert (Hq : load mq (b + h) 16 = qe_image abi epic ch etype)
    by apply qe_stores_image.
  split; [exact Hwe|].
  assert (Hh : load m' (b + h) 16 = qe_image abi epic ch etype).
  { rewrite <- Hq. rewrite (load_ext m1 m').
    - subst m1 cp. inversion Hlay; subst; cbn [option_map qe_copy_stores];
        [reflexivity | reflexivity |].
      rewrite apply_stores_cons. cbn [fst snd apply_stores fold_left].
      apply load_store_other. rewrite length_load.
      unfold epic, sizeof_afk_qe in *. lia.
    - intros x Hx. apply Hfr. change (Z.of_nat 16) with 16 in Hx.
      inversion Hlay; subst; unfold epic, sizeof_afk_qe in *; lia. }
  split; [exact Hh|].
  split; [|split].
  - subst e. inversion Hlay; subst; cbv beta iota; try exact Hh.
    rewrite <- Hq. rewrite (load_ext m1 m').
    + subst m1 cp. cbn [option_map qe_copy_stores].
      rewrite apply_stores_cons. cbn [fst snd apply_stores fold_left].
      apply load_store_eq; [reflexivity | rewrite length_load; reflexivity].
    + intros x Hx. apply Hfr. change (Z.of_nat 16) with 16 in Hx.
      unfold epic, sizeof_afk_qe in *. lia.
  - replace (b + e + sizeof_afk_qe + eh + sh) with (b + w + eh + sh) by lia.
    exact Hpl.
  - replace (b + e + sizeof_afk_qe + eh) with (b + w + eh) by lia.
    exact Hil.
Qed.

End FrameImage.

(** What an accepted announcement has passed and what it leaves. *)
Lemma afk_init_rxtx_accepted (ep : apple_dcp_afkep) (message : Z)
    (d : direction) :
  bytes_ok (memory ep) ->
  ready (ring ep d) = false ->
  ready (ring (afk_init_rxtx ep message d) d) = true ->
  let base := initrb_base message in
  let size := initrb_size message in
  let bufsz_ := initrb_bufsz ep message in
  ring (afk_init_rxtx ep message d) d
  = {| ready := true; hdr := bfr ep + base;
       buf := bfr ep + base + (size - bufsz_);
       blksz := (size - bufsz_) / 3; bufsz := bufsz_ |}
  /\ initrb_tag message = bfr_tag ep
  /\ base < bfr_size ep /\ base + size <= bfr_size ep
  /\ 0 <= bufsz_ < size
  /\ (size - bufsz_) mod 3 = 0
  /\ 64 <= (size - bufsz_) / 3
  /\ ((size - bufsz_) / 3) mod 64 = 0.
Proof.
  intros Hm Hnr.
  destruct (initrb_base_range message) as [Hb _].
  destruct (initrb_size_range message) as [Hs _].
  pose proof (load_le_range (memory ep) (bfr ep + initrb_base message) 4 Hm)
    as Hz.
  change (256 ^ Z.of_nat 4) with (2 ^ 32) in Hz.
  unfold initrb_bufsz.
  unfold afk_init_rxtx.
  fold (initrb_base message) (initrb_size message) (initrb_tag message).
  cbv zeta.
  set (base := initrb_base message) in *.
  set (size := initrb_size message) in *.
  set (t := initrb_tag message) in *.
  destruct (Z.eqb_spec t (bfr_tag ep)) as [Et|Et]; cbn [negb];
    [|rewrite Hnr; discriminate].
  rewrite Hnr.
  destruct (Z.geb_spec base (bfr_size ep)); [rewrite Hnr; discriminate|].
  rewrite (u32_small (base + size)) by lia.
  destruct (Z.gtb_spec (base + size) (bfr_size ep));
    [rewrite Hnr; discriminate|].
  assert (Hmem : forall b, memory (set_ring ep d b) = memory ep)
    by (intros b; destruct d; reflexivity).
  rewrite Hmem. cbn [hdr set_hdr].
  set (bufsz_ := load_le (memory ep) (bfr ep + base) 4) in *.
  destruct (Z.leb_spec size bufsz_);
    [rewrite ring_set_ring; cbn [ready set_hdr]; rewrite Hnr; discriminate|].
  rewrite (u32_small (size - bufsz_)) by lia.
  destruct (Z.eqb_spec ((size - bufsz_) mod 3) 0) as [E3|E3]; cbn [negb];
    [|rewrite ring_set_ring; cbn [ready set_hdr]; rewrite Hnr; discriminate].
  change (Z.shiftl 1 BLOCK_SHIFT) with 64.
  destruct (Z.ltb_spec ((size - bufsz_) / 3) 64); cbn [orb];
    [rewrite ring_set_ring; cbn [ready set_hdr]; rewrite Hnr; discriminate|].
  destruct (Z.eqb_spec (((size - bufsz_) / 3) mod 64) 0) as [E64|E64];
    cbn [negb];
    [|rewrite ring_set_ring; cbn [ready set_hdr]; rewrite Hnr; discriminate].
  intros _.
  split; [|repeat split; try assumption; lia].
  match goal with
  | |- context [if ?c then afk_send ?e ?m else _] =>
      destruct c; [rewrite ring_afk_send|]; rewrite ring_set_ring; reflexivity
  end.
Qed.

(** An accepted announcement leaves the ring in the shape [rb_ok]. *)
Lemma afk_init_rxtx_rb_ok
    (ep : apple_dcp_afkep) (message : Z) (d : direction) :
  bytes_ok (memory ep) ->
  ready (ring ep d) = false ->
  ready (ring (afk_init_rxtx ep message d) d) = true ->
  rb_ok (ring (afk_init_rxtx ep message d) d).
Proof.
  intros Hm Hnr Hrd.
  destruct (afk_init_rxtx_accepted ep message d Hm Hnr Hrd)
    as (Hb & Ht & Hw1 & Hw2 & Hl1 & Hl2 & Hl3 & Hl4).
  cbv zeta in Hb.
  destruct (initrb_base_range message) as [Hbr _].
  destruct (initrb_size_range message) as [Hsr Hs64].
  set (base := initrb_base message) in *.
  set (size := initrb_size message) in *.
  set (bufsz_ := initrb_bufsz ep message) in *.
  assert (H3 : size - bufsz_ = 3 * ((size - bufsz_) / 3)).
  { pose proof (Z.div_mod (size - bufsz_) 3 ltac:(lia)). lia. }
  rewrite Hb.
  constructor; cbn [ready hdr buf blksz bufsz].
  - reflexivity.
  - lia.
  - exact Hl4.
  - lia.
  - lia.
  - replace bufsz_ with (size - 3 * ((size - bufsz_) / 3)) by lia.
    rewrite Zminus_mod, Hs64.
    rewrite (Z.mul_comm 3), <- Zmult_mod_idemp_l, Hl4. reflexivity.
  - lia.
Qed.

Lemma rb_ok_tx_ring : rb_ok Sample.tx_ring.
Proof. constructor; vm_compute; try reflexivity; discriminate. Qed.

Lemma rb_ok_big_ring : rb_ok Sample.big_ring.
Proof. constructor; vm_compute; try reflexivity; discriminate. Qed.

(** ** Sending: the frame that is built *)

Section SendFrame.

Variable abi : afk_abi.
Hypothesis Habi : abi_ok abi.

(** The write pointer is published in the header, below the body: the
    body of the ring after a send is what the stores of the send left. *)
Lemma afk_send_epic_body (ep : apple_dcp_afkep) (ch t etype ecat stype : Z)
    (payload : list Z) (h : Z) (h2 : option Z) (w : Z) :
  let tx := txbfr ep in
  let n := Z.of_nat (length payload) in
  let epic := usize (sizeof_epic_hdr abi + sizeof_epic_sub_hdr abi + n) in
  rb_ok tx ->
  afk_send_epic_place (bufsz tx) (afk_rb_get_rptr (memory ep) tx)
    (afk_rb_get_wptr (memory ep) tx) epic (usize (sizeof_afk_qe + epic))
  = Some (h, h2, w) ->
  let r := afk_send_epic abi ep ch t etype ecat stype payload in
  fst r = 0
  /\ forall x, buf tx <= x ->
       memory (snd r) x
       = apply_stores (memory ep)
           (afk_send_epic_stores abi ep h h2 w ch t etype ecat stype payload)
           x.
Proof.
  intros tx n epic Hok Hp r. subst r. unfold afk_send_epic.
  fold tx n epic. rewrite Hp. cbv zeta. split; [reflexivity|].
  intros x Hx.
  cbn [snd memory afk_send set_qe_seq set_memory log_event].
  unfold afk_rb_set_wptr. apply store_outside. rewrite length_le_bytes.
  destruct Hok. fold tx. right. lia.
Qed.

(** C10, as the code has it.  In every frame that [afk_send_epic]
    builds, the inline-length member of the sub-header reads back as the
    payload length minus 4, reduced modulo 2^16, when the category is
    [EPIC_CAT_REPLY], and as 0 for every other category. *)
Theorem afk_send_epic_inline_len (ep : apple_dcp_afkep)
    (ch t etype ecat stype : Z) (payload : list Z) (h : Z) (h2 : option Z)
    (w : Z) :
  let tx := txbfr ep in
  let rptr := afk_rb_get_rptr (memory ep) tx in
  let wptr := afk_rb_get_wptr (memory ep) tx in
  let n := Z.of_nat (length payload) in
  let epic := usize (sizeof_epic_hdr abi + sizeof_epic_sub_hdr abi + n) in
  rb_ok tx -> 0 <= rptr < 2 ^ 32 -> 0 <= wptr < 2 ^ 32 -> n < 2 ^ 63 ->
  afk_send_epic_place (bufsz tx) rptr wptr epic (usize (sizeof_afk_qe + epic))
  = Some (h, h2, w) ->
  let r := afk_send_epic abi ep ch t etype ecat stype payload in
  let eshdr := buf tx + w + sizeof_epic_hdr abi in
  fst r = 0
  /\ load_field (memory (snd r)) eshdr (eshdr_inline_len abi)
     = (if ecat =? EPIC_CAT_REPLY abi then (n - 4) mod 2 ^ 16 else 0).
Proof.
  intros tx rptr wptr n epic Hok Hr Hw Hn Hp r eshdr.
  destruct (afk_send_epic_body ep ch t etype ecat stype payload h h2 w Hok Hp)
    as [Hret Hbody].
  split; [exact Hret|].
  assert (Hn' : 0 <= n < 2 ^ 63) by (unfold n; lia).
  destruct (total_sizes abi n Habi Hn') as [E1 E2].
  pose proof (afk_send_epic_place_spec abi Habi (bufsz tx) rptr wptr n Hr Hw)
    as Hspec.
  pose proof Hok as [_ Hbk _ _ Hb0 _ Hbmax].
  specialize (Hspec ltac:(lia) Hn'). cbv zeta in Hspec.
  unfold epic in Hp. rewrite E2, E1 in Hp.
  replace (sizeof_afk_qe + sizeof_epic_hdr abi + sizeof_epic_sub_hdr abi + n)
    with (sizeof_afk_qe
          + (sizeof_epic_hdr abi + sizeof_epic_sub_hdr abi + n)) in Hp by lia.
  rewrite Hp in Hspec.
  destruct (afk_send_epic_image abi Habi ep (bufsz tx) rptr wptr h h2 w ch t
              etype ecat stype payload Hr ltac:(lia) ltac:(lia) Hspec)
    as (Hwe & _ & _ & _ & Hil).
  fold n in Hil.
  replace (buf (txbfr ep) + _ + sizeof_afk_qe + sizeof_epic_hdr abi)
    with eshdr in Hil by (subst eshdr; fold tx; lia).
  assert (Hu : u16 (usize (n - 4)) = (n - 4) mod 2 ^ 16).
  { unfold u16, usize. apply Z.mod_mod_divide.
    exists (2 ^ 48). reflexivity. }
  rewrite Hu in Hil. rewrite <- Hil.
  unfold load_field, load_le. f_equal. apply load_ext. intros x Hx.
  apply Hbody.
  destruct (eshdr_inline_len_in abi Habi) as [Hf0 _].
  pose proof (ehdr_size_ok abi Habi) as Heh.
  assert (0 <= w) by (inversion Hspec; subst; unfold sizeof_afk_qe; lia).
  subst eshdr. unfold tx in *. lia.
Qed.

End SendFrame.

Lemma afk_send_epic_inline_len_witness :
  let r := afk_send_epic asahi_abi Sample.ep_idle 5 0x0102 8 0x20 0xc0
             (repeat 0 8) in
  fst r = 0
  /\ load_field (memory (snd r)) (0x100c0 + 16 + 16)
       (eshdr_inline_len asahi_abi) = 4.
Proof.
  refine (afk_send_epic_inline_len asahi_abi asahi_abi_ok Sample.ep_idle 5
            0x0102 8 0x20 0xc0 (repeat 0 8) 0 None 16 rb_ok_tx_ring
            _ _ _ _).
  - vm_compute. split; [discriminate | reflexivity].
  - vm_compute. split; [discriminate | reflexivity].
  - vm_compute. reflexivity.
  - vm_compute. reflexivity.
Defined.

(** A reply of 65540 bytes sent into an empty 128 KiB ring: the inline
    length reads back as 0, not as 65536. *)
Lemma afk_send_epic_inline_len_wraps :
  ~ (load_field
       (memory (snd (afk_send_epic asahi_abi Sample.ep_big 5 0x0102 8 0x20
                       0xc0 (repeat 0 (Z.to_nat 65540)))))
       (0x1000c0 + 16 + 16) (eshdr_inline_len asahi_abi)
     = Z.of_nat (length (repeat 0 (Z.to_nat 65540))) - 4).
Proof. intros H. vm_compute in H. discriminate. Qed.

(** A reply of 2 bytes: the subtraction wraps below zero and the member
    reads back as 0xfffe. *)
Example afk_send_epic_inline_len_short :
  load_field
    (memory (snd (afk_send_epic asahi_abi Sample.ep_idle 5 0x0102 8 0x20
                    0xc0 [1; 2])))
    (0x100c0 + 16 + 16) (eshdr_inline_len asahi_abi)
  = 0xfffe.
Proof. vm_compute. reflexivity. Qed.

Section SendWrap.

Variable abi : afk_abi.
Hypothesis Habi : abi_ok abi.

(** C3, as the code has it.  With the write pointer at or past the read
    pointer and a frame that does not fit before the end of the body,
    the send succeeds exactly when a queue entry still fits at the write
    pointer and entry plus envelope fit below the read pointer.  It then
    leaves two identical queue entries, one at the write pointer and one
    at offset 0: both carry the envelope length in their size word (so
    the entry at the write pointer overruns the end of the body, which is
    how the reader recognises it), the envelope follows the entry at
    offset 0, and at the write pointer nothing but the sixteen bytes of
    the entry is written.  In every other case the send returns
    [-ENOMEM] and changes nothing. *)
Theorem afk_send_epic_wrapped (ep : apple_dcp_afkep)
    (ch t etype ecat stype : Z) (payload : list Z) :
  let tx := txbfr ep in
  let rptr := afk_rb_get_rptr (memory ep) tx in
  let wptr := afk_rb_get_wptr (memory ep) tx in
  let n := Z.of_nat (length payload) in
  let eh := sizeof_epic_hdr abi in
  let sh := sizeof_epic_sub_hdr abi in
  let epic := eh + sh + n in
  rb_ok tx -> 0 <= rptr <= wptr -> wptr < 2 ^ 32 -> n < 2 ^ 63 ->
  bufsz tx < wptr + sizeof_afk_qe + epic ->
  let r := afk_send_epic abi ep ch t etype ecat stype payload in
  let m' := memory (snd r) in
  (wptr + sizeof_afk_qe <= bufsz tx /\ sizeof_afk_qe + epic <= rptr ->
   fst r = 0
   /\ load m' (buf tx + wptr) 16 = qe_image abi epic ch etype
   /\ load m' (buf tx) 16 = qe_image abi epic ch etype
   /\ load_le m' (buf tx + wptr + qe_size) 4 = epic
   /\ bufsz tx < wptr + sizeof_afk_qe + load_le m' (buf tx + wptr + qe_size) 4
   /\ load m' (buf tx + sizeof_afk_qe + eh + sh) (length payload) = payload
   /\ (forall x,
         touches
           (afk_send_epic_stores abi ep wptr (Some 0) sizeof_afk_qe ch t
              etype ecat stype payload) x ->
         buf tx + wptr <= x < buf tx + wptr + sizeof_afk_qe
         \/ buf tx <= x < buf tx + sizeof_afk_qe + epic))
  /\ (~ (wptr + sizeof_afk_qe <= bufsz tx /\ sizeof_afk_qe + epic <= rptr) ->
      r = (- ENOMEM, ep)).
Proof.
  intros tx rptr wptr n eh sh epic Hok Hrw Hw Hn Hover r m'.
  pose proof (ehdr_size_ok abi Habi) as Heh.
  pose proof (eshdr_size_ok abi Habi) as Hsh.
  fold eh in Heh. fold sh in Hsh.
  assert (Hn' : 0 <= n < 2 ^ 63) by (unfold n; lia).
  destruct (total_sizes abi n Habi Hn') as [E1 E2]. fold eh sh in E1, E2.
  pose proof Hok as [_ Hbk _ _ Hb0 _ Hbmax]. fold tx in Hbk, Hb0, Hbmax.
  pose proof (afk_send_epic_place_spec abi Habi (bufsz tx) rptr wptr n
                ltac:(lia) ltac:(lia) ltac:(lia) Hn') as Hspec.
  cbv zeta in Hspec. fold eh sh epic in Hspec.
  assert (Hp : afk_send_epic_place (bufsz tx) rptr wptr
                 (usize (eh + sh + n))
                 (usize (sizeof_afk_qe + usize (eh + sh + n)))
               = afk_send_epic_place (bufsz tx) rptr wptr epic
                   (sizeof_afk_qe + epic)).
  { rewrite E2, E1. unfold epic. f_equal. lia. }
  split.
  - intros [Hq Hbelow].
    destruct (afk_send_epic_place (bufsz tx) rptr wptr epic
                (sizeof_afk_qe + epic)) as [[[h h2] w]|] eqn:Epl.
    2:{ exfalso. unfold no_layout, sizeof_afk_qe in *. lia. }
    assert (Hwr : h = wptr /\ h2 = Some 0 /\ w = sizeof_afk_qe).
    { inversion Hspec; subst; unfold sizeof_afk_qe in *;
        try lia; repeat split; reflexivity. }
    destruct Hwr as (-> & -> & ->).
    destruct (afk_send_epic_body abi ep ch t etype ecat stype payload wptr
                (Some 0) sizeof_afk_qe Hok) as [Hret Hbody].
    { fold tx n eh sh rptr wptr. exact Hp. }
    fold tx in Hbody. fold r in Hret, Hbody. fold m' in Hbody.
    destruct (afk_send_epic_image abi Habi ep (bufsz tx) rptr wptr wptr
                (Some 0) sizeof_afk_qe ch t etype ecat stype payload
                ltac:(lia) ltac:(lia) ltac:(lia) Hspec)
      as (_ & Hh & He & Hpl & _).
    fold tx n eh sh epic in Hh, He, Hpl.
    set (ms := apply_stores (memory ep)
                 (afk_send_epic_stores abi ep wptr (Some 0) sizeof_afk_qe ch
                    t etype ecat stype payload)) in *.
    assert (Hld : forall a k, buf tx <= a -> load m' a k = load ms a k).
    { intros a k Ha. apply load_ext. intros x Hx. apply Hbody. lia. }
    rewrite Z.add_0_r in He, Hpl.
    assert (Hsz : load_le m' (buf tx + wptr + qe_size) 4 = epic).
    { rewrite <- (Hld (buf tx + wptr)) in Hh by lia.
      destruct (qe_image_fields abi Habi m' (buf tx + wptr) epic ch etype Hh)
        as (_ & Hs & _).
      rewrite Hs. apply u32_small. unfold sizeof_afk_qe in *. lia. }
    repeat split.
    + exact Hret.
    + rewrite Hld by lia. exact Hh.
    + rewrite Hld by lia. exact He.
    + exact Hsz.
    + rewrite Hsz. lia.
    + rewrite Hld by (unfold sizeof_afk_qe; lia). exact Hpl.
    + intros x Hx.
      apply (touches_afk_send_epic_stores abi Habi) in Hx. cbv zeta in Hx.
      fold tx n eh sh in Hx. unfold sizeof_afk_qe in *.
      rewrite (u32_small (16 + eh)), (u32_small (16 + eh + sh)) in Hx by lia.
      destruct Hx as [Hx|[(o & Ho & Hx)|[Hx|[Hx|Hx]]]];
        try (injection Ho as <-); unfold epic; lia.
  - intros Hno. subst r. unfold afk_send_epic.
    fold tx n eh sh rptr wptr. rewrite Hp.
    destruct (afk_send_epic_place (bufsz tx) rptr wptr epic
                (sizeof_afk_qe + epic)) as [[[h h2] w]|]; [|reflexivity].
    exfalso. apply Hno.
    inversion Hspec; subst; unfold sizeof_afk_qe in *; lia.
Qed.

End SendWrap.

Lemma afk_send_epic_wrapped_witness :
  let ep := Sample.ep_big_tx 0x100 0x1ffc0 in
  let r := afk_send_epic asahi_abi ep 5 0x0102 3 0x30 0xc0 (repeat 0 40) in
  fst r = 0
  /\ load (memory (snd r)) (0x1000c0 + 0x1ffc0) 16
     = load (memory (snd r)) 0x1000c0 16
  /\ load_le (memory (snd r)) (0x1000c0 + 0x1ffc0 + qe_size) 4 = 80.
Proof.
  intros ep r.
  assert (H1 : 0 <= afk_rb_get_rptr (memory ep) (txbfr ep)
               <= afk_rb_get_wptr (memory ep) (txbfr ep))
    by (vm_compute; split; discriminate).
  assert (H2 : afk_rb_get_wptr (memory ep) (txbfr ep) < 2 ^ 32)
    by (vm_compute; reflexivity).
  assert (H3 : Z.of_nat (length (repeat 0 40)) < 2 ^ 63)
    by (vm_compute; reflexivity).
  assert (H4 : bufsz (txbfr ep)
               < afk_rb_get_wptr (memory ep) (txbfr ep) + sizeof_afk_qe
                 + (sizeof_epic_hdr asahi_abi + sizeof_epic_sub_hdr asahi_abi
                    + Z.of_nat (length (repeat 0 40))))
    by (vm_compute; reflexivity).
  assert (H5 : afk_rb_get_wptr (memory ep) (txbfr ep) + sizeof_afk_qe
               <= bufsz (txbfr ep)
               /\ sizeof_afk_qe
                  + (sizeof_epic_hdr asahi_abi + sizeof_epic_sub_hdr asahi_abi
                     + Z.of_nat (length (repeat 0 40)))
                  <= afk_rb_get_rptr (memory ep) (txbfr ep))
    by (vm_compute; split; discriminate).
  destruct (proj1 (afk_send_epic_wrapped asahi_abi asahi_abi_ok ep 5 0x0102 3
                     0x30 0xc0 (repeat 0 40) rb_ok_big_ring H1 H2 H3 H4) H5)
    as (Hret & Hs & He & Hsz & _).
  split; [exact Hret|]. split; [|exact Hsz].
  change (afk_rb_get_wptr (memory ep) (txbfr ep)) with 0x1ffc0 in Hs.
  change (buf (txbfr ep)) with 0x1000c0 in Hs, He.
  fold r in Hs, He. rewrite Hs, He. reflexivity.
Defined.

(** In that state 0x40 bytes remain between the write pointer and the
    end of the body, 0x30 of them after a queue entry; the size word of
    the entry at the write pointer is neither: it is 80, the length of the
    envelope, as in the entry at offset 0. *)
Lemma afk_send_epic_sentinel_size_is_envelope :
  let ep := Sample.ep_big_tx 0x100 0x1ffc0 in
  let r := afk_send_epic asahi_abi ep 5 0x0102 3 0x30 0xc0 (repeat 0 40) in
  let size := load_le (memory (snd r)) (0x1000c0 + 0x1ffc0 + qe_size) 4 in
  let remaining := bufsz (txbfr ep) - afk_rb_get_wptr (memory ep) (txbfr ep) in
  ~ (size = remaining \/ size = remaining - sizeof_afk_qe).
Proof.
  intros ep r size remaining [H|H]; vm_compute in H; discriminate.
Qed.

(** ** Receiving *)

Section Receive.

Variable abi : afk_abi.
Hypothesis Habi : abi_ok abi.

Lemma qe_magic_ok_iop : qe_magic_ok abi (QE_MAGIC_IOP abi) = true.
Proof. unfold qe_magic_ok. rewrite Z.eqb_refl. reflexivity. Qed.

(** A queue entry that lies whole in front of the end of the body is
    decoded where the read pointer stands. *)
Lemma afk_recv_qe_plain (ep : apple_dcp_afkep) (size ch ty : Z) :
  let rx := rxbfr ep in
  let rptr := afk_rb_get_rptr (memory ep) rx in
  rb_ok rx ->
  afk_rb_get_wptr (memory ep) rx <> rptr ->
  0 <= rptr -> 0 <= size -> rptr + sizeof_afk_qe + size <= bufsz rx ->
  0 <= ch < 2 ^ 32 -> 0 <= ty < 2 ^ 32 ->
  load (memory ep) (buf rx + rptr) 16 = qe_image abi size ch ty ->
  exists ep',
    afk_recv_qe abi ep
    = (ep', Some {| fr_channel := ch; fr_type := ty;
                    fr_data := buf rx + rptr + qe_data; fr_size := size |})
    /\ (forall x, buf rx <= x -> memory ep' x = memory ep x).
Proof.
  intros rx rptr Hok Hne Hr Hs Hfit Hch Hty Himg.
  pose proof Hok as [Hrd Hbk _ Hbuf Hb0 _ Hbmax].
  fold rx in Hrd, Hbk, Hbuf, Hb0, Hbmax.
  destruct (qe_image_fields abi Habi _ _ _ _ _ Himg) as (Hmg & Hsz & Hc & Ht).
  rewrite (u32_small size) in Hsz by (unfold sizeof_afk_qe in *; lia).
  rewrite (u32_small ch) in Hc by lia.
  rewrite (u32_small ty) in Ht by lia.
  unfold afk_recv_qe. fold rx. rewrite Hrd. cbn [negb]. fold rptr.
  destruct (Z.eqb_spec rptr (afk_rb_get_wptr (memory ep) rx)) as [E|_];
    [congruence|].
  unfold sizeof_afk_qe in *.
  rewrite (usize_small (bufsz rx - 16)) by lia.
  destruct (Z.gtb_spec rptr (bufsz rx - 16)); [lia|].
  rewrite Hmg, Hsz, qe_magic_ok_iop. cbn [negb].
  rewrite (u32_small (rptr + size)) by lia.
  rewrite (usize_small (rptr + size + 16)) by lia.
  destruct (Z.gtb_spec (rptr + size + 16) (bufsz rx)); [lia|].
  cbv iota. rewrite Hmg, Hsz, Hc, Ht, qe_magic_ok_iop. cbn [andb negb].
  rewrite (u32_small (rptr + size)) by lia.
  rewrite (usize_small (rptr + size + 16)) by lia.
  destruct (Z.gtb_spec (rptr + size + 16) (bufsz rx)); [lia|].
  eexists. split; [reflexivity|].
  intros x Hx. cbn [memory set_memory]. unfold afk_rb_set_rptr.
  apply store_outside. rewrite length_le_bytes. right. lia.
Qed.

(** A queue entry at the read pointer that overruns the end of the body
    sends the reader to offset 0, where the entry is decoded. *)
Lemma afk_recv_qe_wrapped (ep : apple_dcp_afkep) (size ch ty : Z) :
  let rx := rxbfr ep in
  let rptr := afk_rb_get_rptr (memory ep) rx in
  rb_ok rx ->
  afk_rb_get_wptr (memory ep) rx <> rptr ->
  0 <= rptr -> 0 <= size -> rptr + sizeof_afk_qe <= bufsz rx ->
  bufsz rx < rptr + sizeof_afk_qe + size ->
  sizeof_afk_qe + size <= bufsz rx ->
  0 <= ch < 2 ^ 32 -> 0 <= ty < 2 ^ 32 ->
  load (memory ep) (buf rx + rptr) 16 = qe_image abi size ch ty ->
  load (memory ep) (buf rx) 16 = qe_image abi size ch ty ->
  exists ep',
    afk_recv_qe abi ep
    = (ep', Some {| fr_channel := ch; fr_type := ty;
                    fr_data := buf rx + 0 + qe_data; fr_size := size |})
    /\ (forall x, buf rx <= x -> memory ep' x = memory ep x).
Proof.
  intros rx rptr Hok Hne Hr Hs Hq Hover Hfit Hch Hty Himg Himg0.
  pose proof Hok as [Hrd Hbk _ Hbuf Hb0 _ Hbmax].
  fold rx in Hrd, Hbk, Hbuf, Hb0, Hbmax.
  destruct (qe_image_fields abi Habi _ _ _ _ _ Himg) as (Hmg & Hsz & _).
  rewrite <- (Z.add_0_r (buf rx)) in Himg0.
  destruct (qe_image_fields abi Habi _ _ _ _ _ Himg0)
    as (Hmg0 & Hsz0 & Hc0 & Ht0).
  unfold sizeof_afk_qe in *.
  rewrite (u32_small size) in Hsz, Hsz0 by lia.
  rewrite (u32_small ch) in Hc0 by lia.
  rewrite (u32_small ty) in Ht0 by lia.
  unfold afk_recv_qe. fold rx. rewrite Hrd. cbn [negb]. fold rptr.
  destruct (Z.eqb_spec rptr (afk_rb_get_wptr (memory ep) rx)) as [E|_];
    [congruence|].
  unfold sizeof_afk_qe in *.
  rewrite (usize_small (bufsz rx - 16)) by lia.
  destruct (Z.gtb_spec rptr (bufsz rx - 16)); [lia|].
  rewrite Hmg, Hsz, qe_magic_ok_iop. cbn [negb].
  rewrite (u32_small (rptr + size)) by lia.
  rewrite (usize_small (rptr + size + 16)) by lia.
  destruct (Z.gtb_spec (rptr + size + 16) (bufsz rx)); [|lia].
  cbv iota. rewrite Hmg0, Hsz0, qe_magic_ok_iop. cbn [negb andb].
  rewrite (u32_small (0 + size)) by lia.
  rewrite (usize_small (0 + size + 16)) by lia.
  destruct (Z.gtb_spec (0 + size + 16) (bufsz rx)); [lia|].
  cbn [memory set_memory].
  assert (Hbody : forall a, buf rx <= a ->
            load_le (afk_rb_set_rptr (memory ep) rx 0) a 4
            = load_le (memory ep) a 4).
  { intros a Ha. unfold load_le. f_equal. apply load_ext. intros x Hx.
    unfold afk_rb_set_rptr. apply store_outside. rewrite length_le_bytes.
    right. lia. }
  rewrite !Hbody by (unfold qe_channel, qe_type; lia).
  rewrite Hc0, Ht0.
  eexists. split; [reflexivity|].
  intros x Hx. cbn [memory set_memory]. unfold afk_rb_set_rptr.
  rewrite !store_outside; [reflexivity | |];
    rewrite length_le_bytes; right; lia.
Qed.

(** [afk_recv] is its three tests, of the ring and of the pointers,
    in front of the decoding at the read pointer. *)
Lemma afk_recv_qe_at (ep : apple_dcp_afkep) :
  let rx := rxbfr ep in
  let rptr := afk_rb_get_rptr (memory ep) rx in
  afk_recv_qe abi ep
  = if negb (ready rx) then (ep, None)
    else if rptr =? afk_rb_get_wptr (memory ep) rx then (ep, None)
    else if rptr >? usize (bufsz rx - sizeof_afk_qe) then (ep, None)
    else afk_recv_at abi ep rptr.
Proof. reflexivity. Qed.

(** The decoding of a queue entry that lies whole in front of the end of
    the body, whatever the pointers of the ring say. *)
Lemma afk_recv_at_plain (ep : apple_dcp_afkep) (off size ch ty : Z) :
  let rx := rxbfr ep in
  rb_ok rx ->
  0 <= off -> 0 <= size -> off + sizeof_afk_qe + size <= bufsz rx ->
  0 <= ch < 2 ^ 32 -> 0 <= ty < 2 ^ 32 ->
  load (memory ep) (buf rx + off) 16 = qe_image abi size ch ty ->
  exists ep',
    afk_recv_at abi ep off
    = (ep', Some {| fr_channel := ch; fr_type := ty;
                    fr_data := buf rx + off + qe_data; fr_size := size |})
    /\ (forall x, buf rx <= x -> memory ep' x = memory ep x).
Proof.
  intros rx Hok Hr Hs Hfit Hch Hty Himg.
  pose proof Hok as [Hrd Hbk _ Hbuf Hb0 _ Hbmax].
  fold rx in Hrd, Hbk, Hbuf, Hb0, Hbmax.
  destruct (qe_image_fields abi Habi _ _ _ _ _ Himg) as (Hmg & Hsz & Hc & Ht).
  unfold sizeof_afk_qe in *.
  rewrite (u32_small size) in Hsz by lia.
  rewrite (u32_small ch) in Hc by lia.
  rewrite (u32_small ty) in Ht by lia.
  unfold afk_recv_at. fold rx. cbv zeta.
  rewrite Hmg, Hsz, qe_magic_ok_iop. cbn [negb].
  unfold sizeof_afk_qe.
  rewrite (u32_small (off + size)) by lia.
  rewrite (usize_small (off + size + 16)) by lia.
  destruct (Z.gtb_spec (off + size + 16) (bufsz rx)); [lia|].
  cbv iota. rewrite Hmg, Hsz, Hc, Ht, qe_magic_ok_iop. cbn [andb negb].
  rewrite (u32_small (off + size)) by lia.
  rewrite (usize_small (off + size + 16)) by lia.
  destruct (Z.gtb_spec (off + size + 16) (bufsz rx)); [lia|].
  eexists. split; [reflexivity|].
  intros x Hx. cbn [memory set_memory]. unfold afk_rb_set_rptr.
  apply store_outside. rewrite length_le_bytes. right. lia.
Qed.

(** The decoding of a queue entry that overruns the end of the body: it
    is taken for the marker of a wrap-around, and the entry at offset 0
    is decoded. *)
Lemma afk_recv_at_wrapped (ep : apple_dcp_afkep) (off size ch ty : Z) :
  let rx := rxbfr ep in
  rb_ok rx ->
  0 <= off -> 0 <= size -> off + sizeof_afk_qe <= bufsz rx ->
  bufsz rx < off + sizeof_afk_qe + size ->
  sizeof_afk_qe + size <= bufsz rx ->
  0 <= ch < 2 ^ 32 -> 0 <= ty < 2 ^ 32 ->
  load (memory ep) (buf rx + off) 16 = qe_image abi size ch ty ->
  load (memory ep) (buf rx) 16 = qe_image abi size ch ty ->
  exists ep',
    afk_recv_at abi ep off
    = (ep', Some {| fr_channel := ch; fr_type := ty;
                    fr_data := buf rx + 0 + qe_data; fr_size := size |})
    /\ (forall x, buf rx <= x -> memory ep' x = memory ep x).
Proof.
  intros rx Hok Hr Hs Hq Hover Hfit Hch Hty Himg Himg0.
  pose proof Hok as [Hrd Hbk _ Hbuf Hb0 _ Hbmax].
  fold rx in Hrd, Hbk, Hbuf, Hb0, Hbmax.
  destruct (qe_image_fields abi Habi _ _ _ _ _ Himg) as (Hmg & Hsz & _).
  rewrite <- (Z.add_0_r (buf rx)) in Himg0.
  destruct (qe_image_fields abi Habi _ _ _ _ _ Himg0)
    as (Hmg0 & Hsz0 & Hc0 & Ht0).
  unfold sizeof_afk_qe in *.
  rewrite (u32_small size) in Hsz, Hsz0 by lia.
  rewrite (u32_small ch) in Hc0 by lia.
  rewrite (u32_small ty) in Ht0 by lia.
  unfold afk_recv_at. fold rx. cbv zeta.
  rewrite Hmg, Hsz, qe_magic_ok_iop. cbn [negb].
  unfold sizeof_afk_qe.
  rewrite (u32_small (off + size)) by lia.
  rewrite (usize_small (off + size + 16)) by lia.
  destruct (Z.gtb_spec (off + size + 16) (bufsz rx)); [|lia].
  cbv iota. rewrite Hmg0, Hsz0, qe_magic_ok_iop. cbn [negb andb].
  rewrite (u32_small (0 + size)) by lia.
  rewrite (usize_small (0 + size + 16)) by lia.
  destruct (Z.gtb_spec (0 + size + 16) (bufsz rx)); [lia|].
  cbn [memory set_memory].
  assert (Hbody : forall a, buf rx <= a ->
            load_le (afk_rb_set_rptr (memory ep) rx 0) a 4
            = load_le (memory ep) a 4).
  { intros a Ha. unfold load_le. f_equal. apply load_ext. intros x Hx.
    unfold afk_rb_set_rptr. apply store_outside. rewrite length_le_bytes.
    right. lia. }
  rewrite !Hbody by (unfold qe_channel, qe_type; lia).
  rewrite Hc0, Ht0.
  eexists. split; [reflexivity|].
  intros x Hx. cbn [memory set_memory]. unfold afk_rb_set_rptr.
  rewrite !store_outside; [reflexivity | |];
    rewrite length_le_bytes; right; lia.
Qed.

End Receive.

Section RoundTrip.

Variable abi : afk_abi.
Hypothesis Habi : abi_ok abi.

Lemma txbfr_afk_send_epic (ep : apple_dcp_afkep) (ch t etype ecat stype : Z)
    (payload : list Z) :
  txbfr (snd (afk_send_epic abi ep ch t etype ecat stype payload)) = txbfr ep.
Proof.
  unfold afk_send_epic.
  destruct (afk_send_epic_place _ _ _ _ _) as [[[h h2] w]|]; reflexivity.
Qed.

(** C8.  For every channel, message type and payload that fit in the
    ring, a frame sent with success by [afk_send_epic] and decoded by
    the receive path from the offset where its entry was written comes
    back with the channel, the message type and the payload bytes that
    were sent: the queue entry carries the channel and the type, and
    the payload lies behind the two EPIC headers of the frame. *)
Theorem afk_send_recv_roundtrip (ep : apple_dcp_afkep)
    (ch t etype ecat stype : Z) (payload : list Z) :
  let tx := txbfr ep in
  let rptr := afk_rb_get_rptr (memory ep) tx in
  let wptr := afk_rb_get_wptr (memory ep) tx in
  let n := Z.of_nat (length payload) in
  rb_ok tx -> 0 <= rptr < bufsz tx -> 0 <= wptr < bufsz tx ->
  0 <= ch < 2 ^ 32 -> 0 <= etype < 2 ^ 32 ->
  sizeof_afk_qe + sizeof_epic_hdr abi + sizeof_epic_sub_hdr abi + n
    <= bufsz tx ->
  let r := afk_send_epic abi ep ch t etype ecat stype payload in
  fst r = 0 ->
  exists ep' f p,
    afk_recv_at abi (loopback (snd r) wptr) wptr = (ep', Some f)
    /\ fr_channel f = ch
    /\ fr_type f = etype
    /\ epic_payload abi (fr_data f) (fr_size f) = Some (p, n)
    /\ load (memory ep') p (length payload) = payload.
Proof.
  intros tx rptr wptr n Hok Hr Hw Hch Hty Hfit r Hret.
  set (rx_ep := loopback (snd r) wptr).
  pose proof (ehdr_size_ok abi Habi) as Heh.
  pose proof (eshdr_size_ok abi Habi) as Hsh.
  set (eh := sizeof_epic_hdr abi) in *.
  set (sh := sizeof_epic_sub_hdr abi) in *.
  set (epic := eh + sh + n).
  assert (Hn0 : 0 <= n) by (unfold n; lia).
  pose proof Hok as [Hrd Hbk _ Hbuf Hb0 _ Hbmax].
  fold tx in Hrd, Hbk, Hbuf, Hb0, Hbmax.
  unfold sizeof_afk_qe in Hfit.
  assert (Hn' : 0 <= n < 2 ^ 63) by lia.
  destruct (total_sizes abi n Habi Hn') as [E1 E2]. fold eh sh in E1, E2.
  pose proof (afk_send_epic_place_spec abi Habi (bufsz tx) rptr wptr n
                ltac:(lia) ltac:(lia) ltac:(lia) Hn') as Hspec.
  cbv zeta in Hspec. fold eh sh epic in Hspec.
  destruct (afk_send_epic_place (bufsz tx) rptr wptr epic
              (sizeof_afk_qe + epic)) as [[[h h2] w]|] eqn:Epl.
  2:{ exfalso. subst r. unfold afk_send_epic in Hret.
      fold tx n eh sh rptr wptr in Hret. rewrite E2, E1 in Hret.
      replace (sizeof_afk_qe + eh + sh + n) with (sizeof_afk_qe + epic)
        in Hret by (unfold epic; lia).
      fold epic in Hret. rewrite Epl in Hret. discriminate Hret. }
  assert (Hp : afk_send_epic_place (bufsz tx) rptr wptr
                 (usize (eh + sh + n))
                 (usize (sizeof_afk_qe + usize (eh + sh + n)))
               = Some (h, h2, w)).
  { rewrite E2, E1, <- Epl. unfold epic. f_equal. lia. }
  destruct (afk_send_epic_body abi ep ch t etype ecat stype payload h h2 w
              Hok Hp) as [_ Hbody].
  fold tx r in Hbody.
  destruct (afk_send_epic_image abi Habi ep (bufsz tx) rptr wptr h h2 w ch t
              etype ecat stype payload ltac:(lia) ltac:(lia) ltac:(lia)
              Hspec) as (Hwe & Hh & He & Hpl & _).
  fold tx n eh sh epic in Hh, He, Hpl.
  set (ms := apply_stores (memory ep)
               (afk_send_epic_stores abi ep h h2 w ch t etype ecat stype
                  payload)) in *.
  assert (Hrx : rxbfr rx_ep = tx)
    by (subst rx_ep r; unfold loopback; cbn [rxbfr set_rxbfr];
        apply txbfr_afk_send_epic).
  assert (Hmem : memory rx_ep = afk_rb_set_rptr (memory (snd r)) tx wptr).
  { subst rx_ep. unfold loopback. cbn [memory set_rxbfr set_memory].
    subst r. rewrite txbfr_afk_send_epic. reflexivity. }
  assert (Hld : forall a k, buf tx <= a -> load (memory rx_ep) a k = load ms a k).
  { intros a k Ha. apply load_ext. intros x Hx. rewrite Hmem.
    unfold afk_rb_set_rptr. rewrite store_outside.
    - apply Hbody. lia.
    - rewrite length_le_bytes. right. lia. }
  assert (Hhw : h = wptr) by (inversion Hspec; reflexivity).
  subst h.
  assert (Hsize : forall o,
            0 <= o ->
            epic_payload abi (buf tx + o + qe_data) epic
            = Some (buf tx + o + sizeof_afk_qe + eh + sh, n)).
  { intros o Ho. unfold epic_payload. fold eh sh.
    rewrite (usize_small (eh + sh)) by lia.
    destruct (Z.ltb_spec epic (eh + sh)); [unfold epic in *; lia|].
    replace (usize (epic - eh - sh)) with n
      by (rewrite usize_small; unfold epic; lia).
    reflexivity. }
  assert (Hplain :
            wptr + sizeof_afk_qe + epic <= bufsz tx ->
            load ms (buf tx + wptr) 16 = qe_image abi epic ch etype ->
            load ms (buf tx + wptr + sizeof_afk_qe + eh + sh)
              (length payload) = payload ->
            exists ep' f p,
              afk_recv_at abi rx_ep wptr = (ep', Some f)
              /\ fr_channel f = ch
              /\ fr_type f = etype
              /\ epic_payload abi (fr_data f) (fr_size f) = Some (p, n)
              /\ load (memory ep') p (length payload) = payload).
  { intros Hin Himg Hpay.
    pose proof (afk_recv_at_plain abi Habi rx_ep wptr epic ch etype) as L.
    cbv zeta in L. rewrite Hrx in L. rewrite Hld in L by lia.
    destruct (L Hok ltac:(lia) ltac:(unfold epic; lia) Hin Hch Hty Himg)
      as (ep' & Hrecv & Hsame).
    exists ep', {| fr_channel := ch; fr_type := etype;
                   fr_data := buf tx + wptr + qe_data; fr_size := epic |},
      (buf tx + wptr + sizeof_afk_qe + eh + sh).
    cbn [fr_channel fr_type fr_data fr_size].
    split; [exact Hrecv|]. split; [reflexivity|]. split; [reflexivity|].
    split; [apply Hsize; lia|].
    rewrite (load_ext (memory rx_ep) (memory ep')).
    - rewrite Hld by (unfold sizeof_afk_qe; lia). exact Hpay.
    - intros x Hx. apply Hsame. unfold sizeof_afk_qe in *. lia. }
  inversion Hspec; subst.
  - apply Hplain; [unfold epic, sizeof_afk_qe in *; lia | exact Hh
                   | exact Hpl].
  - apply Hplain; [unfold epic, sizeof_afk_qe in *; lia | exact Hh
                   | exact Hpl].
  - pose proof (afk_recv_at_wrapped abi Habi rx_ep wptr epic ch etype) as L.
    cbv zeta in L. rewrite Hrx in L.
    rewrite !Hld in L by lia.
    rewrite Z.add_0_r in He.
    destruct (L Hok ltac:(lia) ltac:(unfold epic; lia)
                ltac:(unfold sizeof_afk_qe in *; lia)
                ltac:(unfold epic, sizeof_afk_qe in *; lia)
                ltac:(unfold epic, sizeof_afk_qe in *; lia) Hch Hty Hh He)
      as (ep' & Hrecv & Hsame).
    exists ep', {| fr_channel := ch; fr_type := etype;
                   fr_data := buf tx + 0 + qe_data; fr_size := epic |},
      (buf tx + 0 + sizeof_afk_qe + eh + sh).
    cbn [fr_channel fr_type fr_data fr_size].
    split; [exact Hrecv|]. split; [reflexivity|]. split; [reflexivity|].
    split; [apply Hsize; lia|].
    rewrite (load_ext (memory rx_ep) (memory ep')).
    + rewrite Hld by (unfold sizeof_afk_qe; lia). exact Hpl.
    + intros x Hx. apply Hsame. unfold sizeof_afk_qe in *. lia.
Qed.

(** X28: a frame that fits in the ring and is sent with success is
    delivered by [afk_recv], run on the same ring with the read pointer
    at the offset where the entry was written, with the channel, the
    message type and the payload bytes that were sent, provided the
    write pointer the send published differs from that offset. *)
Theorem afk_send_recv_loopback (ep : apple_dcp_afkep)
    (ch t etype ecat stype : Z) (payload : list Z) :
  let tx := txbfr ep in
  let rptr := afk_rb_get_rptr (memory ep) tx in
  let wptr := afk_rb_get_wptr (memory ep) tx in
  let n := Z.of_nat (length payload) in
  rb_ok tx -> 0 <= rptr < bufsz tx -> 0 <= wptr < bufsz tx ->
  0 <= ch < 2 ^ 32 -> 0 <= etype < 2 ^ 32 ->
  sizeof_afk_qe + sizeof_epic_hdr abi + sizeof_epic_sub_hdr abi + n
    <= bufsz tx ->
  let r := afk_send_epic abi ep ch t etype ecat stype payload in
  fst r = 0 ->
  let rx_ep := loopback (snd r) wptr in
  afk_rb_get_wptr (memory rx_ep) (rxbfr rx_ep) <> wptr ->
  exists ep' f p,
    afk_recv_qe abi rx_ep = (ep', Some f)
    /\ fr_channel f = ch
    /\ fr_type f = etype
    /\ epic_payload abi (fr_data f) (fr_size f) = Some (p, n)
    /\ load (memory ep') p (length payload) = payload.
Proof.
  intros tx rptr wptr n Hok Hr Hw Hch Hty Hfit r Hret rx_ep Hne.
  pose proof (ehdr_size_ok abi Habi) as Heh.
  pose proof (eshdr_size_ok abi Habi) as Hsh.
  set (eh := sizeof_epic_hdr abi) in *.
  set (sh := sizeof_epic_sub_hdr abi) in *.
  set (epic := eh + sh + n).
  assert (Hn0 : 0 <= n) by (unfold n; lia).
  pose proof Hok as [Hrd Hbk _ Hbuf Hb0 _ Hbmax].
  fold tx in Hrd, Hbk, Hbuf, Hb0, Hbmax.
  unfold sizeof_afk_qe in Hfit.
  assert (Hn' : 0 <= n < 2 ^ 63) by lia.
  destruct (total_sizes abi n Habi Hn') as [E1 E2]. fold eh sh in E1, E2.
  pose proof (afk_send_epic_place_spec abi Habi (bufsz tx) rptr wptr n
                ltac:(lia) ltac:(lia) ltac:(lia) Hn') as Hspec.
  cbv zeta in Hspec. fold eh sh epic in Hspec.
  destruct (afk_send_epic_place (bufsz tx) rptr wptr epic
              (sizeof_afk_qe + epic)) as [[[h h2] w]|] eqn:Epl.
  2:{ exfalso. subst r. unfold afk_send_epic in Hret.
      fold tx n eh sh rptr wptr in Hret. rewrite E2, E1 in Hret.
      replace (sizeof_afk_qe + eh + sh + n) with (sizeof_afk_qe + epic)
        in Hret by (unfold epic; lia).
      fold epic in Hret. rewrite Epl in Hret. discriminate Hret. }
  assert (Hp : afk_send_epic_place (bufsz tx) rptr wptr
                 (usize (eh + sh + n))
                 (usize (sizeof_afk_qe + usize (eh + sh + n)))
               = Some (h, h2, w)).
  { rewrite E2, E1, <- Epl. unfold epic. f_equal. lia. }
  destruct (afk_send_epic_body abi ep ch t etype ecat stype payload h h2 w
              Hok Hp) as [_ Hbody].
  fold tx r in Hbody.
  destruct (afk_send_epic_image abi Habi ep (bufsz tx) rptr wptr h h2 w ch t
              etype ecat stype payload ltac:(lia) ltac:(lia) ltac:(lia)
              Hspec) as (Hwe & Hh & He & Hpl & _).
  fold tx n eh sh epic in Hh, He, Hpl.
  set (ms := apply_stores (memory ep)
               (afk_send_epic_stores abi ep h h2 w ch t etype ecat stype
                  payload)) in *.
  assert (Hrx : rxbfr rx_ep = tx)
    by (subst rx_ep r; unfold loopback; cbn [rxbfr set_rxbfr];
        apply txbfr_afk_send_epic).
  assert (Hmem : memory rx_ep = afk_rb_set_rptr (memory (snd r)) tx wptr).
  { subst rx_ep. unfold loopback. cbn [memory set_rxbfr set_memory].
    subst r. rewrite txbfr_afk_send_epic. reflexivity. }
  assert (Hld : forall a k, buf tx <= a -> load (memory rx_ep) a k = load ms a k).
  { intros a k Ha. apply load_ext. intros x Hx. rewrite Hmem.
    unfold afk_rb_set_rptr. rewrite store_outside.
    - apply Hbody. lia.
    - rewrite length_le_bytes. right. lia. }
  assert (Hrp : afk_rb_get_rptr (memory rx_ep) (rxbfr rx_ep) = wptr).
  { rewrite Hrx, Hmem. unfold afk_rb_get_rptr, afk_rb_set_rptr.
    rewrite load_le_store. apply Z.mod_small.
    change (256 ^ Z.of_nat 4) with (2 ^ 32). lia. }
  assert (Hhw : h = wptr) by (inversion Hspec; reflexivity).
  subst h.
  assert (Hsize : epic_payload abi (buf tx + match h2 with
                                             | Some o => o
                                             | None => wptr
                                             end + qe_data) epic
                  = Some (buf tx + match h2 with
                                   | Some o => o
                                   | None => wptr
                                   end + sizeof_afk_qe + eh + sh, n)).
  { unfold epic_payload. fold eh sh.
    rewrite (usize_small (eh + sh)) by lia.
    destruct (Z.ltb_spec epic (eh + sh)); [unfold epic in *; lia|].
    replace (usize (epic - eh - sh)) with n
      by (rewrite usize_small; unfold epic; lia).
    reflexivity. }
  rewrite Hrx in Hne.
  inversion Hspec; subst.
  - pose proof (afk_recv_qe_plain abi Habi rx_ep epic ch etype) as L.
    cbv zeta in L. rewrite Hrp, Hrx in L.
    rewrite Hld in L by lia.
    destruct (L Hok Hne ltac:(lia) ltac:(unfold epic; lia)
                ltac:(unfold epic, sizeof_afk_qe in *; lia) Hch Hty Hh)
      as (ep' & Hrecv & Hsame).
    exists ep', {| fr_channel := ch; fr_type := etype;
                   fr_data := buf tx + wptr + qe_data; fr_size := epic |},
      (buf tx + wptr + sizeof_afk_qe + eh + sh).
    cbn [fr_channel fr_type fr_data fr_size].
    repeat split; try assumption.
    rewrite (load_ext (memory rx_ep) (memory ep')).
    + rewrite Hld by (unfold sizeof_afk_qe; lia). exact Hpl.
    + intros x Hx. apply Hsame. unfold sizeof_afk_qe in *. lia.
  - pose proof (afk_recv_qe_plain abi Habi rx_ep epic ch etype) as L.
    cbv zeta in L. rewrite Hrp, Hrx in L.
    rewrite Hld in L by lia.
    destruct (L Hok Hne ltac:(lia) ltac:(unfold epic; lia)
                ltac:(unfold epic, sizeof_afk_qe in *; lia) Hch Hty Hh)
      as (ep' & Hrecv & Hsame).
    exists ep', {| fr_channel := ch; fr_type := etype;
                   fr_data := buf tx + wptr + qe_data; fr_size := epic |},
      (buf tx + wptr + sizeof_afk_qe + eh + sh).
    cbn [fr_channel fr_type fr_data fr_size].
    repeat split; try assumption.
    rewrite (load_ext (memory rx_ep) (memory ep')).
    + rewrite Hld by (unfold sizeof_afk_qe; lia). exact Hpl.
    + intros x Hx. apply Hsame. unfold sizeof_afk_qe in *. lia.
  - pose proof (afk_recv_qe_wrapped abi Habi rx_ep epic ch etype) as L.
    cbv zeta in L. rewrite Hrp, Hrx in L.
    rewrite !Hld in L by lia.
    rewrite Z.add_0_r in He.
    destruct (L Hok Hne ltac:(lia) ltac:(unfold epic; lia)
                ltac:(unfold sizeof_afk_qe in *; lia)
                ltac:(unfold epic, sizeof_afk_qe in *; lia)
                ltac:(unfold epic, sizeof_afk_qe in *; lia) Hch Hty Hh He)
      as (ep' & Hrecv & Hsame).
    exists ep', {| fr_channel := ch; fr_type := etype;
                   fr_data := buf tx + 0 + qe_data; fr_size := epic |},
      (buf tx + 0 + sizeof_afk_qe + eh + sh).
    cbn [fr_channel fr_type fr_data fr_size].
    repeat split; try assumption.
    rewrite (load_ext (memory rx_ep) (memory ep')).
    + rewrite Hld by (unfold sizeof_afk_qe; lia). exact Hpl.
    + intros x Hx. apply Hsame. unfold sizeof_afk_qe in *. lia.
Qed.

End RoundTrip.

Lemma afk_send_recv_roundtrip_witness :
  let payload := repeat 7 72 in
  let r := afk_send_epic asahi_abi Sample.ep_idle 5 0x0102 3 0x30 0xc0
             payload in
  exists ep' f p,
    afk_recv_at asahi_abi (loopback (snd r) 0) 0 = (ep', Some f)
    /\ fr_channel f = 5
    /\ fr_type f = 3
    /\ epic_payload asahi_abi (fr_data f) (fr_size f) = Some (p, 72)
    /\ load (memory ep') p 72 = payload.
Proof.
  intros payload r.
  refine (afk_send_recv_roundtrip asahi_abi asahi_abi_ok Sample.ep_idle 5
            0x0102 3 0x30 0xc0 payload rb_ok_tx_ring _ _ _ _ _ _).
  - vm_compute. split; [discriminate | reflexivity].
  - vm_compute. split; [discriminate | reflexivity].
  - lia.
  - lia.
  - vm_compute. discriminate.
  - vm_compute. reflexivity.
Defined.

Lemma afk_send_recv_loopback_witness :
  let payload := [1; 2; 3; 4; 5; 6; 7; 8] in
  let r := afk_send_epic asahi_abi Sample.ep_idle 5 0x0102 3 0x30 0xc0
             payload in
  exists ep' f p,
    afk_recv_qe asahi_abi (loopback (snd r) 0) = (ep', Some f)
    /\ fr_channel f = 5
    /\ fr_type f = 3
    /\ epic_payload asahi_abi (fr_data f) (fr_size f) = Some (p, 8)
    /\ load (memory ep') p 8 = payload.
Proof.
  intros payload r.
  refine (afk_send_recv_loopback asahi_abi asahi_abi_ok Sample.ep_idle 5
            0x0102 3 0x30 0xc0 payload rb_ok_tx_ring _ _ _ _ _ _ _).
  - vm_compute. split; [discriminate | reflexivity].
  - vm_compute. split; [discriminate | reflexivity].
  - lia.
  - lia.
  - vm_compute. discriminate.
  - vm_compute. reflexivity.
  - vm_compute. intros H. discriminate H.
Defined.

(** ** Synchronous commands *)

Lemma service_at_set_service (ep : apple_dcp_afkep) (i : nat)
    (s : apple_epic_service) :
  (i < length (services ep))%nat -> service_at (set_service ep i s) i = s.
Proof.
  intros H. unfold service_at, set_service. cbn [services set_services].
  rewrite list_lookup_insert_eq by exact H. reflexivity.
Qed.

Lemma service_at_log_event (ep : apple_dcp_afkep) (e : event) (i : nat) :
  service_at (log_event ep e) i = service_at ep i.
Proof. reflexivity. Qed.

Lemma length_services_set_service (ep : apple_dcp_afkep) (i : nat)
    (s : apple_epic_service) :
  length (services (set_service ep i s)) = length (services ep).
Proof. unfold set_service. cbn [services set_services]. apply length_insert. Qed.

Lemma slot_at_set_slot (s : apple_epic_service) (idx : Z) (c : epic_cmd_slot) :
  (Z.to_nat idx < length (cmds s))%nat -> slot_at (set_slot s idx c) idx = c.
Proof.
  intros H. unfold slot_at, set_slot. cbn [cmds].
  rewrite list_lookup_insert_eq by exact H. reflexivity.
Qed.

Lemma find_service_from_insert (l : list apple_epic_service) (n si i : nat)
    (s' : apple_epic_service) (ch : Z) :
  (forall s, l !! si = Some s ->
             enabled s' = enabled s /\ channel s' = channel s) ->
  find_service_from (take n (<[si := s']> l)) i ch
  = find_service_from (take n l) i ch.
Proof.
  revert n si i. induction l as [|s l IH]; intros n si i H; [reflexivity|].
  destruct n as [|n]; [reflexivity|].
  destruct si as [|si].
  - change (<[0%nat := s']> (s :: l)) with (s' :: l).
    cbn [take firstn find_service_from].
    destruct (H s eq_refl) as [-> ->]. reflexivity.
  - change (<[S si := s']> (s :: l)) with (s :: <[si := s']> l).
    cbn [take firstn find_service_from]. rewrite IH; [reflexivity|].
    intros s0 Hs0. apply H. exact Hs0.
Qed.

(** Updating a service without touching its channel or its enabled flag
    does not change which service a channel finds. *)
Lemma afk_epic_find_service_set_service (ep : apple_dcp_afkep) (si : nat)
    (s' : apple_epic_service) (ch : Z) :
  enabled s' = enabled (service_at ep si) ->
  channel s' = channel (service_at ep si) ->
  (si < length (services ep))%nat ->
  afk_epic_find_service (set_service ep si s') ch
  = afk_epic_find_service ep ch.
Proof.
  intros He Hc Hlt. unfold afk_epic_find_service, set_service.
  cbn [services num_channels set_services].
  apply find_service_from_insert. intros s Hs.
  unfold service_at in He, Hc. rewrite Hs in He, Hc. split; assumption.
Qed.

Section Commands.

Variable abi : afk_abi.

(** What an accepted reply does to the endpoint. *)
Lemma afk_recv_handle_reply_accepted (ep : apple_dcp_afkep)
    (ch t payload payload_size : Z) (si : nat) :
  let idx := u8 (Z.land t 0xff) in
  let s := service_at ep si in
  let c := slot_at s idx in
  let c' :=
    completed c (load_le (memory ep) (payload + f_off (cmd_retcode abi)) 4) in
  afk_epic_find_service ep ch = Some si ->
  sizeof_epic_cmd abi <= payload_size ->
  idx < MAX_PENDING_CMDS abi ->
  done c = false -> t = tag c ->
  let ep' := afk_recv_handle_reply abi ep ch t payload payload_size in
  memory ep' = memory ep
  /\ num_channels ep' = num_channels ep
  /\ services ep'
     = <[si := if free_on_ack c
               then set_cmd_map (set_slot s idx c')
                      (bitmap_release_region (cmd_map s) idx)
               else set_slot s idx c']> (services ep)
  /\ events ep'
     = events ep
       ++ match completion c with
          | Some w => [EvComplete w]
          | None => []
          end
       ++ (if free_on_ack c && negb (rxbuf c =? 0) && negb (rxlen c =? 0)
           then [EvDmaFree (rxlen c) (rxbuf c) (rxbuf_dma c)] else [])
       ++ (if free_on_ack c && negb (txbuf c =? 0) && negb (txlen c =? 0)
           then [EvDmaFree (txlen c) (txbuf c) (txbuf_dma c)] else []).
Proof.
  intros idx s c c' Hs Hsz Hidx Hd Ht ep'. subst ep'.
  unfold afk_recv_handle_reply. rewrite Hs. fold idx s c.
  destruct (Z.ltb_spec payload_size (sizeof_epic_cmd abi)); [lia|].
  destruct (Z.geb_spec idx (MAX_PENDING_CMDS abi)); [lia|].
  rewrite Hd. rewrite (proj2 (Z.eqb_eq t (tag c)) Ht). cbn [negb].
  fold (completed c
          (load_le (memory ep) (payload + f_off (cmd_retcode abi)) 4)).
  fold c'. unfold completed in c'. 
  destruct (free_on_ack c) eqn:Ef; destruct (completion c) as [w|] eqn:Ec;
    subst c'; cbn [free_on_ack completion rxbuf txbuf rxlen txlen rxbuf_dma
                   txbuf_dma andb];
    rewrite ?Ef, ?Ec; change (0 =? 0) with true; cbn [andb negb];
    repeat match goal with
           | |- context [if ?b then _ else _] => destruct b
           end;
    cbn [memory num_channels services events set_service set_services
         log_event dma_free_coherent app];
    rewrite <- ?app_assoc; cbn [app]; rewrite ?app_nil_r;
    repeat split; reflexivity.
Qed.

End Commands.

Section Handoff.

Variable abi : afk_abi.

Lemma reply_on_done_slot (ep : apple_dcp_afkep)
    (ch t payload payload_size : Z) (si : nat) :
  afk_epic_find_service ep ch = Some si ->
  done (slot_at (service_at ep si) (u8 (Z.land t 0xff))) = true ->
  afk_recv_handle_reply abi ep ch t payload payload_size = ep.
Proof.
  intros Hs Hd. unfold afk_recv_handle_reply. rewrite Hs, Hd.
  destruct (_ <? _); [reflexivity|]. destruct (_ >=? _); reflexivity.
Qed.

Lemma service_at_services (ep ep' : apple_dcp_afkep) (si : nat)
    (s : apple_epic_service) :
  services ep' = <[si := s]> (services ep) ->
  (si < length (services ep))%nat ->
  service_at ep' si = s.
Proof.
  intros H Hlt. unfold service_at. rewrite H.
  rewrite list_lookup_insert_eq by exact Hlt. reflexivity.
Qed.

Lemma find_service_services (ep ep' : apple_dcp_afkep) (si : nat)
    (s : apple_epic_service) (ch : Z) :
  services ep' = <[si := s]> (services ep) ->
  num_channels ep' = num_channels ep ->
  enabled s = enabled (service_at ep si) ->
  channel s = channel (service_at ep si) ->
  afk_epic_find_service ep' ch = afk_epic_find_service ep ch.
Proof.
  intros H Hn He Hc. unfold afk_epic_find_service. rewrite H, Hn.
  apply find_service_from_insert. intros s0 Hs0.
  unfold service_at in He, Hc. rewrite Hs0 in He, Hc. split; assumption.
Qed.

(** X27: take a command that is pending when the one-second wait times
    out, and a reply that carries its tag.

    If the reply is handled before the waiter re-checks under the lock,
    the waiter finds the command done and returns 0: the completion was
    signalled, and the waiter released the tag slot and freed both
    buffers, each once, whatever their lengths.

    If the command is still pending at the re-check, the waiter detaches
    the completion, sets [free_on_ack] and returns [-ETIMEDOUT] without
    freeing anything, the slot staying reserved.  The reply, when it
    comes, releases the slot, and the handler frees the response buffer
    if its length is not 0 and then the request buffer if its length is
    not 0, and no other; a repeated reply changes nothing. *)
Theorem afk_send_command_timeout_handoff (ep : apple_dcp_afkep)
    (service : nat) (cw : cmd_wait) (payload payload_size : Z) :
  pending abi ep service cw ->
  sizeof_epic_cmd abi <= payload_size ->
  let s := service_at ep service in
  let c := slot_at s (w_idx cw) in
  let reply e :=
    afk_recv_handle_reply abi e (channel s) (tag c) payload payload_size in
  let free_rx :=
    EvDmaFree (w_output_len cw) (w_rxbuf cw) (w_rxbuf_dma cw) in
  let free_tx :=
    EvDmaFree (w_payload_len cw) (w_txbuf cw) (w_txbuf_dma cw) in
  (let r := afk_send_command_finish (reply ep) service cw 0 in
   r_ret (snd r) = 0
   /\ events (fst r)
      = events ep ++ [EvComplete (w_completion cw); free_tx; free_rx]
   /\ Z.testbit (cmd_map (service_at (fst r) service)) (w_idx cw) = false)
  /\ (let r := afk_send_command_finish ep service cw 0 in
      let c1 := slot_at (service_at (fst r) service) (w_idx cw) in
      r_ret (snd r) = - ETIMEDOUT
      /\ completion c1 = None
      /\ free_on_ack c1 = true
      /\ done c1 = false
      /\ events (fst r) = events ep
      /\ Z.testbit (cmd_map (service_at (fst r) service)) (w_idx cw) = true
      /\ (let ep2 := reply (fst r) in
          events ep2
          = events ep
            ++ (if w_output_len cw =? 0 then [] else [free_rx])
            ++ (if w_payload_len cw =? 0 then [] else [free_tx])
          /\ Z.testbit (cmd_map (service_at ep2 service)) (w_idx cw) = false
          /\ done (slot_at (service_at ep2 service) (w_idx cw)) = true
          /\ reply ep2 = ep2)).
Proof.
  intros Hp Hsz s c reply free_rx free_tx.
  destruct Hp as [Hfound Hsi Hidx Hslot Hbit Htag Hrx Htx Hrxd Htxd Hrl Htl
                  Hfoa Hdone Hcomp Hrxn Htxn].
  fold s in Hfound, Hslot, Hbit, Htag, Hrx, Htx, Hrxd, Htxd, Hrl, Htl, Hfoa,
    Hdone, Hcomp.
  fold c in Htag, Hrx, Htx, Hrxd, Htxd, Hrl, Htl, Hfoa, Hdone, Hcomp.
  split.
  - (* the reply wins the race *)
    pose proof (afk_recv_handle_reply_accepted abi ep (channel s) (tag c)
                  payload payload_size service) as L.
    cbv zeta in L. fold s in L. rewrite Htag in L. fold c in L.
    destruct (L Hfound Hsz ltac:(lia) Hdone eq_refl) as (Hm & Hn & Hsv & Hev).
    clear L. rewrite Hfoa in Hsv, Hev. rewrite Hcomp in Hev.
    cbn [andb app] in Hev.
    fold (reply ep) in Hm, Hn, Hsv, Hev.
    set (c' := completed c _) in Hsv.
    pose proof (service_at_services ep (reply ep) service _ Hsv Hsi) as Hs1.
    unfold afk_send_command_finish, afk_send_command_recheck.
    cbn [Z.leb Z.compare]. rewrite Hs1, slot_at_set_slot by exact Hslot.
    cbn [done completed c' negb].
    unfold afk_send_command_collect. rewrite Hs1.
    cbn [fst snd r_ret events dma_free_coherent log_event set_service
         set_services].
    split; [reflexivity|]. split.
    + rewrite Hev, <- !app_assoc. reflexivity.
    + unfold dma_free_coherent. rewrite !service_at_log_event.
      rewrite (service_at_set_service (reply ep))
        by (rewrite Hsv, length_insert; exact Hsi).
      cbn [cmd_map set_cmd_map]. unfold bitmap_release_region.
      apply Z.clearbit_eq.
  - (* the waiter gives up first *)
    unfold afk_send_command_finish, afk_send_command_recheck.
    cbn [Z.leb Z.compare]. fold s c. fold (abandoned c).
    rewrite Hdone. cbn [negb fst snd r_ret].
    set (ep1 := set_service ep service (set_slot s (w_idx cw) (abandoned c))).
    assert (Hs1 : service_at ep1 service = set_slot s (w_idx cw) (abandoned c))
      by (apply service_at_set_service; exact Hsi).
    assert (Hc1 : slot_at (service_at ep1 service) (w_idx cw) = abandoned c)
      by (rewrite Hs1; apply slot_at_set_slot; exact Hslot).
    rewrite Hc1, Hs1. cbn [completion free_on_ack done abandoned cmd_map
                           set_slot].
    repeat (split; [first [reflexivity | assumption]|]).
    set (ep2 := reply ep1).
    assert (Hf1 : afk_epic_find_service ep1 (channel s) = Some service).
    { rewrite <- Hfound. apply afk_epic_find_service_set_service;
        try reflexivity. exact Hsi. }
    pose proof (afk_recv_handle_reply_accepted abi ep1 (channel s) (tag c)
                  payload payload_size service) as L.
    cbv zeta in L. rewrite Htag, Hc1, Hs1 in L.
    destruct (L Hf1 Hsz ltac:(lia) Hdone eq_refl) as (Hm & Hn & Hsv & Hev).
    clear L.
    cbn [free_on_ack completion rxbuf txbuf rxlen txlen rxbuf_dma txbuf_dma
         abandoned] in Hsv, Hev.
    rewrite Hrx, Htx, Hrl, Htl, Hrxd, Htxd in Hev.
    rewrite (proj2 (Z.eqb_neq _ 0) Hrxn), (proj2 (Z.eqb_neq _ 0) Htxn)
      in Hev.
    cbn [andb negb app] in Hev.
    assert (Hev' : events (afk_recv_handle_reply abi ep1 (channel s) (tag c)
                             payload payload_size)
                   = events ep
                     ++ (if w_output_len cw =? 0 then [] else [free_rx])
                     ++ (if w_payload_len cw =? 0 then [] else [free_tx])).
    { rewrite Hev. subst free_rx free_tx.
      destruct (w_output_len cw =? 0); destruct (w_payload_len cw =? 0);
        reflexivity. }
    clear Hev. rename Hev' into Hev.
    fold (reply ep1) in Hm, Hn, Hsv, Hev. fold ep2 in Hm, Hn, Hsv, Hev.
    assert (Hsi1 : (service < length (services ep1))%nat)
      by (unfold ep1; rewrite length_services_set_service; exact Hsi).
    pose proof (service_at_services ep1 ep2 service _ Hsv Hsi1) as Hs2.
    assert (Hslot1 : (Z.to_nat (w_idx cw)
                      < length (cmds (set_slot s (w_idx cw) (abandoned c))))%nat)
      by (cbn [cmds set_slot]; rewrite length_insert; exact Hslot).
    assert (Hd2 : done (slot_at (service_at ep2 service) (w_idx cw)) = true).
    { rewrite Hs2. unfold slot_at. cbn [cmds set_cmd_map].
      fold (slot_at (set_slot (set_slot s (w_idx cw) (abandoned c))
                       (w_idx cw)
                       (completed (abandoned c)
                          (load_le (memory ep1)
                             (payload + f_off (cmd_retcode abi)) 4)))
              (w_idx cw)).
      rewrite slot_at_set_slot by exact Hslot1. reflexivity. }
    split; [exact Hev|]. split; [|split; [exact Hd2|]].
    + rewrite Hs2. cbn [cmd_map set_cmd_map]. unfold bitmap_release_region.
      apply Z.clearbit_eq.
    + apply (reply_on_done_slot ep2 (channel s) (tag c) payload payload_size
               service).
      * rewrite <- Hf1.
        apply (find_service_services ep1 ep2 service _ _ Hsv Hn);
          rewrite Hs1; reflexivity.
      * rewrite Htag. exact Hd2.
Qed.

End Handoff.

Lemma pending_ep_busy : pending asahi_abi Sample.ep_busy 0 Sample.waiter.
Proof.
  constructor; vm_compute; try reflexivity; try discriminate; try lia.
  split; [discriminate | reflexivity].
Qed.

Lemma afk_send_command_timeout_handoff_witness :
  let ep := Sample.ep_busy in
  let reply e := afk_recv_handle_reply asahi_abi e 5 0x0302 0x104e8 30 in
  let free_rx := EvDmaFree 64 0x20000 0x90000000 in
  let free_tx := EvDmaFree 30 0x21000 0x90001000 in
  events (fst (afk_send_command_finish (reply ep) 0 Sample.waiter 0))
  = [EvComplete 0x7000; free_tx; free_rx]
  /\ r_ret (snd (afk_send_command_finish ep 0 Sample.waiter 0))
     = - ETIMEDOUT
  /\ events (reply (fst (afk_send_command_finish ep 0 Sample.waiter 0)))
     = [free_rx; free_tx].
Proof.
  intros ep reply free_rx free_tx.
  destruct (afk_send_command_timeout_handoff asahi_abi Sample.ep_busy 0
              Sample.waiter 0x104e8 30 pending_ep_busy ltac:(vm_compute; discriminate))
    as [(_ & Hrace & _) (Hto & _ & _ & _ & _ & _ & Hlate)].
  split; [exact Hrace|]. split; [exact Hto|].
  exact (proj1 Hlate).
Defined.


(** The state in which the command waits is the one [afk_send_command]
    builds: submitted on a service with two slots taken, with an allocator
    handing out pages, it sleeps with the command in slot 2 under tag
    0x0302. *)
Example afk_send_command_submit_sample :
  let r := afk_send_command_submit asahi_abi Sample.page_alloc Sample.ep_ready
             0 0xc0 (repeat 0 30) 64 0x7000 in
  snd r = inr Sample.waiter
  /\ slot_at (service_at (fst r) 0) 2 = Sample.pending_slot
  /\ cmd_map (service_at (fst r) 0) = 7.
Proof. vm_compute. repeat split; reflexivity. Qed.

(** ** Service registry *)

(** C6.  The AOP announce handler does not reject an announce that names
    a channel with an enabled service.  On an endpoint whose service 0 is
    enabled on channel 5, a [NOTIFY] / [REPORT] / standard-service frame
    arrives on queue channel 7, which has no service, and its record
    names the service [SPUApp] on channel 5: the handler registers a
    second service, and the table then holds two enabled entries for
    channel 5. *)
Theorem aop_announce_duplicates_channel :
  let ep := Sample.ep_announce in
  let ep' := Aop.aop_recv_handle asahi_abi ep 7 0 0x30000 84 in
  afk_epic_find_service ep 7 = None
  /\ afk_epic_find_service ep 5 = Some 0%nat
  /\ num_channels ep = 1
  /\ num_channels ep' = 2
  /\ length (enabled_on ep 5) = 1%nat
  /\ length (enabled_on ep' 5) = 2%nat.
Proof. vm_compute. repeat split; reflexivity. Qed.

(** The handler itself, whatever the table holds: an announce that fits,
    matches a name and finds room is registered, with no look at the
    services already enabled on its channel. *)
Lemma apple_aop_recv_handle_init_registers (abi : afk_abi)
    (ep : apple_dcp_afkep) (subtype ch payload payload_size : Z) (o : nat) :
  Aop.sizeof_aop_epic_service_init <= payload_size ->
  num_channels ep < AFK_MAX_CHANNEL abi ->
  afk_match_service ep (payload + Aop.prop_name) = Some o ->
  num_channels
    (Aop.apple_aop_recv_handle_init abi ep subtype ch payload payload_size)
  = num_channels ep + 1.
Proof.
  intros Hsz Hcap Hm. unfold Aop.apple_aop_recv_handle_init.
  destruct (Z.ltb_spec payload_size Aop.sizeof_aop_epic_service_init); [lia|].
  destruct (Z.geb_spec (num_channels ep) (AFK_MAX_CHANNEL abi)); [lia|].
  rewrite Hm. reflexivity.
Qed.

(** ** How a command gets to wait *)

Lemma first_clear_bit_spec (map pos : Z) (n : nat) (idx : Z) :
  first_clear_bit map pos n = Some idx ->
  pos <= idx < pos + Z.of_nat n /\ Z.testbit map idx = false.
Proof.
  revert pos; induction n as [|n IH]; intros pos H; [discriminate|].
  cbn [first_clear_bit] in H. destruct (Z.testbit map pos) eqn:E.
  - apply IH in H. destruct H as [H1 H2]. split; [lia | exact H2].
  - injection H as <-. split; [lia | exact E].
Qed.

Lemma services_afk_send_epic (abi : afk_abi) (ep : apple_dcp_afkep)
    (ch t etype ecat stype : Z) (payload : list Z) :
  let ep' := snd (afk_send_epic abi ep ch t etype ecat stype payload) in
  services ep' = services ep /\ num_channels ep' = num_channels ep.
Proof.
  unfold afk_send_epic.
  destruct (afk_send_epic_place _ _ _ _ _) as [[[h h2] w]|];
    split; reflexivity.
Qed.

Lemma tag_low_byte (cmd_tag_ idx : Z) :
  0 <= idx < 256 ->
  u8 (Z.land
        (u16 (Z.lor (u16 (Z.shiftl (Z.land cmd_tag_ 0xff) 8))
                    (Z.land idx 0xff))) 0xff)
  = idx.
Proof.
  intros H. unfold u8, u16.
  change 0xff with (Z.ones 8). rewrite !Z.land_ones by lia.
  rewrite Z.shiftl_mul_pow2 by lia.
  rewrite (Z.mod_small idx) by (change (2 ^ 8) with 256; lia).
  rewrite (Z.mod_mod _ (2 ^ 8)) by (change (2 ^ 8) with 256; lia).
  rewrite (Z.mod_mod_divide _ (2 ^ 16) (2 ^ 8)) by (exists (2 ^ 8); reflexivity).
  rewrite <- (Z.land_ones (Z.lor _ _)) by lia.
  rewrite Z.land_lor_distr_l, !Z.land_ones by lia.
  rewrite (Z.mod_mod_divide _ (2 ^ 16) (2 ^ 8)) by (exists (2 ^ 8); reflexivity).
  rewrite Z.mod_mul by (change (2 ^ 8) with 256; lia).
  rewrite Z.lor_0_l. apply Z.mod_small. change (2 ^ 8) with 256. lia.
Qed.

(** X24.  Whenever [afk_send_command] reaches the wait, it has left the
    command [pending]: the service is the enabled one of its channel, the
    slot is reserved in the bitmap and holds the tag, whose low byte is
    the slot index, both buffers and their lengths, not done, not handed
    over, with the completion attached. *)
Lemma afk_send_command_submit_pending (abi : afk_abi)
    (alloc : list event -> Z -> Z * Z) (ep : apple_dcp_afkep) (si : nat)
    (type_ : Z) (payload : list Z) (output_len w : Z)
    (ep' : apple_dcp_afkep) (cw : cmd_wait) :
  abi_ok abi ->
  afk_epic_find_service ep (channel (service_at ep si)) = Some si ->
  (si < length (services ep))%nat ->
  length (cmds (service_at ep si)) = Z.to_nat (MAX_PENDING_CMDS abi) ->
  afk_send_command_submit abi alloc ep si type_ payload output_len w
  = (ep', inr cw) ->
  pending abi ep' si cw.
Proof.
  intros Habi Hfound Hsi Hlen H.
  pose proof (max_pending_pos abi Habi) as Hmax.
  unfold afk_send_command_submit in H.
  destruct (alloc (events ep) output_len) as [rxb rxd].
  destruct (Z.eqb_spec rxb 0) as [|Hrx]; [discriminate|].
  destruct (alloc _ (Z.of_nat (length payload))) as [txb txd].
  destruct (Z.eqb_spec txb 0) as [|Htx]; [discriminate|].
  set (ep1 := set_memory _ _) in H.
  assert (Hs1 : service_at ep1 si = service_at ep si) by reflexivity.
  rewrite Hs1 in H. set (s := service_at ep si) in *.
  unfold bitmap_find_free_region in H.
  destruct (first_clear_bit (cmd_map s) 0 (Z.to_nat (MAX_PENDING_CMDS abi)))
    as [idx|] eqn:Efree; [|discriminate].
  apply first_clear_bit_spec in Efree. destruct Efree as [Hidx _].
  rewrite Z2Nat.id in Hidx by lia.
  set (t := u16 _) in H. set (c := Build_epic_cmd_slot _ _ _ _ _ _ _ _ _ _ _) in H.
  set (s' := set_slot _ idx c) in H.
  set (ep2 := set_service ep1 si s') in H.
  pose proof (services_afk_send_epic abi ep2 (channel s') t
                (EPIC_TYPE_COMMAND abi) (EPIC_CAT_COMMAND abi) type_
                (epic_cmd_bytes abi rxd output_len txd
                   (Z.of_nat (length payload)))) as [Hsv Hnc].
  cbv zeta in Hsv, Hnc.
  destruct (afk_send_epic abi ep2 _ _ _ _ _ _) as [ret ep3].
  cbn [snd] in Hsv, Hnc.
  destruct (Z.eqb_spec ret 0) as [_|]; [|discriminate].
  cbn [negb] in H. injection H as <- <-.
  assert (Hsi1 : (si < length (services ep1))%nat) by exact Hsi.
  assert (Hs3 : service_at ep3 si = s').
  { unfold service_at. rewrite Hsv. unfold ep2, set_service.
    cbn [services set_services].
    rewrite list_lookup_insert_eq by exact Hsi1. reflexivity. }
  assert (Hslot : (Z.to_nat idx < length (cmds s))%nat)
    by (rewrite Hlen; lia).
  assert (Hc : slot_at s' idx = c).
  { unfold s'. apply slot_at_set_slot. cbn [cmds set_cmd_tag set_cmd_map].
    exact Hslot. }
  constructor; rewrite ?Hs3;
    cbn [w_idx w_rxbuf w_txbuf w_rxbuf_dma w_txbuf_dma w_output_len
         w_payload_len w_completion];
    rewrite ?Hc; try reflexivity; try assumption.
  - rewrite <- Hfound. unfold afk_epic_find_service. rewrite Hsv, Hnc.
    unfold ep2, set_service. cbn [services num_channels set_services].
    apply find_service_from_insert. intros s0 Hs0.
    assert (Es0 : s0 = s).
    { unfold s, service_at.
      change (services ep1) with (services ep) in Hs0. rewrite Hs0.
      reflexivity. }
    subst s0. split; reflexivity.
  - rewrite Hsv. unfold ep2.
    rewrite length_services_set_service. exact Hsi.
  - unfold s'. cbn [cmds set_slot set_cmd_tag set_cmd_map].
    rewrite length_insert. exact Hslot.
  - unfold s'. cbn [cmd_map set_slot set_cmd_tag set_cmd_map].
    apply Z.setbit_eq. lia.
  - unfold c. cbn [tag]. unfold t. apply tag_low_byte. lia.
Qed.

(** * Further properties *)

(** ** Name and channel lookup *)

Lemma str_eq_at_spec (s : list Z) (m : mem) (a : Z) :
  str_eq_at s m a = true <-> string_at m a s.
Proof.
  unfold string_at. revert a; induction s as [|c s IH]; intros a.
  - cbn [str_eq_at length]. change (Z.of_nat 0) with 0.
    rewrite Z.add_0_r, Z.eqb_eq. split.
    + intros H. split; [reflexivity | exact H].
    + intros [_ H]. exact H.
  - cbn [str_eq_at length]. rewrite load_S, andb_true_iff, Z.eqb_eq, IH.
    rewrite Nat2Z.inj_succ.
    replace (a + Z.succ (Z.of_nat (length s)))
      with (a + 1 + Z.of_nat (length s)) by lia.
    split.
    + intros (H1 & H2 & H3). split; [|exact H3]. rewrite H1, H2. reflexivity.
    + intros (H1 & H2). injection H1 as H1 H3. repeat split; assumption.
Qed.

Lemma match_from_spec (tbl : list apple_epic_service_ops) (i : nat)
    (m : mem) (a : Z) :
  match match_from tbl i m a with
  | Some j =>
      exists k o, j = (i + k)%nat /\ tbl !! k = Some o
        /\ string_at m a (name o)
        /\ forall k' o', (k' < k)%nat -> tbl !! k' = Some o' ->
             ~ string_at m a (name o')
  | None => forall k o, tbl !! k = Some o -> ~ string_at m a (name o)
  end.
Proof.
  revert i; induction tbl as [|o tbl IH]; intros i; cbn [match_from].
  - intros k o' H. destruct k; discriminate H.
  - destruct (str_eq_at (name o) m a) eqn:E.
    + exists 0%nat, o. split; [lia|]. split; [reflexivity|].
      split; [apply str_eq_at_spec, E|]. intros k' o' Hk. lia.
    + assert (Hno : ~ string_at m a (name o)).
      { intros H. apply str_eq_at_spec in H. congruence. }
      specialize (IH (S i)). destruct (match_from tbl (S i) m a) as [j|].
      * destruct IH as (k & o' & -> & Hk & Hm & Hf).
        exists (S k), o'. split; [lia|]. split; [exact Hk|].
        split; [exact Hm|]. intros [|k'] o'' Hlt Hl.
        -- cbn in Hl. injection Hl as <-. exact Hno.
        -- apply (Hf k' o''); [lia | exact Hl].
      * intros [|k] o' Hl.
        -- cbn in Hl. injection Hl as <-. exact Hno.
        -- apply (IH k o'). exact Hl.
Qed.

(** X1.  [afk_match_service] returns the first entry of the endpoint's
    table whose name is the C string at the given address.  It returns
    nothing exactly when the string is empty, when the endpoint has no
    table, or when no entry carries that name. *)
Theorem afk_match_service_first_match (ep : apple_dcp_afkep) (a : Z) :
  match afk_match_service ep a with
  | Some i =>
      memory ep a <> 0
      /\ exists tbl o,
           ep_ops ep = Some tbl /\ tbl !! i = Some o
           /\ string_at (memory ep) a (name o)
           /\ forall j o', (j < i)%nat -> tbl !! j = Some o' ->
                ~ string_at (memory ep) a (name o')
  | None =>
      memory ep a = 0
      \/ ep_ops ep = None
      \/ exists tbl,
           ep_ops ep = Some tbl
           /\ forall j o, tbl !! j = Some o ->
                ~ string_at (memory ep) a (name o)
  end.
Proof.
  unfold afk_match_service.
  destruct (Z.eqb_spec (memory ep a) 0) as [E|E]; [left; exact E|].
  destruct (ep_ops ep) as [tbl|]; [|right; left; reflexivity].
  pose proof (match_from_spec tbl 0 (memory ep) a) as H.
  destruct (match_from tbl 0 (memory ep) a) as [i|].
  - destruct H as (k & o & -> & Hk & Hm & Hf). split; [exact E|].
    change (0 + k)%nat with k. exists tbl, o.
    split; [reflexivity|]. split; [exact Hk|]. split; [exact Hm | exact Hf].
  - right; right. exists tbl. split; [reflexivity | exact H].
Qed.

Lemma find_service_from_spec (l : list apple_epic_service) (i : nat)
    (ch : Z) :
  match find_service_from l i ch with
  | Some j =>
      exists k s, j = (i + k)%nat /\ l !! k = Some s /\ serves s ch
        /\ forall k' s', (k' < k)%nat -> l !! k' = Some s' -> ~ serves s' ch
  | None => forall k s, l !! k = Some s -> ~ serves s ch
  end.
Proof.
  assert (Hs : forall s, enabled s && (channel s =? ch) = true <-> serves s ch).
  { intros s. unfold serves. rewrite andb_true_iff, Z.eqb_eq. reflexivity. }
  revert i; induction l as [|s l IH]; intros i; cbn [find_service_from].
  - intros k s' H. destruct k; discriminate H.
  - destruct (enabled s && (channel s =? ch)) eqn:E.
    + exists 0%nat, s. split; [lia|]. split; [reflexivity|].
      split; [apply Hs, E|]. intros k' s' Hk. lia.
    + assert (Hno : ~ serves s ch).
      { intros H. apply Hs in H. congruence. }
      specialize (IH (S i)). destruct (find_service_from l (S i) ch) as [j|].
      * destruct IH as (k & s' & -> & Hk & Hm & Hf).
        exists (S k), s'. split; [lia|]. split; [exact Hk|].
        split; [exact Hm|]. intros [|k'] s'' Hlt Hl.
        -- cbn in Hl. injection Hl as <-. exact Hno.
        -- apply (Hf k' s''); [lia | exact Hl].
      * intros [|k] s' Hl.
        -- cbn in Hl. injection Hl as <-. exact Hno.
        -- apply (IH k s'). exact Hl.
Qed.

Lemma afk_epic_find_service_Some (ep : apple_dcp_afkep) (ch : Z) (i : nat) :
  afk_epic_find_service ep ch = Some i ->
  Z.of_nat i < num_channels ep
  /\ exists s,
       services ep !! i = Some s /\ serves s ch
       /\ forall j s', (j < i)%nat -> services ep !! j = Some s' ->
            ~ serves s' ch.
Proof.
  unfold afk_epic_find_service. intros E.
  pose proof (find_service_from_spec
                (take (Z.to_nat (num_channels ep)) (services ep)) 0 ch) as H.
  rewrite E in H. destruct H as (k & s & -> & Hk & Hm & Hf).
  change (0 + k)%nat with k.
  apply lookup_take_Some in Hk. destruct Hk as [Hk Hlt].
  split; [lia|]. exists s. split; [exact Hk|]. split; [exact Hm|].
  intros j s' Hj Hl. apply (Hf j s'); [exact Hj|].
  apply lookup_take_Some. split; [exact Hl | lia].
Qed.

Lemma afk_epic_find_service_None (ep : apple_dcp_afkep) (ch : Z) :
  afk_epic_find_service ep ch = None ->
  forall j s, Z.of_nat j < num_channels ep ->
    services ep !! j = Some s -> ~ serves s ch.
Proof.
  unfold afk_epic_find_service. intros E.
  pose proof (find_service_from_spec
                (take (Z.to_nat (num_channels ep)) (services ep)) 0 ch) as H.
  rewrite E in H. intros j s Hj Hl. apply (H j s). apply lookup_take_Some.
  split; [exact Hl | lia].
Qed.

(** X2.  [afk_epic_find_service] returns the first of the
    [num_channels] registered services that is enabled on the channel, and
    nothing exactly when none of them is. *)
Theorem afk_epic_find_service_first (ep : apple_dcp_afkep) (ch : Z) :
  match afk_epic_find_service ep ch with
  | Some i =>
      Z.of_nat i < num_channels ep
      /\ exists s,
           services ep !! i = Some s /\ serves s ch
           /\ forall j s', (j < i)%nat -> services ep !! j = Some s' ->
                ~ serves s' ch
  | None =>
      forall j s, Z.of_nat j < num_channels ep ->
        services ep !! j = Some s -> ~ serves s ch
  end.
Proof.
  destruct (afk_epic_find_service ep ch) as [i|] eqn:E.
  - apply afk_epic_find_service_Some, E.
  - apply afk_epic_find_service_None, E.
Qed.

Lemma find_service_from_app (l1 l2 : list apple_epic_service) (i : nat)
    (ch : Z) :
  find_service_from (l1 ++ l2) i ch
  = match find_service_from l1 i ch with
    | Some j => Some j
    | None => find_service_from l2 (i + length l1) ch
    end.
Proof.
  revert i; induction l1 as [|s l1 IH]; intros i;
    cbn [app find_service_from length].
  - rewrite Nat.add_0_r. reflexivity.
  - destruct (enabled s && (channel s =? ch)); [reflexivity|].
    rewrite IH.
    replace (S i + length l1)%nat with (i + S (length l1))%nat by lia.
    reflexivity.
Qed.

(** Replacing a service that does not serve [ch] by another that does
    not serve it either leaves the lookup of [ch] as it was. *)
Lemma find_service_from_insert_other (l : list apple_epic_service)
    (n si i : nat) (s' : apple_epic_service) (ch : Z) :
  (forall s, l !! si = Some s -> enabled s && (channel s =? ch) = false) ->
  enabled s' && (channel s' =? ch) = false ->
  find_service_from (take n (<[si := s']> l)) i ch
  = find_service_from (take n l) i ch.
Proof.
  revert n si i. induction l as [|s l IH]; intros n si i H H'; [reflexivity|].
  destruct n as [|n]; [reflexivity|].
  destruct si as [|si].
  - change (<[0%nat := s']> (s :: l)) with (s' :: l).
    cbn [take firstn find_service_from].
    rewrite H', (H s eq_refl). reflexivity.
  - change (<[S si := s']> (s :: l)) with (s :: <[si := s']> l).
    cbn [take firstn find_service_from]. rewrite IH; [reflexivity | | exact H'].
    intros s0 Hs0. apply H. exact Hs0.
Qed.

(** What [afk_recv_handle_teardown] leaves in the service table. *)
Lemma services_afk_recv_handle_teardown (ep : apple_dcp_afkep) (ch : Z)
    (si : nat) :
  afk_epic_find_service ep ch = Some si ->
  let ep' := afk_recv_handle_teardown ep ch in
  services ep' = <[si := set_enabled (service_at ep si) false]> (services ep)
  /\ num_channels ep' = num_channels ep
  /\ memory ep' = memory ep.
Proof.
  intros H ep'. subst ep'. unfold afk_recv_handle_teardown. rewrite H.
  cbv zeta. cbn [ep_ops set_service set_services].
  destruct (ep_ops ep) as [tbl|]; [|repeat split; reflexivity].
  destruct (teardown _); repeat split; reflexivity.
Qed.

(** X3.  A teardown for a channel that has a service disables that
    service and nothing else: the other services and [num_channels] stay
    as they were, so the table slot is not given back.  A later lookup of
    the channel can only find a service registered after the one torn
    down, and the lookup of every other channel is unchanged. *)
Theorem afk_recv_handle_teardown_disables (ep : apple_dcp_afkep) (ch : Z)
    (si : nat) :
  afk_epic_find_service ep ch = Some si ->
  let ep' := afk_recv_handle_teardown ep ch in
  service_at ep' si = set_enabled (service_at ep si) false
  /\ (forall j, j <> si -> service_at ep' j = service_at ep j)
  /\ num_channels ep' = num_channels ep
  /\ (forall j, afk_epic_find_service ep' ch = Some j -> (si < j)%nat)
  /\ (forall ch', ch' <> ch ->
        afk_epic_find_service ep' ch' = afk_epic_find_service ep ch').
Proof.
  intros H ep'.
  destruct (services_afk_recv_handle_teardown ep ch si H) as (Hsv & Hn & _).
  fold ep' in Hsv, Hn.
  destruct (afk_epic_find_service_Some ep ch si H)
    as (Hlt & s & Hs & [Hen Hch] & Hfirst).
  assert (Hlen : (si < length (services ep))%nat)
    by (apply lookup_lt_is_Some; eexists; exact Hs).
  split; [|split; [|split; [exact Hn|split]]].
  - unfold service_at at 1. rewrite Hsv, list_lookup_insert_eq by exact Hlen.
    reflexivity.
  - intros j Hj. unfold service_at. rewrite Hsv.
    rewrite list_lookup_insert_ne by congruence. reflexivity.
  - intros j Hf.
    destruct (afk_epic_find_service_Some ep' ch j Hf)
      as (_ & s' & Hs' & [Hen' Hch'] & _).
    rewrite Hsv in Hs'.
    destruct (Nat.lt_trichotomy j si) as [Hc|[Hc|Hc]]; [| |exact Hc].
    + rewrite list_lookup_insert_ne in Hs' by lia.
      exfalso. apply (Hfirst j s' Hc Hs'). split; assumption.
    + subst j. rewrite list_lookup_insert_eq in Hs' by exact Hlen.
      injection Hs' as <-. discriminate Hen'.
  - intros ch' Hne. unfold afk_epic_find_service. rewrite Hsv, Hn.
    apply find_service_from_insert_other.
    + intros s0 Hs0. rewrite Hs in Hs0. injection Hs0 as <-.
      rewrite Hch. destruct (Z.eqb_spec ch ch'); [congruence|].
      apply andb_false_r.
    + reflexivity.
Qed.

Lemma afk_recv_handle_teardown_disables_witness :
  afk_epic_find_service Sample.ep_busy 5 = Some 0%nat
  /\ enabled (service_at (afk_recv_handle_teardown Sample.ep_busy 5) 0)
     = false
  /\ afk_epic_find_service (afk_recv_handle_teardown Sample.ep_busy 5) 5
     = None.
Proof.
  assert (H : afk_epic_find_service Sample.ep_busy 5 = Some 0%nat)
    by (vm_compute; reflexivity).
  destruct (afk_recv_handle_teardown_disables Sample.ep_busy 5 0 H)
    as (H1 & _).
  split; [exact H|]. split; [rewrite H1; reflexivity|].
  vm_compute. reflexivity.
Defined.

(** ** Service announcement *)

(** X4.  An AOP announce that holds a whole service record, finds room
    and matches a name appends one enabled service at index
    [num_channels], for the channel named in the record, with command tag
    0.  The services registered before keep their entries, and a lookup
    finds what it found before, or the new service when its channel had
    none. *)
Theorem apple_aop_recv_handle_init_lookup (abi : afk_abi)
    (ep : apple_dcp_afkep) (subtype ch payload payload_size : Z) (o : nat) :
  Aop.sizeof_aop_epic_service_init <= payload_size ->
  0 <= num_channels ep < AFK_MAX_CHANNEL abi ->
  (Z.to_nat (num_channels ep) < length (services ep))%nat ->
  afk_match_service ep (payload + Aop.prop_name) = Some o ->
  let ep' :=
    Aop.apple_aop_recv_handle_init abi ep subtype ch payload payload_size in
  let n := Z.to_nat (num_channels ep) in
  let pch := load_le (memory ep) (payload + Aop.prop_channel) 4 in
  num_channels ep' = num_channels ep + 1
  /\ serves (service_at ep' n) pch
  /\ ops (service_at ep' n) = o
  /\ cmd_tag (service_at ep' n) = 0
  /\ (forall j, j <> n -> service_at ep' j = service_at ep j)
  /\ forall ch',
       afk_epic_find_service ep' ch'
       = match afk_epic_find_service ep ch' with
         | Some i => Some i
         | None => if ch' =? pch then Some n else None
         end.
Proof.
  intros Hsz Hcap Hlen Hm ep' n pch. subst ep'.
  unfold Aop.apple_aop_recv_handle_init.
  destruct (Z.ltb_spec payload_size Aop.sizeof_aop_epic_service_init); [lia|].
  destruct (Z.geb_spec (num_channels ep) (AFK_MAX_CHANNEL abi)); [lia|].
  rewrite Hm. cbv zeta. fold n pch.
  set (s' := Build_apple_epic_service _ _ _ _ _ _).
  assert (Hat : service_at
                  (set_service (set_num_channels ep (num_channels ep + 1)) n
                     s') n
                = s').
  { apply service_at_set_service. exact Hlen. }
  split; [reflexivity|]. rewrite Hat.
  split; [split; reflexivity|]. split; [reflexivity|]. split; [reflexivity|].
  split.
  - intros j Hj. unfold service_at, set_service.
    cbn [services set_services set_num_channels].
    rewrite list_lookup_insert_ne by congruence. reflexivity.
  - intros ch'. unfold afk_epic_find_service, set_service.
    cbn [services num_channels set_services set_num_channels].
    replace (Z.to_nat (num_channels ep + 1)) with (S n) by (unfold n; lia).
    rewrite (take_S_r _ n s') by (apply list_lookup_insert_eq; exact Hlen).
    rewrite take_insert_ge by lia.
    rewrite find_service_from_app. fold n.
    destruct (find_service_from (take n (services ep)) 0 ch'); [reflexivity|].
    cbn [find_service_from]. unfold s'. cbn [enabled channel andb].
    rewrite length_take. rewrite Nat.min_l by lia.
    rewrite (Z.eqb_sym pch ch'). destruct (ch' =? pch); reflexivity.
Qed.

Lemma apple_aop_recv_handle_init_lookup_witness :
  afk_epic_find_service
    (Aop.apple_aop_recv_handle_init asahi_abi Sample.ep_announce 0xc0 7
       0x30028 44) 5
  = Some 0%nat
  /\ afk_epic_find_service
       (Aop.apple_aop_recv_handle_init asahi_abi Sample.ep_announce 0xc0 7
          0x30028 44) 9
     = None.
Proof.
  assert (Hm : afk_match_service Sample.ep_announce (0x30028 + Aop.prop_name)
               = Some 0%nat) by (vm_compute; reflexivity).
  destruct (apple_aop_recv_handle_init_lookup asahi_abi Sample.ep_announce
              0xc0 7 0x30028 44 0
              ltac:(vm_compute; discriminate)
              ltac:(vm_compute; split; [discriminate | reflexivity])
              ltac:(vm_compute; lia) Hm)
    as (_ & _ & _ & _ & _ & Hf).
  split; rewrite Hf; vm_compute; reflexivity.
Defined.

(** X5.  The AOP announce handler either registers exactly one service,
    touching neither memory nor the event log, or returns the endpoint as
    it was.  It registers exactly when the payload holds a whole service
    record, the table has room and the name matches an entry. *)
Theorem apple_aop_recv_handle_init_registers_iff (abi : afk_abi)
    (ep : apple_dcp_afkep) (subtype ch payload payload_size : Z) :
  let ep' :=
    Aop.apple_aop_recv_handle_init abi ep subtype ch payload payload_size in
  let fits :=
    Aop.sizeof_aop_epic_service_init <= payload_size
    /\ num_channels ep < AFK_MAX_CHANNEL abi
    /\ afk_match_service ep (payload + Aop.prop_name) <> None in
  (fits /\ num_channels ep' = num_channels ep + 1
   /\ memory ep' = memory ep /\ events ep' = events ep)
  \/ (~ fits /\ ep' = ep).
Proof.
  intros ep' fits. subst ep' fits. unfold Aop.apple_aop_recv_handle_init.
  destruct (Z.ltb_spec payload_size Aop.sizeof_aop_epic_service_init);
    [right; split; [lia | reflexivity]|].
  destruct (Z.geb_spec (num_channels ep) (AFK_MAX_CHANNEL abi));
    [right; split; [lia | reflexivity]|].
  destruct (afk_match_service ep (payload + Aop.prop_name)) as [o|].
  - left. repeat split; try reflexivity; try lia. discriminate.
  - right. split; [|reflexivity]. intros (_ & _ & H'). apply H'. reflexivity.
Qed.

(** ** Mailbox words *)

Lemma FIELD_PREP_spec (hi lo v : Z) :
  0 <= lo <= hi ->
  FIELD_PREP (GENMASK hi lo) v = (v mod 2 ^ (hi - lo + 1)) * 2 ^ lo.
Proof.
  intros H. unfold FIELD_PREP, bf_mask. cbn [bf_hi bf_lo].
  rewrite <- Z.shiftl_land, Z.land_ones, Z.shiftl_mul_pow2 by lia.
  reflexivity.
Qed.

Lemma FIELD_GET_lor (f : bitfield) (a b : Z) :
  FIELD_GET f (Z.lor a b) = Z.lor (FIELD_GET f a) (FIELD_GET f b).
Proof.
  unfold FIELD_GET. rewrite Z.land_lor_distr_l, Z.shiftr_lor. reflexivity.
Qed.

Lemma FIELD_GET_PREP (hi lo v : Z) :
  0 <= lo <= hi ->
  FIELD_GET (GENMASK hi lo) (FIELD_PREP (GENMASK hi lo) v)
  = v mod 2 ^ (hi - lo + 1).
Proof.
  intros H. rewrite FIELD_GET_spec, FIELD_PREP_spec by lia.
  assert (0 < 2 ^ lo) by (apply Z.pow_pos_nonneg; lia).
  assert (0 < 2 ^ (hi - lo + 1)) by (apply Z.pow_pos_nonneg; lia).
  rewrite Z.div_mul by lia. apply Z.mod_mod. lia.
Qed.

(** A field prepared below another one does not show in it. *)
Lemma FIELD_GET_PREP_below (hi lo hi' lo' v : Z) :
  0 <= lo' <= hi' -> hi' < lo -> lo <= hi ->
  FIELD_GET (GENMASK hi lo) (FIELD_PREP (GENMASK hi' lo') v) = 0.
Proof.
  intros H1 H2 H3. rewrite FIELD_GET_spec, FIELD_PREP_spec by lia.
  assert (Hp : 0 < 2 ^ lo') by (apply Z.pow_pos_nonneg; lia).
  pose proof (Z.mod_pos_bound v (2 ^ (hi' - lo' + 1))
                ltac:(apply Z.pow_pos_nonneg; lia)) as Hb.
  assert (Hlt : v mod 2 ^ (hi' - lo' + 1) * 2 ^ lo' < 2 ^ lo).
  { apply Z.lt_le_trans with (2 ^ (hi' - lo' + 1) * 2 ^ lo'); [nia|].
    rewrite <- Z.pow_add_r by lia. apply Z.pow_le_mono_r; lia. }
  rewrite Z.div_small by nia. apply Z.mod_0_l.
  apply Z.pow_nonzero; lia.
Qed.

(** Nor does a field prepared above it. *)
Lemma FIELD_GET_PREP_above (hi lo hi' lo' v : Z) :
  0 <= lo <= hi -> hi < lo' -> lo' <= hi' ->
  FIELD_GET (GENMASK hi lo) (FIELD_PREP (GENMASK hi' lo') v) = 0.
Proof.
  intros H1 H2 H3. rewrite FIELD_GET_spec, FIELD_PREP_spec by lia.
  set (x := v mod 2 ^ (hi' - lo' + 1)).
  replace (2 ^ lo')
    with (2 ^ (lo' - hi - 1) * 2 ^ (hi - lo + 1) * 2 ^ lo)
    by (rewrite <- !Z.pow_add_r by lia; f_equal; lia).
  rewrite !Z.mul_assoc, Z.div_mul by (apply Z.pow_nonzero; lia).
  apply Z.mod_mul. apply Z.pow_nonzero; lia.
Qed.

(** A message made of a type and of one field below bit 48 decodes to
    both. *)
Lemma rbep_message_decode (hi t v : Z) :
  0 <= hi < 48 ->
  let message :=
    Z.lor (FIELD_PREP RBEP_TYPE t) (FIELD_PREP (GENMASK hi 0) v) in
  FIELD_GET RBEP_TYPE message = t mod 2 ^ 16
  /\ FIELD_GET (GENMASK hi 0) message = v mod 2 ^ (hi + 1).
Proof.
  intros H message. subst message. unfold RBEP_TYPE. rewrite !FIELD_GET_lor.
  rewrite !FIELD_GET_PREP by lia.
  rewrite FIELD_GET_PREP_below by lia.
  rewrite FIELD_GET_PREP_above by lia.
  rewrite Z.lor_0_r, Z.lor_0_l. rewrite Z.sub_0_r. split; reflexivity.
Qed.

(** ** Buffer negotiation, continued *)

(** X6.  On an endpoint without a staging buffer, [GETBUF] asks the
    allocator for 64 times the size field of the message.  If the
    allocation fails nothing is sent and the endpoint still has no buffer;
    otherwise the endpoint records the buffer, its size and the tag of the
    message, and sends one [GETBUF_ACK] whose address field holds the low
    48 bits of the device address. *)
Theorem afk_getbuf_allocates (alloc : list event -> Z -> Z * Z)
    (ep : apple_dcp_afkep) (message p dma : Z) :
  let size := 64 * FIELD_GET GETBUF_SIZE message in
  bfr ep = 0 ->
  alloc (events ep) size = (p, dma) ->
  let ep' := afk_getbuf alloc ep message in
  (p = 0 ->
     bfr ep' = 0 /\ bfr_size ep' = bfr_size ep /\ bfr_tag ep' = bfr_tag ep
     /\ events ep' = events ep ++ [EvDmaAlloc size])
  /\ (p <> 0 ->
        bfr ep' = p /\ bfr_dma ep' = dma /\ bfr_size ep' = size
        /\ bfr_tag ep' = FIELD_GET GETBUF_TAG message
        /\ exists reply,
             events ep' = events ep ++ [EvDmaAlloc size; EvSend reply]
             /\ FIELD_GET RBEP_TYPE reply = RBEP_GETBUF_ACK
             /\ FIELD_GET GETBUF_ACK_DVA reply = dma mod 2 ^ 48).
Proof.
  intros size Hb Ha ep'. subst ep'. unfold afk_getbuf.
  assert (Hsz : u32 (Z.shiftl (FIELD_GET GETBUF_SIZE message) BLOCK_SHIFT)
                = size).
  { unfold size, GETBUF_SIZE, BLOCK_SHIFT. rewrite FIELD_GET_spec by lia.
    rewrite Z.shiftl_mul_pow2 by lia.
    pose proof (Z.mod_pos_bound (message / 2 ^ 16) (2 ^ (31 - 16 + 1))
                  ltac:(lia)) as Hr.
    change (31 - 16 + 1) with 16 in *. rewrite u32_small by lia. lia. }
  assert (Htag : u16 (FIELD_GET GETBUF_TAG message)
                 = FIELD_GET GETBUF_TAG message).
  { unfold GETBUF_TAG. rewrite FIELD_GET_spec by lia. unfold u16.
    change (15 - 0 + 1) with 16. apply Z.mod_mod. lia. }
  rewrite Hsz, Htag, Hb. change (negb (0 =? 0)) with false. cbv iota.
  rewrite Ha.
  split; intros Hp.
  - subst p. change (0 =? 0) with true. cbv iota.
    cbn [bfr bfr_size bfr_tag events log_event].
    repeat split; try reflexivity. exact Hb.
  - destruct (Z.eqb_spec p 0) as [|_]; [contradiction|].
    cbn [bfr bfr_dma bfr_size bfr_tag events afk_send log_event set_bfr
         set_bfr_size_tag].
    split; [reflexivity|]. split; [reflexivity|]. split; [reflexivity|].
    split; [reflexivity|].
    eexists. split; [rewrite <- app_assoc; reflexivity|].
    unfold GETBUF_ACK_DVA.
    destruct (rbep_message_decode 47 RBEP_GETBUF_ACK dma ltac:(lia))
      as [H1 H2].
    split; [exact H1 | exact H2].
Qed.

Lemma afk_getbuf_allocates_witness :
  bfr (afk_getbuf Sample.page_alloc ep_fresh 0x0089000000400007) = 0x20000
  /\ bfr_size (afk_getbuf Sample.page_alloc ep_fresh 0x0089000000400007)
     = 0x1000.
Proof.
  destruct (afk_getbuf_allocates Sample.page_alloc ep_fresh
              0x0089000000400007 0x20000 0x90000000
              ltac:(reflexivity) ltac:(vm_compute; reflexivity))
    as [_ H].
  destruct (H ltac:(discriminate)) as (H1 & _ & H3 & _).
  split; [exact H1 | exact H3].
Defined.

(** ** Ring announcement, continued *)

(** X7.  A ring that an [INIT_TX] / [INIT_RX] message makes ready has
    the accepted shape, lies inside the staging buffer from its header to
    the end of its body, and has the body size found in its first header
    block. *)
Theorem afk_init_rxtx_ring_in_bfr (ep : apple_dcp_afkep) (message : Z)
    (d : direction) :
  bytes_ok (memory ep) ->
  ready (ring ep d) = false ->
  ready (ring (afk_init_rxtx ep message d) d) = true ->
  let b := ring (afk_init_rxtx ep message d) d in
  rb_ok b
  /\ bfr ep <= hdr b
  /\ buf b + bufsz b <= bfr ep + bfr_size ep
  /\ bufsz b = load_le (memory ep) (hdr b) 4.
Proof.
  intros Hm Hnr Hrd b.
  split; [apply afk_init_rxtx_rb_ok; assumption|].
  destruct (afk_init_rxtx_accepted ep message d Hm Hnr Hrd)
    as (Hb & _ & Hw1 & Hw2 & Hl1 & _).
  cbv zeta in Hb. fold b in Hb.
  destruct (initrb_base_range message) as [Hbr _].
  rewrite Hb. cbn [hdr buf bufsz].
  split; [lia|]. split; [lia | reflexivity].
Qed.

Lemma afk_init_rxtx_ring_in_bfr_witness :
  rb_ok (ring (afk_init_rxtx Sample.ep_staged 0x008a000000050007 TX) TX).
Proof.
  exact (proj1 (afk_init_rxtx_ring_in_bfr Sample.ep_staged
                  0x008a000000050007 TX bytes_ok_mem0
                  ltac:(reflexivity) ltac:(vm_compute; reflexivity))).
Defined.

Lemma events_set_ring (ep : apple_dcp_afkep) (d : direction)
    (b : afk_ringbuffer) :
  events (set_ring ep d b) = events ep /\ memory (set_ring ep d b) = memory ep
  /\ ring (set_ring ep d b) (opposite d) = ring ep (opposite d).
Proof. destruct d; repeat split; reflexivity. Qed.

(** X8.  [afk_init_rxtx] sends [START] exactly when it makes its ring
    ready and the other ring is ready already; in every other case it
    sends nothing.  It writes no memory and leaves the other ring as it
    was. *)
Theorem afk_init_rxtx_start (ep : apple_dcp_afkep) (message : Z)
    (d : direction) :
  let ep' := afk_init_rxtx ep message d in
  let accepted := negb (ready (ring ep d)) && ready (ring ep' d) in
  events ep'
  = (if accepted && ready (ring ep (opposite d))
     then events ep ++ [EvSend (FIELD_PREP RBEP_TYPE RBEP_START)]
     else events ep)
  /\ memory ep' = memory ep
  /\ ring ep' (opposite d) = ring ep (opposite d).
Proof.
  intros ep' accepted. subst ep' accepted. unfold afk_init_rxtx.
  cbv zeta.
  destruct (ready (ring ep d)) eqn:Hr.
  { destruct (negb _); repeat split; reflexivity. }
  cbn [negb andb].
  assert (Hrej : forall h,
            let e := set_ring ep d (set_hdr (ring ep d) h) in
            events e
            = (if ready (ring e d) && ready (ring ep (opposite d))
               then events ep ++ [EvSend (FIELD_PREP RBEP_TYPE RBEP_START)]
               else events ep)
            /\ memory e = memory ep
            /\ ring e (opposite d) = ring ep (opposite d)).
  { intros h e. subst e. rewrite ring_set_ring. cbn [ready set_hdr].
    rewrite Hr. cbn [andb].
    destruct (events_set_ring ep d (set_hdr (ring ep d) h)) as (E1 & E2 & E3).
    repeat split; assumption. }
  destruct (negb _); [rewrite Hr; repeat split; reflexivity|].
  destruct (_ >=? _); [rewrite Hr; repeat split; reflexivity|].
  destruct (_ >? _); [rewrite Hr; repeat split; reflexivity|].
  destruct (_ <=? _); [apply Hrej|].
  destruct (negb _); [apply Hrej|].
  destruct (_ || _); [apply Hrej|].
  set (e1 := set_ring ep d _).
  set (b2 := Build_afk_ringbuffer _ _ _ _ _).
  destruct (events_set_ring ep d (set_hdr (ring ep d)
              (bfr ep + u32 (Z.shiftl (FIELD_GET INITRB_OFFSET message)
                                      BLOCK_SHIFT)))) as (E1 & E2 & E3).
  fold e1 in E1, E2, E3.
  destruct (events_set_ring e1 d b2) as (F1 & F2 & F3).
  assert (Hboth : ready (rxbfr (set_ring e1 d b2))
                  && ready (txbfr (set_ring e1 d b2))
                  = ready (ring ep (opposite d))).
  { rewrite <- E3, <- F3.
    destruct d; cbn [set_ring ring opposite rxbfr txbfr set_txbfr set_rxbfr
                     ready b2].
    - apply andb_true_r.
    - reflexivity. }
  rewrite Hboth.
  destruct (ready (ring ep (opposite d))) eqn:Ho.
  - rewrite ring_afk_send, ring_set_ring. cbn [ready b2 andb].
    rewrite ring_afk_send.
    cbn [events memory afk_send log_event].
    rewrite F1, F2, F3, E1, E2, E3. repeat split; reflexivity.
  - rewrite ring_set_ring. cbn [ready b2 andb].
    rewrite F1, F2, F3, E1, E2, E3. repeat split; reflexivity.
Qed.

(** ** Ring pointers *)

(** X9.  In a ring whose header blocks are at least four bytes long,
    the read and the write pointer read back as the 32-bit value stored,
    and storing one of them leaves the other and the body-size word
    alone. *)
Theorem afk_rb_pointers_independent (m : mem) (b : afk_ringbuffer)
    (rptr wptr : Z) :
  4 <= blksz b ->
  afk_rb_get_rptr (afk_rb_set_rptr m b rptr) b = u32 rptr
  /\ afk_rb_get_wptr (afk_rb_set_wptr m b wptr) b = u32 wptr
  /\ afk_rb_get_wptr (afk_rb_set_rptr m b rptr) b = afk_rb_get_wptr m b
  /\ afk_rb_get_rptr (afk_rb_set_wptr m b wptr) b = afk_rb_get_rptr m b
  /\ load_le (afk_rb_set_rptr m b rptr) (hdr b) 4 = load_le m (hdr b) 4
  /\ load_le (afk_rb_set_wptr m b wptr) (hdr b) 4 = load_le m (hdr b) 4.
Proof.
  intros H.
  unfold afk_rb_get_rptr, afk_rb_get_wptr, afk_rb_set_rptr, afk_rb_set_wptr.
  rewrite !load_le_store. change (256 ^ Z.of_nat 4) with (2 ^ 32).
  split; [reflexivity|]. split; [reflexivity|].
  unfold load_le.
  repeat split; f_equal; apply load_store_other; rewrite length_le_bytes;
    lia.
Qed.

Lemma afk_rb_pointers_independent_witness :
  afk_rb_get_wptr (afk_rb_set_rptr Sample.mem0 Sample.tx_ring 0x40)
    Sample.tx_ring
  = afk_rb_get_wptr Sample.mem0 Sample.tx_ring.
Proof.
  destruct (afk_rb_pointers_independent Sample.mem0 Sample.tx_ring 0x40 0
              ltac:(vm_compute; discriminate)) as (_ & _ & H & _).
  exact H.
Defined.

(** ** Receiving: the read pointer *)

Lemma ALIGN_64_mult (bits x : Z) :
  6 <= bits -> ALIGN bits x (Z.shiftl 1 BLOCK_SHIFT) mod 64 = 0.
Proof.
  intros H. unfold ALIGN. change (Z.shiftl 1 BLOCK_SHIFT - 1) with (Z.ones 6).
  change 64 with (2 ^ 6). rewrite <- !Z.land_ones by lia.
  apply Z.bits_inj'. intros n Hn. rewrite !Z.land_spec, Z.bits_0.
  destruct (Z.ltb_spec n 6).
  - rewrite (Z.ones_spec_low 6 n) by lia.
    rewrite (Z.ones_spec_low bits n) by lia.
    rewrite Z.lnot_spec by lia. rewrite (Z.ones_spec_low 6 n) by lia.
    cbn. rewrite !andb_false_r. reflexivity.
  - rewrite (Z.ones_spec_high 6 n) by lia. apply andb_false_r.
Qed.

Lemma mod_64_u32 (x : Z) : x mod 64 = 0 -> u32 x mod 64 = 0.
Proof.
  intros H. unfold u32.
  rewrite (Z.mod_mod_divide x (2 ^ 32) 64) by (exists (2 ^ 26); reflexivity).
  exact H.
Qed.

(** X10.  Up to the call of the handler, [afk_recv] changes nothing of
    the endpoint but memory, and of memory at most the four bytes of the
    read pointer. *)
Theorem afk_recv_qe_writes_rptr_only (abi : afk_abi) (ep : apple_dcp_afkep) :
  let rx := rxbfr ep in
  exists m,
    fst (afk_recv_qe abi ep) = set_memory ep m
    /\ forall x,
         x < hdr rx + blksz rx \/ hdr rx + blksz rx + 4 <= x ->
         m x = memory ep x.
Proof.
  intros rx.
  assert (Hst : forall m v x,
            x < hdr rx + blksz rx \/ hdr rx + blksz rx + 4 <= x ->
            (forall y, y < hdr rx + blksz rx \/ hdr rx + blksz rx + 4 <= y ->
                       m y = memory ep y) ->
            afk_rb_set_rptr m rx v x = memory ep x).
  { intros m v x Hx Hm. unfold afk_rb_set_rptr.
    rewrite store_outside by (rewrite length_le_bytes; lia).
    apply Hm, Hx. }
  assert (Hid : ep = set_memory ep (memory ep)) by (destruct ep; reflexivity).
  unfold afk_recv_qe. fold rx. cbv zeta.
  destruct (negb (ready rx));
    [exists (memory ep); split; [exact Hid | reflexivity]|].
  destruct (_ =? _);
    [exists (memory ep); split; [exact Hid | reflexivity]|].
  destruct (_ >? _);
    [exists (memory ep); split; [exact Hid | reflexivity]|].
  destruct (negb (qe_magic_ok abi _));
    [exists (memory ep); split; [exact Hid | reflexivity]|].
  destruct (_ >? _).
  - cbv iota. cbn [andb].
    destruct (negb (qe_magic_ok abi _));
      [exists (memory ep); split; [exact Hid | reflexivity]|].
    cbn [memory set_memory rxbfr]. fold rx.
    destruct (_ >? _).
    + eexists. split; [reflexivity|]. intros x Hx. apply Hst; auto.
    + eexists. split; [reflexivity|]. intros x Hx.
      apply Hst; [exact Hx|]. intros y Hy. apply Hst; auto.
  - cbv iota. cbn [andb].
    destruct (_ >? _);
      [exists (memory ep); split; [exact Hid | reflexivity]|].
    eexists. split; [reflexivity|]. intros x Hx. apply Hst; auto.
Qed.

(** X11.  When [afk_recv] decodes a frame, the read pointer it
    publishes is a multiple of 64 below the body size, and the ring
    descriptor is as before. *)
Theorem afk_recv_qe_rptr_in_range (abi : afk_abi) (ep : apple_dcp_afkep)
    (f : frame) :
  snd (afk_recv_qe abi ep) = Some f ->
  let ep' := fst (afk_recv_qe abi ep) in
  let rptr' := afk_rb_get_rptr (memory ep') (rxbfr ep') in
  rxbfr ep' = rxbfr ep
  /\ 0 <= rptr' < bufsz (rxbfr ep)
  /\ rptr' mod 64 = 0.
Proof.
  intros H ep' rptr'. subst rptr' ep'. revert H.
  unfold afk_recv_qe. set (rx := rxbfr ep). cbv zeta.
  destruct (negb (ready rx)); [discriminate|].
  destruct (_ =? _); [discriminate|].
  destruct (_ >? _); [discriminate|].
  destruct (negb (qe_magic_ok abi _)); [discriminate|].
  set (wrap := _ >? _).
  set (r1 := if wrap then 0 else afk_rb_get_rptr (memory ep) rx).
  destruct (wrap && _); [discriminate|].
  set (ep1 := if wrap then _ else ep).
  assert (Hrx1 : rxbfr ep1 = rx) by (unfold ep1; destruct wrap; reflexivity).
  set (sz := load_le (memory ep) (buf rx + r1 + qe_size) 4).
  destruct (Z.gtb_spec (usize (u32 (r1 + sz) + sizeof_afk_qe)) (bufsz rx))
    as [|Hfit]; [discriminate|].
  intros _. cbn [fst memory set_memory rxbfr]. rewrite Hrx1.
  split; [reflexivity|].
  unfold afk_rb_get_rptr, afk_rb_set_rptr. rewrite load_le_store.
  change (256 ^ Z.of_nat 4) with (2 ^ 32).
  set (r0 := u32 (ALIGN 64 _ _)).
  assert (Hr0 : 0 <= r0 < 2 ^ 32) by (apply Z.mod_pos_bound; lia).
  assert (Hm0 : r0 mod 64 = 0)
    by (apply mod_64_u32, ALIGN_64_mult; lia).
  assert (Hb : 16 <= bufsz rx).
  { pose proof (Z.mod_pos_bound (r1 + sz) (2 ^ 32) ltac:(lia)) as Hu.
    fold (u32 (r1 + sz)) in Hu. unfold sizeof_afk_qe in Hfit.
    rewrite usize_small in Hfit by lia. lia. }
  destruct (Z.gtb_spec r0 (bufsz rx)).
  - destruct (Z.eqb_spec 0 (bufsz rx)); rewrite Z.mod_0_l by lia;
      split; first [lia | reflexivity].
  - destruct (Z.eqb_spec r0 (bufsz rx)).
    + rewrite Z.mod_0_l by lia. split; [lia | reflexivity].
    + rewrite Z.mod_small by lia. split; [lia | exact Hm0].
Qed.

Lemma afk_recv_qe_rptr_in_range_witness :
  afk_rb_get_rptr (memory (fst (afk_recv_qe asahi_abi ep_echo)))
    (rxbfr (fst (afk_recv_qe asahi_abi ep_echo)))
  mod 64 = 0.
Proof.
  destruct (afk_recv_qe_rptr_in_range asahi_abi ep_echo
              {| fr_channel := 5; fr_type := 0; fr_data := 0x100d0;
                 fr_size := 44 |}
              ltac:(vm_compute; reflexivity)) as (_ & _ & H).
  exact H.
Defined.

(** X12.  A frame that [afk_recv] decodes lies inside the body of the RX
    ring, behind its queue entry, provided the body size plus the size
    field of the entry is at most 2^32, so that the 32-bit sum of read
    pointer and size in the bounds check does not wrap. *)
Theorem afk_recv_qe_frame_in_body (abi : afk_abi) (ep : apple_dcp_afkep)
    (f : frame) :
  let rx := rxbfr ep in
  bytes_ok (memory ep) ->
  snd (afk_recv_qe abi ep) = Some f ->
  bufsz rx + fr_size f <= 2 ^ 32 ->
  0 <= fr_size f
  /\ buf rx + sizeof_afk_qe <= fr_data f
  /\ fr_data f + fr_size f <= buf rx + bufsz rx.
Proof.
  intros rx Hm H Hno. revert H. unfold afk_recv_qe. fold rx. cbv zeta.
  pose proof (fun a => load_le_range (memory ep) a 4 Hm) as Hrange.
  change (256 ^ Z.of_nat 4) with (2 ^ 32) in Hrange.
  destruct (negb (ready rx)); [discriminate|].
  destruct (_ =? _); [discriminate|].
  pose proof (Hrange (hdr rx + blksz rx * 1)) as Hr.
  fold (afk_rb_get_rptr (memory ep) rx) in Hr.
  set (rptr := afk_rb_get_rptr (memory ep) rx) in *.
  destruct (Z.gtb_spec rptr (usize (bufsz rx - sizeof_afk_qe))) as [|Hin];
    [discriminate|].
  destruct (negb (qe_magic_ok abi _)); [discriminate|].
  set (wrap := _ >? _).
  set (r1 := if wrap then 0 else rptr).
  destruct (wrap && _); [discriminate|].
  set (ep1 := if wrap then _ else ep).
  pose proof (Hrange (buf rx + r1 + qe_size)) as Hs.
  set (sz := load_le (memory ep) (buf rx + r1 + qe_size) 4) in *.
  pose proof (Z.mod_pos_bound (r1 + sz) (2 ^ 32) ltac:(lia)) as Hu.
  fold (u32 (r1 + sz)) in Hu. unfold sizeof_afk_qe in *.
  rewrite (usize_small (u32 (r1 + sz) + 16)) by lia.
  destruct (Z.gtb_spec (u32 (r1 + sz) + 16) (bufsz rx)) as [|Hfit];
    [discriminate|].
  intros H. cbn [snd] in H. injection H as <-.
  cbn [fr_size fr_data] in *. unfold qe_data.
  assert (Hb : 16 <= bufsz rx) by lia.
  rewrite (usize_small (bufsz rx - 16)) in Hin by lia.
  assert (Hr1 : 0 <= r1 <= bufsz rx - 16) by (unfold r1; destruct wrap; lia).
  rewrite (u32_small (r1 + sz)) in Hfit by lia.
  lia.
Qed.

Lemma afk_recv_qe_frame_in_body_witness :
  buf (rxbfr ep_inbox) + sizeof_afk_qe
  <= fr_data {| fr_channel := 5; fr_type := 0; fr_data := 0x104d0;
                fr_size := 44 |}
  /\ fr_data {| fr_channel := 5; fr_type := 0; fr_data := 0x104d0;
                fr_size := 44 |}
     + fr_size {| fr_channel := 5; fr_type := 0; fr_data := 0x104d0;
                  fr_size := 44 |}
     <= buf (rxbfr ep_inbox) + bufsz (rxbfr ep_inbox).
Proof.
  assert (Hb : bytes_ok (memory ep_inbox)).
  { apply bytes_ok_apply_stores; [apply bytes_ok_mem0|].
    apply List.Forall_cons; [|apply List.Forall_cons;
                               [apply le_bytes_bytes | apply List.Forall_nil]].
    unfold qe_image. cbn [snd].
    repeat (apply Forall_app; split); apply le_bytes_bytes. }
  destruct (afk_recv_qe_frame_in_body asahi_abi ep_inbox
              {| fr_channel := 5; fr_type := 0; fr_data := 0x104d0;
                 fr_size := 44 |}
              Hb ltac:(vm_compute; reflexivity)
              ltac:(vm_compute; discriminate)) as (_ & H1 & H2).
  split; [exact H1 | exact H2].
Defined.

(** ** Sending: the write pointer *)

Section SendPublish.

Variable abi : afk_abi.
Hypothesis Habi : abi_ok abi.

(** X13.  After a successful [afk_send_epic] on a ring of the accepted
    shape whose read pointer is at most the body size, the write pointer
    published in the header is a multiple of 64 below the body size, the
    sequence number has advanced by one modulo 2^16, and one message was
    sent: a [SEND] that carries that write pointer. *)
Theorem afk_send_epic_publishes (ep : apple_dcp_afkep)
    (ch t etype ecat stype : Z) (payload : list Z) :
  let tx := txbfr ep in
  rb_ok tx ->
  bytes_ok (memory ep) ->
  afk_rb_get_rptr (memory ep) tx <= bufsz tx ->
  Z.of_nat (length payload) < 2 ^ 63 ->
  fst (afk_send_epic abi ep ch t etype ecat stype payload) = 0 ->
  let ep' := snd (afk_send_epic abi ep ch t etype ecat stype payload) in
  let wptr' := afk_rb_get_wptr (memory ep') tx in
  0 <= wptr' < bufsz tx
  /\ wptr' mod 64 = 0
  /\ qe_seq ep' = u16 (qe_seq ep + 1)
  /\ exists message,
       events ep' = events ep ++ [EvSend message]
       /\ FIELD_GET RBEP_TYPE message = RBEP_SEND
       /\ FIELD_GET SEND_WPTR message = wptr'.
Proof.
  intros tx Hok Hm Hrb Hlen.
  pose proof Hok as [_ Hbk _ _ Hb0 Hb64 Hbmax].
  fold tx in Hbk, Hb0, Hb64, Hbmax.
  pose proof (ehdr_size_ok abi Habi) as Heh.
  pose proof (eshdr_size_ok abi Habi) as Hsh.
  pose proof (load_le_range (memory ep) (hdr tx + blksz tx * 1) 4 Hm) as Hr.
  pose proof (load_le_range (memory ep) (hdr tx + blksz tx * 2) 4 Hm) as Hw.
  change (256 ^ Z.of_nat 4) with (2 ^ 32) in Hr, Hw.
  fold (afk_rb_get_rptr (memory ep) tx) in Hr.
  fold (afk_rb_get_wptr (memory ep) tx) in Hw.
  set (n := Z.of_nat (length payload)) in *.
  assert (Hn : 0 <= n < 2 ^ 63) by (unfold n; lia).
  destruct (total_sizes abi n Habi Hn) as [Hepic Htotal].
  pose proof (afk_send_epic_place_spec abi Habi (bufsz tx)
                (afk_rb_get_rptr (memory ep) tx)
                (afk_rb_get_wptr (memory ep) tx) n Hr Hw
                ltac:(lia) Hn) as Hpl.
  cbv zeta in Hpl.
  unfold afk_send_epic. fold tx n. rewrite Htotal, Hepic.
  replace (sizeof_afk_qe + sizeof_epic_hdr abi + sizeof_epic_sub_hdr abi + n)
    with (sizeof_afk_qe
          + (sizeof_epic_hdr abi + sizeof_epic_sub_hdr abi + n)) by lia.
  set (rptr := afk_rb_get_rptr (memory ep) tx) in *.
  set (wptr := afk_rb_get_wptr (memory ep) tx) in *.
  set (epic := sizeof_epic_hdr abi + sizeof_epic_sub_hdr abi + n) in *.
  destruct (afk_send_epic_place (bufsz tx) rptr wptr epic
              (sizeof_afk_qe + epic)) as [[[h h2] w]|];
    [|cbn [fst]; unfold ENOMEM; discriminate].
  intros _. cbv zeta. cbn [snd].
  assert (Hend : 0 <= w /\ w + epic <= bufsz tx /\ 0 < bufsz tx).
  { inversion Hpl; subst; unfold sizeof_afk_qe in *; lia. }
  destruct Hend as (Hw0 & Hend & Hbpos).
  rewrite (u32_small (w + sizeof_epic_hdr abi)) by lia.
  rewrite (u32_small (w + sizeof_epic_hdr abi + sizeof_epic_sub_hdr abi))
    by lia.
  rewrite (u32_small (w + sizeof_epic_hdr abi + sizeof_epic_sub_hdr abi + n))
    by (unfold epic in Hend; lia).
  replace (w + sizeof_epic_hdr abi + sizeof_epic_sub_hdr abi + n)
    with (w + epic) by (unfold epic; lia).
  change (Z.shiftl 1 BLOCK_SHIFT) with (2 ^ 6).
  rewrite (ALIGN_spec 32 6 (w + epic)) by lia.
  change (2 ^ 6) with 64.
  set (q := (w + epic + (64 - 1)) / 64).
  assert (Hq : 0 <= 64 * q <= bufsz tx).
  { pose proof (Z.div_mod (bufsz tx) 64 ltac:(lia)) as Hd.
    rewrite Hb64 in Hd.
    assert (q < bufsz tx / 64 + 1)
      by (unfold q; apply Z.div_lt_upper_bound; lia).
    assert (0 <= q) by (unfold q; apply Z.div_pos; lia).
    lia. }
  set (wf := if 64 * q =? bufsz tx then 0 else 64 * q).
  assert (Hwf : 0 <= wf < bufsz tx /\ wf mod 64 = 0).
  { unfold wf. destruct (Z.eqb_spec (64 * q) (bufsz tx)).
    - split; [lia | reflexivity].
    - split; [lia|]. rewrite Z.mul_comm. apply Z.mod_mul. lia. }
  destruct Hwf as [Hwf Hwf64].
  cbn [memory qe_seq events afk_send log_event set_qe_seq set_memory].
  assert (Hget : afk_rb_get_wptr
                   (afk_rb_set_wptr
                      (apply_stores (memory ep)
                         (afk_send_epic_stores abi ep h h2 w ch t etype ecat
                            stype payload)) tx wf) tx = wf).
  { unfold afk_rb_get_wptr, afk_rb_set_wptr. rewrite load_le_store.
    change (256 ^ Z.of_nat 4) with (2 ^ 32). apply Z.mod_small. lia. }
  rewrite Hget.
  split; [exact Hwf|]. split; [exact Hwf64|]. split; [reflexivity|].
  eexists. split; [reflexivity|].
  destruct (rbep_message_decode 31 RBEP_SEND wf ltac:(lia)) as [H1 H2].
  split; [exact H1|]. unfold SEND_WPTR. rewrite H2.
  apply Z.mod_small. change (2 ^ (31 + 1)) with (2 ^ 32). lia.
Qed.

End SendPublish.

(** ** Sending: a ring filled to the read pointer *)

Section FullRing.

Variable abi : afk_abi.
Hypothesis Habi : abi_ok abi.

(** X29: [afk_send_epic] keeps no block of the ring free.  A frame that
    ends exactly at the read pointer, or at the end of the body while the
    read pointer stands at offset 0, is sent with success, and the write
    pointer it publishes is the read pointer: a reader at that read
    pointer finds the two pointers equal and takes the ring, full as it
    is, for empty. *)
Theorem afk_send_epic_fills_ring (ep : apple_dcp_afkep)
    (ch t etype ecat stype : Z) (payload : list Z) :
  let tx := txbfr ep in
  let rptr := afk_rb_get_rptr (memory ep) tx in
  let wptr := afk_rb_get_wptr (memory ep) tx in
  let total :=
    sizeof_afk_qe + sizeof_epic_hdr abi + sizeof_epic_sub_hdr abi
    + Z.of_nat (length payload) in
  rb_ok tx ->
  0 <= wptr ->
  (wptr < rptr < bufsz tx /\ rptr mod 64 = 0 /\ wptr + total = rptr)
  \/ (rptr = 0 /\ wptr + total = bufsz tx) ->
  let r := afk_send_epic abi ep ch t etype ecat stype payload in
  fst r = 0
  /\ afk_rb_get_wptr (memory (snd r)) tx = rptr
  /\ afk_recv_qe abi (loopback (snd r) rptr) = (loopback (snd r) rptr, None).
Proof.
  intros tx rptr wptr total Hok Hw0 Hcase r.
  pose proof Hok as [Hrd Hbk _ Hbuf Hb0 Hb64 Hbmax].
  fold tx in Hrd, Hbk, Hbuf, Hb0, Hb64, Hbmax.
  pose proof (ehdr_size_ok abi Habi) as Heh.
  pose proof (eshdr_size_ok abi Habi) as Hsh.
  set (n := Z.of_nat (length payload)) in *.
  assert (Hn0 : 0 <= n) by (unfold n; lia).
  set (eh := sizeof_epic_hdr abi) in *.
  set (sh := sizeof_epic_sub_hdr abi) in *.
  unfold sizeof_afk_qe in total.
  assert (Hend : wptr + total <= bufsz tx /\ 0 <= rptr < bufsz tx
                 /\ (wptr + total) mod 64 = 0
                 /\ (if wptr + total =? bufsz tx then 0 else wptr + total)
                    = rptr).
  { destruct Hcase as [(H1 & H2 & H3)|[H1 H2]].
    - rewrite H3. destruct (Z.eqb_spec rptr (bufsz tx)); [lia|].
      repeat split; first [lia | assumption].
    - rewrite H2, Z.eqb_refl. unfold total in *.
      repeat split; first [lia | assumption]. }
  destruct Hend as (Hend & Hr & H64 & Hwf).
  assert (Hn : 0 <= n < 2 ^ 63) by (unfold total in Hend; lia).
  destruct (total_sizes abi n Habi Hn) as [E1 E2]. fold eh sh in E1, E2.
  assert (Hp : afk_send_epic_place (bufsz tx) rptr wptr (eh + sh + n)
                 (16 + eh + sh + n)
               = Some (wptr, None, u32 (wptr + sizeof_afk_qe))).
  { unfold afk_send_epic_place, sizeof_afk_qe. fold total.
    rewrite (usize_small (wptr + total)) by (unfold total in *; lia).
    rewrite (usize_small (wptr + 16)) by (unfold total in *; lia).
    destruct Hcase as [(H1 & H2 & H3)|[H1 H2]].
    - destruct (Z.ltb_spec wptr rptr); [|lia].
      destruct (Z.gtb_spec (wptr + total) rptr); [lia | reflexivity].
    - destruct (Z.ltb_spec wptr rptr); [lia|].
      destruct (Z.gtb_spec (wptr + 16) (bufsz tx));
        [unfold total in *; lia|].
      destruct (Z.gtb_spec (wptr + total) (bufsz tx)); [lia | reflexivity]. }
  assert (Hal : ALIGN 32 (wptr + total) (Z.shiftl 1 BLOCK_SHIFT)
                = wptr + total).
  { change (Z.shiftl 1 BLOCK_SHIFT) with (2 ^ 6).
    rewrite (ALIGN_spec 32 6 (wptr + total))
      by (change (2 ^ 6) with 64; unfold total in *; lia).
    change (2 ^ 6) with 64.
    pose proof (Z.div_mod (wptr + total) 64 ltac:(lia)) as Hd.
    rewrite H64 in Hd.
    rewrite <- (Z.div_unique (wptr + total + (64 - 1)) 64
                  ((wptr + total) / 64) 63) by lia.
    lia. }
  assert (Hres : r = (0,
            afk_send
              (set_qe_seq
                 (set_memory ep
                    (afk_rb_set_wptr
                       (apply_stores (memory ep)
                          (afk_send_epic_stores abi ep wptr None
                             (u32 (wptr + sizeof_afk_qe)) ch t etype ecat
                             stype payload)) tx rptr))
                 (u16 (qe_seq ep + 1)))
              (Z.lor (FIELD_PREP RBEP_TYPE RBEP_SEND)
                 (FIELD_PREP SEND_WPTR rptr)))).
  { subst r. unfold afk_send_epic. fold tx rptr wptr n eh sh.
    rewrite E2, E1. change (sizeof_afk_qe + eh + sh + n)
      with (16 + eh + sh + n). rewrite Hp. cbv zeta.
    unfold sizeof_afk_qe.
    rewrite (u32_small (wptr + 16)) by (unfold total in *; lia).
    rewrite (u32_small (wptr + 16 + eh)) by (unfold total in *; lia).
    rewrite (u32_small (wptr + 16 + eh + sh)) by (unfold total in *; lia).
    rewrite (u32_small (wptr + 16 + eh + sh + n))
      by (unfold total in *; lia).
    replace (wptr + 16 + eh + sh + n) with (wptr + total)
      by (unfold total; lia).
    rewrite Hal, Hwf. reflexivity. }
  rewrite Hres. cbn [fst snd].
  assert (Hget : afk_rb_get_wptr
                   (memory
                      (afk_send
                         (set_qe_seq
                            (set_memory ep
                               (afk_rb_set_wptr
                                  (apply_stores (memory ep)
                                     (afk_send_epic_stores abi ep wptr None
                                        (u32 (wptr + sizeof_afk_qe)) ch t
                                        etype ecat stype payload)) tx rptr))
                            (u16 (qe_seq ep + 1)))
                         (Z.lor (FIELD_PREP RBEP_TYPE RBEP_SEND)
                            (FIELD_PREP SEND_WPTR rptr)))) tx = rptr).
  { cbn [memory afk_send log_event set_qe_seq set_memory].
    unfold afk_rb_get_wptr, afk_rb_set_wptr. rewrite load_le_store.
    change (256 ^ Z.of_nat 4) with (2 ^ 32). apply Z.mod_small. lia. }
  split; [reflexivity|]. split; [exact Hget|].
  set (ep1 := afk_send _ _) in *.
  assert (Htx : txbfr ep1 = tx) by reflexivity.
  unfold afk_recv_qe, loopback.
  cbn [rxbfr memory set_rxbfr set_memory]. rewrite Htx, Hrd. cbn [negb].
  assert (Hrp : afk_rb_get_rptr (afk_rb_set_rptr (memory ep1) tx rptr) tx
                = rptr).
  { unfold afk_rb_get_rptr, afk_rb_set_rptr. rewrite load_le_store.
    change (256 ^ Z.of_nat 4) with (2 ^ 32). apply Z.mod_small. lia. }
  assert (Hwp : afk_rb_get_wptr (afk_rb_set_rptr (memory ep1) tx rptr) tx
                = rptr).
  { rewrite <- Hget at 2. unfold afk_rb_get_wptr, afk_rb_set_rptr, load_le.
    f_equal. apply load_store_other. rewrite length_le_bytes. right. lia. }
  rewrite Hrp, Hwp, Z.eqb_refl. reflexivity.
Qed.

End FullRing.

Lemma afk_send_epic_fills_ring_witness :
  let r := afk_send_epic asahi_abi Sample.ep_idle 5 0x0102 3 0x30 0xc0
             (repeat 7 72) in
  fst r = 0
  /\ afk_rb_get_wptr (memory (snd r)) Sample.tx_ring = 0
  /\ afk_recv_qe asahi_abi (loopback (snd r) 0) = (loopback (snd r) 0, None).
Proof.
  intros r.
  refine (afk_send_epic_fills_ring asahi_abi asahi_abi_ok Sample.ep_idle 5
            0x0102 3 0x30 0xc0 (repeat 7 72) rb_ok_tx_ring _ _).
  - vm_compute. discriminate.
  - right. split; vm_compute; reflexivity.
Defined.

Lemma afk_send_epic_publishes_witness :
  afk_rb_get_wptr
    (memory (snd (afk_send_epic asahi_abi Sample.ep_idle 5 0x0102 0 0x10 0xc0
                    [1; 2; 3; 4])))
    Sample.tx_ring
  mod 64 = 0.
Proof.
  destruct (afk_send_epic_publishes asahi_abi asahi_abi_ok Sample.ep_idle 5
              0x0102 0 0x10 0xc0 [1; 2; 3; 4] rb_ok_tx_ring bytes_ok_mem0
              ltac:(vm_compute; discriminate) ltac:(vm_compute; reflexivity)
              ltac:(vm_compute; reflexivity)) as (_ & H & _).
  exact H.
Defined.

(** ** Synchronous commands, continued *)

Lemma clearbit_setbit (map idx : Z) :
  0 <= idx -> Z.testbit map idx = false ->
  bitmap_release_region (Z.setbit map idx) idx = map.
Proof.
  intros Hi Hb. unfold bitmap_release_region. apply Z.bits_inj'.
  intros n Hn. rewrite Z.clearbit_eqb, Z.setbit_eqb by lia.
  destruct (Z.eqb_spec idx n) as [->|]; cbn [negb orb andb].
  - rewrite Hb. reflexivity.
  - apply andb_true_r.
Qed.

Lemma first_clear_bit_none (map pos : Z) (n : nat) :
  first_clear_bit map pos n = None ->
  forall i, pos <= i < pos + Z.of_nat n -> Z.testbit map i = true.
Proof.
  revert pos; induction n as [|n IH]; intros pos H i Hi; [lia|].
  cbn [first_clear_bit] in H. destruct (Z.testbit map pos) eqn:E;
    [|discriminate].
  destruct (Z.eq_dec i pos) as [->|]; [exact E|].
  apply (IH (pos + 1) H). lia.
Qed.

Lemma first_clear_bit_lowest (map pos : Z) (n : nat) (idx : Z) :
  first_clear_bit map pos n = Some idx ->
  forall i, pos <= i < idx -> Z.testbit map i = true.
Proof.
  revert pos; induction n as [|n IH]; intros pos H i Hi; [discriminate|].
  cbn [first_clear_bit] in H. destruct (Z.testbit map pos) eqn:E.
  - destruct (Z.eq_dec i pos) as [->|]; [exact E|].
    apply (IH (pos + 1) H). lia.
  - injection H as <-. lia.
Qed.

(** [bitmap_find_free_region] takes the lowest clear bit below [bits]; to
    release it gives back the map it was taken from. *)
Lemma bitmap_find_free_region_spec (map bits : Z) :
  match bitmap_find_free_region map bits with
  | Some (idx, map') =>
      0 <= idx < bits
      /\ Z.testbit map idx = false
      /\ (forall i, 0 <= i < idx -> Z.testbit map i = true)
      /\ Z.testbit map' idx = true
      /\ (forall i, i <> idx -> Z.testbit map' i = Z.testbit map i)
      /\ bitmap_release_region map' idx = map
  | None => forall i, 0 <= i < bits -> Z.testbit map i = true
  end.
Proof.
  unfold bitmap_find_free_region.
  destruct (first_clear_bit map 0 (Z.to_nat bits)) as [idx|] eqn:E.
  - pose proof (first_clear_bit_spec _ _ _ _ E) as [Hr Hb].
    pose proof (first_clear_bit_lowest _ _ _ _ E) as Hl.
    split; [lia|]. split; [exact Hb|]. split; [exact Hl|].
    split; [apply Z.setbit_eq; lia|].
    split; [intros i Hi; apply Z.setbit_neq; [lia | congruence]|].
    apply clearbit_setbit; [lia | exact Hb].
  - intros i Hi. apply (first_clear_bit_none _ _ _ E). lia.
Qed.

Section SubmitErrors.

Variable abi : afk_abi.
Variable alloc : list event -> Z -> Z * Z.

(** X14.  When [afk_send_command] returns an error before it waits, the
    error is [-ENOMEM] or [-ENOSPC], the tag bitmap of the service is as
    before, the other services and [num_channels] are untouched, no
    message was sent, and every buffer the allocator handed out was freed
    once, the request buffer before the response buffer. *)
Theorem afk_send_command_submit_error_releases (ep : apple_dcp_afkep)
    (si : nat) (type_ : Z) (payload : list Z) (output_len w e : Z) :
  (si < length (services ep))%nat ->
  snd (afk_send_command_submit abi alloc ep si type_ payload output_len w)
  = inl e ->
  let ep' :=
    fst (afk_send_command_submit abi alloc ep si type_ payload output_len w) in
  let n := Z.of_nat (length payload) in
  let rx := alloc (events ep) output_len in
  let tx := alloc (events ep ++ [EvDmaAlloc output_len]) n in
  (e = - ENOMEM \/ e = - ENOSPC)
  /\ cmd_map (service_at ep' si) = cmd_map (service_at ep si)
  /\ (forall j, j <> si -> service_at ep' j = service_at ep j)
  /\ num_channels ep' = num_channels ep
  /\ events ep'
     = events ep
       ++ (if fst rx =? 0 then [EvDmaAlloc output_len]
           else if fst tx =? 0
           then [EvDmaAlloc output_len; EvDmaAlloc n;
                 EvDmaFree output_len (fst rx) (snd rx)]
           else [EvDmaAlloc output_len; EvDmaAlloc n;
                 EvDmaFree n (fst tx) (snd tx);
                 EvDmaFree output_len (fst rx) (snd rx)]).
Proof.
  intros Hsi H ep' n rx tx. subst ep'. revert H.
  unfold afk_send_command_submit. fold n.
  change (events (log_event ep (EvDmaAlloc output_len)))
    with (events ep ++ [EvDmaAlloc output_len]).
  fold rx tx. destruct rx as [rxb rxd], tx as [txb txd]. cbn [fst snd].
  destruct (Z.eqb_spec rxb 0) as [|Hrx].
  { cbn [fst snd]. intros [= <-]. split; [left; reflexivity|].
    repeat split; reflexivity. }
  destruct (Z.eqb_spec txb 0) as [|Htx].
  { cbn [fst snd]. intros [= <-]. split; [left; reflexivity|].
    split; [reflexivity|]. split; [reflexivity|]. split; [reflexivity|].
    cbn [events dma_free_coherent log_event]. rewrite <- !app_assoc.
    reflexivity. }
  set (ep1 := set_memory _ _).
  assert (Hs1 : service_at ep1 si = service_at ep si) by reflexivity.
  rewrite Hs1. set (s := service_at ep si).
  pose proof (bitmap_find_free_region_spec (cmd_map s)
                (MAX_PENDING_CMDS abi)) as Hbm.
  destruct (bitmap_find_free_region (cmd_map s) (MAX_PENDING_CMDS abi))
    as [[idx map']|].
  2:{ cbn [fst snd]. intros [= <-]. split; [right; reflexivity|].
      split; [reflexivity|]. split; [reflexivity|]. split; [reflexivity|].
      cbn [events dma_free_coherent log_event ep1 set_memory].
      rewrite <- !app_assoc. reflexivity. }
  destruct Hbm as (Hidx & Hclr & _ & _ & _ & Hrel).
  set (t := u16 _). set (c := Build_epic_cmd_slot _ _ _ _ _ _ _ _ _ _ _).
  set (s' := set_slot _ idx c).
  set (ep2 := set_service ep1 si s').
  unfold afk_send_epic.
  destruct (afk_send_epic_place _ _ _ _ _) as [[[h h2] wp]|].
  { cbv zeta. cbn [negb Z.eqb]. cbn [fst snd]. discriminate. }
  change (negb (- ENOMEM =? 0)) with true. cbv iota. cbn [fst snd].
  intros [= <-]. split; [left; reflexivity|].
  assert (Hsi2 : (si < length (services ep2))%nat).
  { unfold ep2. rewrite length_services_set_service. exact Hsi. }
  assert (Hs2 : service_at ep2 si = s').
  { unfold ep2. apply service_at_set_service. exact Hsi. }
  rewrite Hs2.
  split.
  { unfold dma_free_coherent. rewrite !service_at_log_event.
    rewrite service_at_set_service by exact Hsi2.
    cbn [cmd_map set_cmd_map s' set_slot set_cmd_tag]. exact Hrel. }
  split.
  { intros j Hj. unfold dma_free_coherent. rewrite !service_at_log_event.
    unfold service_at, set_service, ep2, set_service.
    cbn [services set_services ep1 set_memory].
    rewrite !list_lookup_insert_ne by congruence. reflexivity. }
  split; [reflexivity|].
  cbn [events dma_free_coherent log_event set_service set_services ep2 ep1
       set_memory].
  rewrite <- !app_assoc. reflexivity.
Qed.

End SubmitErrors.

Lemma afk_send_command_submit_error_releases_witness :
  events
    (fst (afk_send_command_submit asahi_abi (fun _ _ => (0, 0))
            Sample.ep_ready 0 0xc0 (repeat 0 (Z.to_nat 30)) 64 0x7000))
  = [EvDmaAlloc 64].
Proof.
  destruct (afk_send_command_submit_error_releases asahi_abi
              (fun _ _ => (0, 0)) Sample.ep_ready 0 0xc0
              (repeat 0 (Z.to_nat 30)) 64 0x7000 (- ENOMEM)
              ltac:(vm_compute; lia) ltac:(vm_compute; reflexivity))
    as (_ & _ & _ & _ & H).
  exact H.
Defined.

Lemma afk_send_command_submit_pending_witness :
  pending asahi_abi
    (fst (afk_send_command_submit asahi_abi Sample.page_alloc Sample.ep_ready
            0 0xc0 (repeat 0 (Z.to_nat 30)) 64 0x7000))
    0 Sample.waiter.
Proof.
  pose proof (surjective_pairing
                (afk_send_command_submit asahi_abi Sample.page_alloc
                   Sample.ep_ready 0 0xc0 (repeat 0 (Z.to_nat 30)) 64
                   0x7000)) as Hp.
  assert (Hs : snd (afk_send_command_submit asahi_abi Sample.page_alloc
                      Sample.ep_ready 0 0xc0 (repeat 0 (Z.to_nat 30)) 64
                      0x7000)
               = inr Sample.waiter) by (vm_compute; reflexivity).
  rewrite Hs in Hp.
  refine (afk_send_command_submit_pending asahi_abi Sample.page_alloc
            Sample.ep_ready 0 0xc0 (repeat 0 (Z.to_nat 30)) 64 0x7000 _
            Sample.waiter asahi_abi_ok _ _ _ Hp).
  - vm_compute. reflexivity.
  - vm_compute. lia.
  - vm_compute. reflexivity.
Defined.

Section Completion.

Variable abi : afk_abi.

(** X15.  Once the reply of a pending command has been handled,
    [afk_send_command] finishes with status 0 whatever the wait returned,
    a timeout included.  It returns the return code found in the reply and
    the bytes of the response buffer; the completion was signalled once,
    both buffers are freed once, the tag slot is released and memory is
    untouched. *)
Theorem afk_send_command_reply_completes (ep : apple_dcp_afkep)
    (service : nat) (cw : cmd_wait) (payload payload_size ret : Z) :
  pending abi ep service cw ->
  sizeof_epic_cmd abi <= payload_size ->
  let s := service_at ep service in
  let c := slot_at s (w_idx cw) in
  let ep1 :=
    afk_recv_handle_reply abi ep (channel s) (tag c) payload payload_size in
  let r := afk_send_command_finish ep1 service cw ret in
  r_ret (snd r) = 0
  /\ r_retcode (snd r)
     = load_le (memory ep) (payload + f_off (cmd_retcode abi)) 4
  /\ r_output (snd r)
     = load (memory ep) (w_rxbuf cw) (Z.to_nat (w_output_len cw))
  /\ events (fst r)
     = events ep
       ++ [EvComplete (w_completion cw);
           EvDmaFree (w_payload_len cw) (w_txbuf cw) (w_txbuf_dma cw);
           EvDmaFree (w_output_len cw) (w_rxbuf cw) (w_rxbuf_dma cw)]
  /\ Z.testbit (cmd_map (service_at (fst r) service)) (w_idx cw) = false
  /\ memory (fst r) = memory ep.
Proof.
  intros Hp Hsz s c ep1 r.
  destruct Hp as [Hfound Hsv Hidx Hslot Hres Htag Hrx Htx Hrxd Htxd Hrl Htl
                    Hfoa Hdone Hcomp Hrxn Htxn].
  fold s in Hfound, Hslot, Hres, Htag, Hrx, Htx, Hrxd, Htxd, Hrl, Htl, Hfoa,
    Hdone, Hcomp.
  fold c in Htag, Hrx, Htx, Hrxd, Htxd, Hrl, Htl, Hfoa, Hdone, Hcomp.
  pose proof (afk_recv_handle_reply_accepted abi ep (channel s) (tag c)
                payload payload_size service) as L.
  cbv zeta in L. fold s in L. rewrite Htag in L. fold c in L.
  destruct (L Hfound Hsz ltac:(lia) Hdone eq_refl) as (Hm1 & Hn1 & Hs1 & He1).
  clear L. fold ep1 in Hm1, Hn1, Hs1, He1.
  rewrite Hfoa, Hcomp in *. cbn [andb app] in He1.
  set (c' := completed c
               (load_le (memory ep) (payload + f_off (cmd_retcode abi)) 4))
    in *.
  assert (Hat1 : service_at ep1 service = set_slot s (w_idx cw) c')
    by (apply (service_at_services ep ep1); assumption).
  assert (Hc1 : slot_at (service_at ep1 service) (w_idx cw) = c')
    by (rewrite Hat1; apply slot_at_set_slot; exact Hslot).
  assert (Hlen1 : (service < length (services ep1))%nat)
    by (rewrite Hs1, length_insert; exact Hsv).
  subst r. unfold afk_send_command_finish, afk_send_command_recheck.
  rewrite Hc1.
  assert (Hd' : done c' = true) by reflexivity.
  assert (Hfin :
    (if ret <=? 0
     then if negb (done c')
          then (set_service ep1 service
                  (set_slot (service_at ep1 service) (w_idx cw)
                     {| tag := tag c'; rxbuf := rxbuf c'; txbuf := txbuf c';
                        rxbuf_dma := rxbuf_dma c'; txbuf_dma := txbuf_dma c';
                        rxlen := rxlen c'; txlen := txlen c';
                        free_on_ack := true; done := done c';
                        completion := None; retcode := retcode c' |}),
                Some (- ETIMEDOUT))
          else (ep1, None)
     else (ep1, None)) = (ep1, None)).
  { rewrite Hd'. cbn [negb]. destruct (ret <=? 0); reflexivity. }
  rewrite Hfin. unfold afk_send_command_collect.
  cbn [fst snd r_ret r_retcode r_output]. rewrite Hc1, Hm1.
  split; [reflexivity|]. split; [reflexivity|]. split; [reflexivity|].
  split; [|split].
  - unfold dma_free_coherent.
    cbn [events log_event set_service set_services]. rewrite He1.
    rewrite <- !app_assoc. reflexivity.
  - unfold dma_free_coherent. rewrite !service_at_log_event.
    rewrite service_at_set_service by exact Hlen1.
    cbn [cmd_map set_cmd_map]. apply Z.clearbit_eq.
  - unfold dma_free_coherent.
    cbn [memory log_event set_service set_services]. exact Hm1.
Qed.

End Completion.

Lemma afk_send_command_reply_completes_witness :
  r_ret
    (snd (afk_send_command_finish
            (afk_recv_handle_reply asahi_abi Sample.ep_busy 5 0x0302 0x30000
               30)
            0 Sample.waiter 1))
  = 0.
Proof.
  destruct (afk_send_command_reply_completes asahi_abi Sample.ep_busy 0
              Sample.waiter 0x30000 30 1 pending_ep_busy
              ltac:(vm_compute; discriminate)) as (H & _).
  exact H.
Defined.

Section Tags.

Variable abi : afk_abi.
Hypothesis Habi : abi_ok abi.
Variable alloc : list event -> Z -> Z * Z.

(** The service a successful submission leaves behind. *)
Lemma afk_send_command_submit_service (ep : apple_dcp_afkep) (si : nat)
    (type_ : Z) (payload : list Z) (output_len w : Z) (cw : cmd_wait) :
  (si < length (services ep))%nat ->
  snd (afk_send_command_submit abi alloc ep si type_ payload output_len w)
  = inr cw ->
  let ep' :=
    fst (afk_send_command_submit abi alloc ep si type_ payload output_len w) in
  let s := service_at ep si in
  exists c,
    bitmap_find_free_region (cmd_map s) (MAX_PENDING_CMDS abi)
    = Some (w_idx cw, Z.setbit (cmd_map s) (w_idx cw))
    /\ u8 (Z.land (tag c) 0xff) = w_idx cw
    /\ services ep'
       = <[si := set_slot
                   (set_cmd_tag
                      (set_cmd_map s (Z.setbit (cmd_map s) (w_idx cw)))
                      (u8 (cmd_tag s + 1)))
                   (w_idx cw) c]> (services ep)
    /\ num_channels ep' = num_channels ep.
Proof.
  intros Hsi H ep' s. subst ep'. revert H.
  pose proof (max_pending_pos abi Habi) as Hmax.
  unfold afk_send_command_submit.
  destruct (alloc (events ep) output_len) as [rxb rxd].
  destruct (Z.eqb_spec rxb 0) as [|Hrx]; [discriminate|].
  destruct (alloc _ (Z.of_nat (length payload))) as [txb txd].
  destruct (Z.eqb_spec txb 0) as [|Htx]; [discriminate|].
  set (ep1 := set_memory _ _).
  assert (Hs1 : service_at ep1 si = service_at ep si) by reflexivity.
  rewrite Hs1. fold s.
  unfold bitmap_find_free_region.
  destruct (first_clear_bit (cmd_map s) 0 (Z.to_nat (MAX_PENDING_CMDS abi)))
    as [idx|] eqn:Efree; [|discriminate].
  apply first_clear_bit_spec in Efree. destruct Efree as [Hidx _].
  rewrite Z2Nat.id in Hidx by lia.
  set (t := u16 _). set (c := Build_epic_cmd_slot _ _ _ _ _ _ _ _ _ _ _).
  set (s' := set_slot _ idx c).
  set (ep2 := set_service ep1 si s').
  pose proof (services_afk_send_epic abi ep2 (channel s') t
                (EPIC_TYPE_COMMAND abi) (EPIC_CAT_COMMAND abi) type_
                (epic_cmd_bytes abi rxd output_len txd
                   (Z.of_nat (length payload)))) as [Hsv Hnc].
  cbv zeta in Hsv, Hnc.
  destruct (afk_send_epic abi ep2 _ _ _ _ _ _) as [ret ep3].
  cbn [snd] in Hsv, Hnc.
  destruct (Z.eqb_spec ret 0) as [_|]; [|discriminate].
  cbn [negb fst snd]. intros [= <-]. cbn [w_idx].
  exists c. split; [reflexivity|].
  split; [unfold c; cbn [tag]; unfold t; apply tag_low_byte; lia|].
  split; [exact Hsv | exact Hnc].
Qed.

(** X16.  Two commands submitted one after the other on a service, both
    reaching the wait, occupy different slots and carry different tags;
    the second submission leaves the slot of the first as it was, and both
    slots stay reserved in the bitmap. *)
Theorem afk_send_command_tags_distinct (ep : apple_dcp_afkep) (si : nat)
    (type1 : Z) (payload1 : list Z) (output_len1 w1 : Z) (cw1 : cmd_wait)
    (type2 : Z) (payload2 : list Z) (output_len2 w2 : Z) (cw2 : cmd_wait) :
  (si < length (services ep))%nat ->
  length (cmds (service_at ep si)) = Z.to_nat (MAX_PENDING_CMDS abi) ->
  snd (afk_send_command_submit abi alloc ep si type1 payload1 output_len1 w1)
  = inr cw1 ->
  let ep1 :=
    fst (afk_send_command_submit abi alloc ep si type1 payload1 output_len1
           w1) in
  snd (afk_send_command_submit abi alloc ep1 si type2 payload2 output_len2 w2)
  = inr cw2 ->
  let ep2 :=
    fst (afk_send_command_submit abi alloc ep1 si type2 payload2 output_len2
           w2) in
  w_idx cw1 <> w_idx cw2
  /\ tag (slot_at (service_at ep2 si) (w_idx cw1))
     <> tag (slot_at (service_at ep2 si) (w_idx cw2))
  /\ slot_at (service_at ep2 si) (w_idx cw1)
     = slot_at (service_at ep1 si) (w_idx cw1)
  /\ Z.testbit (cmd_map (service_at ep2 si)) (w_idx cw1) = true
  /\ Z.testbit (cmd_map (service_at ep2 si)) (w_idx cw2) = true.
Proof.
  intros Hsi Hlen H1 ep1 H2 ep2.
  pose proof (max_pending_pos abi Habi) as Hmax.
  destruct (afk_send_command_submit_service ep si type1 payload1 output_len1
              w1 cw1 Hsi H1) as (c1 & Hf1 & Ht1 & Hs1 & Hn1).
  fold ep1 in Hs1, Hn1.
  assert (Hsi1 : (si < length (services ep1))%nat)
    by (rewrite Hs1, length_insert; exact Hsi).
  destruct (afk_send_command_submit_service ep1 si type2 payload2 output_len2
              w2 cw2 Hsi1 H2) as (c2 & Hf2 & Ht2 & Hs2 & Hn2).
  fold ep2 in Hs2, Hn2.
  set (s := service_at ep si) in *.
  set (i1 := w_idx cw1) in *. set (i2 := w_idx cw2) in *.
  assert (Hat1 : service_at ep1 si
                 = set_slot
                     (set_cmd_tag (set_cmd_map s (Z.setbit (cmd_map s) i1))
                        (u8 (cmd_tag s + 1))) i1 c1)
    by (apply (service_at_services ep ep1); assumption).
  set (s1 := service_at ep1 si) in *.
  assert (Hat2 : service_at ep2 si
                 = set_slot
                     (set_cmd_tag (set_cmd_map s1 (Z.setbit (cmd_map s1) i2))
                        (u8 (cmd_tag s1 + 1))) i2 c2)
    by (apply (service_at_services ep1 ep2); assumption).
  pose proof (bitmap_find_free_region_spec (cmd_map s)
                (MAX_PENDING_CMDS abi)) as B1.
  rewrite Hf1 in B1. destruct B1 as (Hi1 & _).
  pose proof (bitmap_find_free_region_spec (cmd_map s1)
                (MAX_PENDING_CMDS abi)) as B2.
  rewrite Hf2 in B2. destruct B2 as (Hi2 & Hclr2 & _).
  assert (Hmap1 : cmd_map s1 = Z.setbit (cmd_map s) i1)
    by (rewrite Hat1; reflexivity).
  assert (Hne : i1 <> i2).
  { intros E. rewrite Hmap1, <- E, Z.setbit_eq in Hclr2 by lia.
    discriminate. }
  assert (Hl1 : (Z.to_nat i1 < length (cmds s1))%nat).
  { rewrite Hat1. cbn [cmds set_slot set_cmd_tag set_cmd_map].
    rewrite length_insert, Hlen. lia. }
  assert (Hl2 : (Z.to_nat i2 < length (cmds s1))%nat).
  { rewrite Hat1. cbn [cmds set_slot set_cmd_tag set_cmd_map].
    rewrite length_insert, Hlen. lia. }
  assert (Hslot1 : slot_at (service_at ep2 si) i1 = slot_at s1 i1).
  { rewrite Hat2. unfold slot_at, set_slot.
    cbn [cmds set_cmd_tag set_cmd_map].
    rewrite list_lookup_insert_ne by lia. reflexivity. }
  assert (Hslot2 : slot_at (service_at ep2 si) i2 = c2).
  { rewrite Hat2. apply slot_at_set_slot.
    cbn [cmds set_cmd_tag set_cmd_map]. exact Hl2. }
  assert (Hc1 : slot_at s1 i1 = c1).
  { rewrite Hat1. apply slot_at_set_slot.
    cbn [cmds set_cmd_tag set_cmd_map]. rewrite Hlen. lia. }
  split; [exact Hne|]. split; [|split; [exact Hslot1|split]].
  - rewrite Hslot1, Hslot2, Hc1. intros E. apply Hne.
    rewrite <- Ht1, <- Ht2, E. reflexivity.
  - rewrite Hat2. cbn [cmd_map set_slot set_cmd_tag set_cmd_map].
    rewrite Z.setbit_neq by lia. rewrite Hmap1. apply Z.setbit_eq. lia.
  - rewrite Hat2. cbn [cmd_map set_slot set_cmd_tag set_cmd_map].
    apply Z.setbit_eq. lia.
Qed.

End Tags.

Lemma afk_send_command_tags_distinct_witness :
  Sample.waiter.(w_idx) <> 3.
Proof.
  set (ep1 := fst (afk_send_command_submit asahi_abi Sample.page_alloc
                     Sample.ep_ready 0 0xc0 (repeat 0 (Z.to_nat 30)) 64
                     0x7000)).
  destruct (afk_send_command_tags_distinct asahi_abi asahi_abi_ok
              Sample.page_alloc Sample.ep_ready 0
              0xc0 (repeat 0 (Z.to_nat 30)) 64 0x7000 Sample.waiter
              0xc0 (repeat 0 (Z.to_nat 30)) 64 0x7100
              {| w_idx := 3; w_rxbuf := 0x23000; w_txbuf := 0x24000;
                 w_rxbuf_dma := 0x90003000; w_txbuf_dma := 0x90004000;
                 w_output_len := 64; w_payload_len := 30;
                 w_completion := 0x7100 |}
              ltac:(vm_compute; lia) ltac:(vm_compute; reflexivity)
              ltac:(vm_compute; reflexivity)
              ltac:(vm_compute; reflexivity)) as (H & _).
  exact H.
Defined.

(** ** The message worker *)

Section Worker.

Variable abi : afk_abi.
Variable alloc : list event -> Z -> Z * Z.
Variable recv_handle_init :
  apple_dcp_afkep -> Z -> Z -> Z -> Z -> apple_dcp_afkep.

(** X17.  [afk_init_roundtrip] asks for two buffers of 0x1000 bytes and
    sends [INIT_ACK], also when an allocation fails.  Each ring that got a
    buffer is ready with that buffer and size; one that did not has a NULL
    buffer.  The staging buffer and its size are untouched, but
    [bfr_dma], the device address of the staging buffer, is overwritten
    with the device address of the last round-trip buffer obtained. *)
Theorem afk_init_roundtrip_acks (st : afkep_worker) :
  let st' := afk_init_roundtrip alloc st in
  let size := ROUNDTRIP_BUF_SIZE in
  let a1 := alloc (events (wk_ep st)) size in
  let a2 := alloc (events (wk_ep st) ++ [EvDmaAlloc size]) size in
  events (wk_ep st')
  = events (wk_ep st)
    ++ [EvDmaAlloc size; EvDmaAlloc size;
        EvSend (FIELD_PREP RBEP_TYPE RBEP_INIT_ACK)]
  /\ bfr (wk_ep st') = bfr (wk_ep st)
  /\ bfr_size (wk_ep st') = bfr_size (wk_ep st)
  /\ bfr_dma (wk_ep st')
     = (if fst a2 =? 0
        then if fst a1 =? 0 then bfr_dma (wk_ep st) else snd a1
        else snd a2)
  /\ rt_rxbfr st'
     = (if fst a1 =? 0 then set_buf (rt_rxbfr st) 0
        else {| ready := true; hdr := hdr (rt_rxbfr st); buf := fst a1;
                blksz := blksz (rt_rxbfr st); bufsz := size |})
  /\ rt_txbfr st'
     = (if fst a2 =? 0 then set_buf (rt_txbfr st) 0
        else {| ready := true; hdr := hdr (rt_txbfr st); buf := fst a2;
                blksz := blksz (rt_txbfr st); bufsz := size |}).
Proof.
  intros st' size a1 a2. subst st'.
  unfold afk_init_roundtrip, afk_alloc_roundtrip.
  change (u32 ROUNDTRIP_BUF_SIZE) with size. fold a1.
  destruct a1 as [p1 d1]. cbn [fst snd].
  destruct (p1 =? 0).
  - cbn [events log_event]. fold a2. destruct a2 as [p2 d2]. cbn [fst snd].
    destruct (p2 =? 0);
      cbn [wk_ep rt_rxbfr rt_txbfr events bfr bfr_size bfr_dma afk_send
           log_event set_bfr];
      rewrite <- ?app_assoc; repeat split; reflexivity.
  - cbn [events log_event set_bfr]. fold a2. destruct a2 as [p2 d2].
    cbn [fst snd].
    destruct (p2 =? 0);
      cbn [wk_ep rt_rxbfr rt_txbfr events bfr bfr_size bfr_dma afk_send
           log_event set_bfr];
      rewrite <- ?app_assoc; repeat split; reflexivity.
Qed.

Lemma afk_getbuf_frame (ep : apple_dcp_afkep) (message : Z) :
  let ep' := afk_getbuf alloc ep message in
  memory ep' = memory ep /\ services ep' = services ep
  /\ num_channels ep' = num_channels ep /\ qe_seq ep' = qe_seq ep
  /\ rxbfr ep' = rxbfr ep /\ txbfr ep' = txbfr ep.
Proof.
  unfold afk_getbuf. cbv zeta. destruct (negb _); [repeat split; reflexivity|].
  destruct (alloc _ _) as [p dma].
  destruct (p =? 0); repeat split; reflexivity.
Qed.

Lemma afk_init_rxtx_frame (ep : apple_dcp_afkep) (message : Z)
    (d : direction) :
  let ep' := afk_init_rxtx ep message d in
  memory ep' = memory ep /\ services ep' = services ep
  /\ num_channels ep' = num_channels ep /\ qe_seq ep' = qe_seq ep.
Proof.
  unfold afk_init_rxtx. cbv zeta.
  repeat match goal with
         | |- context [if ?c then _ else _] =>
             lazymatch c with
             | context [if _ then _ else _] => fail
             | _ => destruct c
             end
         end;
    destruct d; repeat split; reflexivity.
Qed.

Lemma afk_init_roundtrip_frame (st : afkep_worker) :
  let ep' := wk_ep (afk_init_roundtrip alloc st) in
  memory ep' = memory (wk_ep st) /\ services ep' = services (wk_ep st)
  /\ num_channels ep' = num_channels (wk_ep st)
  /\ qe_seq ep' = qe_seq (wk_ep st).
Proof.
  unfold afk_init_roundtrip, afk_alloc_roundtrip. cbv zeta.
  destruct (alloc _ _) as [p1 d1].
  destruct (p1 =? 0); destruct (alloc _ _) as [p2 d2];
    destruct (p2 =? 0); repeat split; reflexivity.
Qed.

(** X18.  A mailbox word whose type is not [RECV] is handled without
    the receive loop: the worker returns, and it leaves shared memory, the
    service table, [num_channels] and the sequence number as they were; a
    completion that was completed stays completed. *)
Theorem afk_receive_message_worker_control (fuel : nat) (st : afkep_worker)
    (message : Z) :
  u16 (FIELD_GET RBEP_TYPE message) <> RBEP_RECV ->
  exists st',
    afk_receive_message_worker abi alloc recv_handle_init fuel st message
    = Some st'
    /\ memory (wk_ep st') = memory (wk_ep st)
    /\ services (wk_ep st') = services (wk_ep st)
    /\ num_channels (wk_ep st') = num_channels (wk_ep st)
    /\ qe_seq (wk_ep st') = qe_seq (wk_ep st)
    /\ (started st = true -> started st' = true)
    /\ (stopped st = true -> stopped st' = true).
Proof.
  intros Hty. unfold afk_receive_message_worker. cbv zeta.
  set (ty := u16 (FIELD_GET RBEP_TYPE message)) in *.
  destruct (ty =? RBEP_INIT_ACK);
    [eexists; split; [reflexivity | repeat split; auto]|].
  destruct (ty =? RBEP_START_ACK);
    [eexists; split; [reflexivity | repeat split; auto]|].
  destruct (ty =? RBEP_SHUTDOWN_ACK);
    [eexists; split; [reflexivity | repeat split; auto]|].
  destruct (ty =? RBEP_INIT).
  { eexists. split; [reflexivity|].
    destruct (afk_init_roundtrip_frame st) as (H1 & H2 & H3 & H4).
    split; [exact H1|]. split; [exact H2|]. split; [exact H3|].
    split; [exact H4|].
    unfold afk_init_roundtrip, afk_alloc_roundtrip. cbv zeta.
    destruct (alloc _ _) as [p1 d1].
    destruct (p1 =? 0); destruct (alloc _ _) as [p2 d2];
      destruct (p2 =? 0); split; auto. }
  destruct (ty =? RBEP_GETBUF).
  { eexists. split; [reflexivity|]. cbn [wk_ep set_wk_ep started stopped].
    destruct (afk_getbuf_frame (wk_ep st) message) as (H1 & H2 & H3 & H4 & _).
    repeat split; auto. }
  destruct (ty =? RBEP_INIT_TX).
  { eexists. split; [reflexivity|]. cbn [wk_ep set_wk_ep started stopped].
    destruct (afk_init_rxtx_frame (wk_ep st) message TX) as (H1 & H2 & H3 & H4).
    repeat split; auto. }
  destruct (ty =? RBEP_INIT_RX).
  { eexists. split; [reflexivity|]. cbn [wk_ep set_wk_ep started stopped].
    destruct (afk_init_rxtx_frame (wk_ep st) message RX) as (H1 & H2 & H3 & H4).
    repeat split; auto. }
  destruct (ty =? RBEP_INIT_RXTX_ACK);
    [eexists; split; [reflexivity | repeat split; auto]|].
  destruct (Z.eqb_spec ty RBEP_RECV); [contradiction|].
  eexists; split; [reflexivity | repeat split; auto].
Qed.

(** The two ways [afk_recv] returns [false]: with the endpoint as it
    was, or, after the reader was sent to offset 0 and found an entry
    that does not fit the body, with the read pointer set to 0. *)
Lemma afk_recv_qe_none_cases (ep : apple_dcp_afkep) :
  let rx := rxbfr ep in
  snd (afk_recv_qe abi ep) = None ->
  fst (afk_recv_qe abi ep) = ep
  \/ (ready rx = true
      /\ qe_magic_ok abi (load_le (memory ep) (buf rx + 0 + qe_magic) 4) = true
      /\ (usize (u32 (0 + load_le (memory ep) (buf rx + 0 + qe_size) 4)
                 + sizeof_afk_qe) >? bufsz rx) = true
      /\ fst (afk_recv_qe abi ep)
         = set_memory ep (afk_rb_set_rptr (memory ep) rx 0)).
Proof.
  intros rx. unfold afk_recv_qe. fold rx. cbv zeta.
  destruct (ready rx) eqn:Hrd; cbn [negb]; [|left; reflexivity].
  set (rptr := afk_rb_get_rptr (memory ep) rx).
  destruct (rptr =? _); [left; reflexivity|].
  destruct (rptr >? _); [left; reflexivity|].
  destruct (negb (qe_magic_ok abi _)); [left; reflexivity|].
  destruct (usize (u32 (rptr + _) + sizeof_afk_qe) >? bufsz rx) eqn:E4.
  - cbv iota. cbn [andb].
    destruct (qe_magic_ok abi _) eqn:E5; cbn [negb]; [|left; reflexivity].
    cbn [memory set_memory rxbfr]. fold rx.
    destruct (usize (u32 (0 + _) + sizeof_afk_qe) >? bufsz rx) eqn:E6;
      [|discriminate].
    intros _. right. repeat split; reflexivity.
  - cbv iota. cbn [andb]. rewrite E4. discriminate.
Qed.

(** A call of [afk_recv] that returned [false] on a ring with the
    accepted shape returns [false] again on the state it left. *)
Lemma afk_recv_qe_none_again (ep : apple_dcp_afkep) :
  rb_ok (rxbfr ep) ->
  snd (afk_recv_qe abi ep) = None ->
  snd (afk_recv_qe abi (fst (afk_recv_qe abi ep))) = None.
Proof.
  intros Hok Hn. pose proof Hok as [_ Hbk _ Hbuf Hb0 _ _].
  destruct (afk_recv_qe_none_cases ep Hn) as [->|(Hrd & E5 & E6 & ->)];
    [exact Hn|].
  set (rx := rxbfr ep) in *.
  set (m1 := afk_rb_set_rptr (memory ep) rx 0).
  assert (Hbody : forall a, buf rx <= a ->
            load_le m1 a 4 = load_le (memory ep) a 4).
  { intros a Ha. unfold load_le, m1, afk_rb_set_rptr. f_equal.
    apply load_store_other. rewrite length_le_bytes. lia. }
  assert (Hr1 : afk_rb_get_rptr m1 rx = 0).
  { unfold afk_rb_get_rptr, m1, afk_rb_set_rptr. rewrite load_le_store.
    reflexivity. }
  unfold afk_recv_qe. cbn [rxbfr memory set_memory]. fold rx.
  rewrite Hrd. cbn [negb]. rewrite Hr1.
  destruct (0 =? afk_rb_get_wptr m1 rx); [reflexivity|].
  assert (Hu : (0 >? usize (bufsz rx - sizeof_afk_qe)) = false).
  { pose proof (Z.mod_pos_bound (bufsz rx - sizeof_afk_qe) (2 ^ 64)
                  ltac:(lia)).
    unfold usize.
    destruct (Z.gtb_spec 0 ((bufsz rx - sizeof_afk_qe) mod 2 ^ 64));
      [lia | reflexivity]. }
  rewrite Hu.
  rewrite !Hbody by (unfold qe_magic, qe_size; lia).
  rewrite E5, E6. cbv iota. cbn [andb negb].
  rewrite !Hbody by (unfold qe_magic, qe_size; lia).
  rewrite E5. cbn [negb]. cbn [memory set_memory rxbfr]. fold rx.
  rewrite E6. reflexivity.
Qed.

(** X19.  When the receive loop of the worker stops on a ring of the
    accepted shape, it has stopped for good: a further call of [afk_recv]
    on the state it left returns [false] again. *)
Theorem afk_recv_loop_drained (fuel : nat) (ep ep' : apple_dcp_afkep) :
  afk_recv_loop abi recv_handle_init fuel ep = Some ep' ->
  rb_ok (rxbfr ep') ->
  fst (afk_recv abi recv_handle_init ep') = false.
Proof.
  revert ep. induction fuel as [|k IH]; intros ep H Hok; [discriminate|].
  cbn [afk_recv_loop] in H. unfold afk_recv in H.
  destruct (afk_recv_qe abi ep) as [ep1 [f|]] eqn:E.
  - apply (IH _ H Hok).
  - injection H as <-.
    assert (E1 : ep1 = fst (afk_recv_qe abi ep)) by (rewrite E; reflexivity).
    assert (Hrx : rxbfr ep1 = rxbfr ep).
    { destruct (afk_recv_qe_none_cases ep ltac:(rewrite E; reflexivity))
        as [Hc|(_ & _ & _ & Hc)]; rewrite E1, Hc; reflexivity. }
    pose proof (afk_recv_qe_none_again ep ltac:(rewrite <- Hrx; exact Hok)
                  ltac:(rewrite E; reflexivity)) as Hn.
    rewrite <- E1 in Hn. unfold afk_recv.
    destruct (afk_recv_qe abi ep1) as [ep2 o]. cbn [snd] in Hn. subst o.
    reflexivity.
Qed.

End Worker.

Lemma afk_recv_loop_drained_witness :
  exists ep',
    afk_recv_loop asahi_abi (Aop.apple_aop_recv_handle_init asahi_abi) 2
      ep_echo
    = Some ep'
    /\ fst (afk_recv asahi_abi (Aop.apple_aop_recv_handle_init asahi_abi) ep')
       = false.
Proof.
  assert (Hrx : option_map rxbfr
                  (afk_recv_loop asahi_abi
                     (Aop.apple_aop_recv_handle_init asahi_abi) 2 ep_echo)
                = Some Sample.tx_ring) by (vm_compute; reflexivity).
  destruct (afk_recv_loop asahi_abi
              (Aop.apple_aop_recv_handle_init asahi_abi) 2 ep_echo)
    as [ep'|] eqn:E; [|discriminate Hrx].
  injection Hrx as Hrx.
  exists ep'. split; [reflexivity|].
  apply (afk_recv_loop_drained asahi_abi
           (Aop.apple_aop_recv_handle_init asahi_abi) 2 ep_echo ep' E).
  rewrite Hrx. exact rb_ok_tx_ring.
Defined.

Lemma afk_receive_message_worker_control_witness :
  exists st',
    afk_receive_message_worker asahi_abi Sample.page_alloc
      (Aop.apple_aop_recv_handle_init asahi_abi) 0
      (worker_of Sample.ep_staged) 0x008a000000050007
    = Some st'
    /\ services (wk_ep st') = services Sample.ep_staged.
Proof.
  destruct (afk_receive_message_worker_control asahi_abi Sample.page_alloc
              (Aop.apple_aop_recv_handle_init asahi_abi) 0
              (worker_of Sample.ep_staged) 0x008a000000050007
              ltac:(vm_compute; discriminate))
    as (st' & H & _ & Hs & _).
  exists st'. split; [exact H | exact Hs].
Defined.

(** ** Service calls *)

Lemma asahi_service_call_ok : service_call_abi_ok asahi_service_call.
Proof.
  constructor; cbn; unfold field_in, field_apart; cbn;
    try reflexivity; lia.
Qed.

Lemma take_drop_load (m : mem) (a : Z) (n off w : nat) :
  (off + w <= n)%nat ->
  take w (drop off (load m a n)) = load m (a + Z.of_nat off) w.
Proof.
  intros H. replace n with (off + (w + (n - off - w)))%nat by lia.
  rewrite !load_app.
  rewrite drop_app_length' by (symmetry; apply length_load).
  rewrite take_app_length' by (symmetry; apply length_load). reflexivity.
Qed.

Section ServiceCall.

Variable sc : service_call_abi.
Hypothesis Hsc : service_call_abi_ok sc.

(** X20.  The tail of [afk_service_call], for a response buffer that
    can hold the header and [output_len] bytes.  A non-zero status is the
    status of [afk_send_command] or [-EINVAL], and leaves the caller's
    output as it was.  Status 0 means the command succeeded with return
    code 0 and the header carries the magic number, the group and the
    command of the call; a caller's buffer of non-zero length then holds
    [output_len] bytes: the first [min output_len data_len] bytes behind
    the header, then zeros. *)
Theorem afk_service_call_finish_output (group command : Z)
    (output : option (list Z)) (output_len : Z) (res : cmd_result) :
  let r := afk_service_call_finish sc group command output output_len res in
  let bfr := r_output res in
  0 <= output_len ->
  List.Forall (fun b => 0 <= b < 256) bfr ->
  sizeof_epic_service_call sc + output_len <= Z.of_nat (length bfr) ->
  (fst r <> 0 ->
     snd r = output /\ (fst r = r_ret res \/ fst r = - EINVAL))
  /\ (fst r = 0 ->
        r_ret res = 0 /\ u32 (r_retcode res) = 0
        /\ call_field bfr (call_magic sc) = EPIC_SERVICE_CALL_MAGIC sc
        /\ call_field bfr (call_group sc) = u16 group
        /\ call_field bfr (call_command sc) = u32 command
        /\ forall o, output = Some o -> 0 < output_len ->
             let retlen :=
               Z.min output_len (call_field bfr (call_data_len sc)) in
             snd r
             = Some (take (Z.to_nat retlen)
                       (drop (Z.to_nat (sizeof_epic_service_call sc)) bfr)
                     ++ repeat 0 (Z.to_nat (output_len - retlen)))
             /\ forall o', snd r = Some o' ->
                  Z.of_nat (length o') = output_len).
Proof.
  intros r bfr Hol Hbytes Hlen. subst r.
  pose proof (call_size_ok sc Hsc) as Hsz.
  assert (Hrl : 0 <= call_field bfr (call_data_len sc) < 2 ^ 32).
  { unfold call_field.
    pose proof (le_val_range
                  (take (f_width (call_data_len sc))
                     (drop (Z.to_nat (f_off (call_data_len sc))) bfr))) as Hr.
    rewrite (call_data_len_width sc Hsc) in *.
    assert (Hf : List.Forall (fun b => 0 <= b < 256)
                   (take 4 (drop (Z.to_nat (f_off (call_data_len sc))) bfr)))
      by (apply Forall_take, Forall_drop, Hbytes).
    specialize (Hr Hf).
    assert (Hl : (length (take 4 (drop (Z.to_nat (f_off (call_data_len sc)))
                                    bfr)) <= 4)%nat)
      by (rewrite length_take; lia).
    assert (256 ^ Z.of_nat
                    (length
                       (take 4
                          (drop (Z.to_nat (f_off (call_data_len sc))) bfr)))
            <= 256 ^ 4) by (apply Z.pow_le_mono_r; lia).
    change (256 ^ 4) with (2 ^ 32) in *. lia. }
  unfold afk_service_call_finish. fold bfr.
  destruct (Z.eqb_spec (r_ret res) 0) as [Hret|Hret]; cbn [negb].
  2:{ cbn [fst snd]. split;
        [intros _; split; [reflexivity | left; reflexivity]|].
      intros E. contradiction. }
  destruct (Z.eqb_spec (u32 (r_retcode res)) 0) as [Hrc|Hrc]; cbn [negb].
  2:{ cbn [fst snd]. split;
        [intros _; split; [reflexivity | right; reflexivity]|].
      unfold EINVAL. discriminate. }
  destruct (Z.eqb_spec (call_field bfr (call_magic sc))
              (EPIC_SERVICE_CALL_MAGIC sc)) as [Hmg|Hmg]; cbn [negb orb].
  2:{ cbn [fst snd]. split;
        [intros _; split; [reflexivity | right; reflexivity]|].
      unfold EINVAL. discriminate. }
  destruct (Z.eqb_spec (call_field bfr (call_group sc)) (u16 group))
    as [Hgr|Hgr]; cbn [negb orb].
  2:{ cbn [fst snd]. split;
        [intros _; split; [reflexivity | right; reflexivity]|].
      unfold EINVAL. discriminate. }
  destruct (Z.eqb_spec (call_field bfr (call_command sc)) (u32 command))
    as [Hcm|Hcm]; cbn [negb orb].
  2:{ cbn [fst snd]. split;
        [intros _; split; [reflexivity | right; reflexivity]|].
      unfold EINVAL. discriminate. }
  set (rl := call_field bfr (call_data_len sc)) in *.
  assert (Hmin : (if output_len <? rl then u32 output_len else rl)
                 = Z.min output_len rl).
  { destruct (Z.ltb_spec output_len rl).
    - rewrite u32_small by lia. lia.
    - lia. }
  rewrite Hmin.
  split.
  { destruct output as [o|]; [destruct (output_len =? 0)|]; cbn [fst];
      intros E; contradiction. }
  intros _. repeat (split; [assumption|]).
  intros o -> Hpos. cbv zeta.
  destruct (Z.eqb_spec output_len 0) as [|_]; [lia|]. cbn [snd].
  split; [reflexivity|].
  intros o' [= <-]. rewrite length_app, length_take, length_drop, repeat_length.
  lia.
Qed.

Lemma call_field_request (group command : Z) (data : list Z)
    (data_pad output_len output_pad : Z) :
  let data_len := Z.of_nat (length data) in
  let bfr :=
    afk_service_call_request sc group command data data_pad output_len
      output_pad in
  0 <= data_pad -> data_len + data_pad < 2 ^ 63 ->
  0 <= output_len -> 0 <= output_pad -> output_len + output_pad < 2 ^ 63 ->
  Z.of_nat (length bfr)
  = Z.max (data_len + data_pad) (output_len + output_pad)
    + sizeof_epic_service_call sc
  /\ call_field bfr (call_group sc) = u16 group
  /\ call_field bfr (call_command sc) = u32 command
  /\ call_field bfr (call_data_len sc) = u32 (data_len + data_pad)
  /\ call_field bfr (call_magic sc) = EPIC_SERVICE_CALL_MAGIC sc.
Proof.
  intros data_len bfr Hdp Hd Hol Hop Ho.
  pose proof (call_size_ok sc Hsc) as Hsz.
  assert (Hdl : 0 <= data_len) by (unfold data_len; lia).
  assert (Hbl : afk_service_call_bfr_len sc data_len data_pad output_len
                  output_pad
                = Z.max (data_len + data_pad) (output_len + output_pad)
                  + sizeof_epic_service_call sc).
  { unfold afk_service_call_bfr_len.
    rewrite (usize_small (data_len + data_pad)) by lia.
    rewrite (usize_small (output_len + output_pad)) by lia.
    apply usize_small. lia. }
  assert (Hlen : Z.of_nat (length bfr)
                 = Z.max (data_len + data_pad) (output_len + output_pad)
                   + sizeof_epic_service_call sc).
  { unfold bfr, afk_service_call_request. fold data_len.
    rewrite length_load, Hbl. lia. }
  split; [exact Hlen|].
  assert (Hfield : forall f (l1 l2 : stores) v,
            field_in f (sizeof_epic_service_call sc) ->
            0 <= v < 256 ^ Z.of_nat (f_width f) ->
            (forall x, f_off f <= x < f_off f + Z.of_nat (f_width f) ->
                       ~ touches l2 x) ->
            call_field
              (load (apply_stores (fun _ => 0)
                       (l1 ++ store_field 0 f v :: l2)) 0
                 (Z.to_nat (afk_service_call_bfr_len sc data_len data_pad
                              output_len output_pad))) f
            = v).
  { intros f l1 l2 v [Hf0 Hf1] Hv Hnt. unfold call_field.
    rewrite take_drop_load by (rewrite Hbl; lia).
    rewrite Z2Nat.id, Z.add_0_l by lia.
    unfold store_field, store_le. rewrite Z.add_0_l.
    rewrite <- (length_le_bytes (f_width f) v) at 2.
    rewrite load_after_stores.
    - apply le_val_le_bytes_small, Hv.
    - intros x Hx. rewrite length_le_bytes in Hx. apply Hnt, Hx. }
  assert (Hw2 : 256 ^ Z.of_nat 2 = 2 ^ 16) by reflexivity.
  assert (Hw4 : 256 ^ Z.of_nat 4 = 2 ^ 32) by reflexivity.
  pose proof (call_group_in sc Hsc) as [Hg0 Hg1].
  pose proof (call_command_in sc Hsc) as [Hc0 Hc1].
  pose proof (call_data_len_in sc Hsc) as [Hd0 Hd1].
  pose proof (call_magic_in sc Hsc) as [Hm0 Hm1].
  pose proof (call_group_width sc Hsc) as Wg.
  pose proof (call_command_width sc Hsc) as Wc.
  pose proof (call_data_len_width sc Hsc) as Wd.
  pose proof (call_magic_width sc Hsc) as Wm.
  pose proof (call_group_command sc Hsc) as Agc.
  pose proof (call_group_data_len sc Hsc) as Agd.
  pose proof (call_group_magic sc Hsc) as Agm.
  pose proof (call_command_data_len sc Hsc) as Acd.
  pose proof (call_command_magic sc Hsc) as Acm.
  pose proof (call_data_len_magic sc Hsc) as Adm.
  unfold field_apart in *.
  assert (Hnt : forall (f : field) (l : stores) x,
            List.Forall
              (fun s => fst s + Z.of_nat (length (snd s)) <= f_off f
                        \/ f_off f + Z.of_nat (f_width f) <= fst s) l ->
            f_off f <= x < f_off f + Z.of_nat (f_width f) -> ~ touches l x).
  { intros f l x Hall Hx (s & Hin & Hr).
    apply (proj1 (List.Forall_forall _ l) Hall) in Hin. lia. }
  unfold bfr, afk_service_call_request. fold data_len.
  rewrite (usize_small (data_len + data_pad)) by lia.
  split; [|split; [|split]].
  - apply (Hfield (call_group sc) []).
    + split; assumption.
    + rewrite Wg, Hw2. apply Z.mod_pos_bound. lia.
    + intros x Hx. apply (Hnt (call_group sc)); [|exact Hx].
      repeat apply List.Forall_cons; try apply List.Forall_nil;
        cbn [fst snd store_field store_le]; rewrite ?length_le_bytes;
        lia.
  - apply (Hfield (call_command sc) [_]).
    + split; assumption.
    + rewrite Wc, Hw4. apply Z.mod_pos_bound. lia.
    + intros x Hx. apply (Hnt (call_command sc)); [|exact Hx].
      repeat apply List.Forall_cons; try apply List.Forall_nil;
        cbn [fst snd store_field store_le]; rewrite ?length_le_bytes;
        lia.
  - apply (Hfield (call_data_len sc) [_; _]).
    + split; assumption.
    + rewrite Wd, Hw4. apply Z.mod_pos_bound. lia.
    + intros x Hx. apply (Hnt (call_data_len sc)); [|exact Hx].
      repeat apply List.Forall_cons; try apply List.Forall_nil;
        cbn [fst snd store_field store_le]; rewrite ?length_le_bytes;
        lia.
  - pose proof (call_magic_u32 sc Hsc) as Hmu.
    rewrite <- (u32_small (EPIC_SERVICE_CALL_MAGIC sc)) at 2 by exact Hmu.
    apply (Hfield (call_magic sc) [_; _; _]).
    + split; assumption.
    + rewrite Wm, Hw4. apply Z.mod_pos_bound. lia.
    + intros x Hx. apply (Hnt (call_magic sc)); [|exact Hx].
      repeat apply List.Forall_cons; try apply List.Forall_nil;
        cbn [fst snd store_field store_le]; rewrite ?length_le_bytes;
        lia.
Qed.

(** X21.  The buffer [afk_service_call] builds, for lengths that do not
    overflow: it holds the header, the data with its padding and room for
    the output with its padding; the data sits behind the header; the
    data-length member is the padded data length; and the header passes
    the validation [afk_service_call] applies to the response, so a device
    that echoes the header is accepted. *)
Theorem afk_service_call_request_valid (group command : Z) (data : list Z)
    (data_pad output_len output_pad : Z) (output : option (list Z)) :
  let data_len := Z.of_nat (length data) in
  let bfr :=
    afk_service_call_request sc group command data data_pad output_len
      output_pad in
  0 <= data_pad -> data_len + data_pad < 2 ^ 63 ->
  0 <= output_len -> 0 <= output_pad -> output_len + output_pad < 2 ^ 63 ->
  sizeof_epic_service_call sc + data_len + data_pad
    <= Z.of_nat (length bfr)
  /\ sizeof_epic_service_call sc + output_len + output_pad
       <= Z.of_nat (length bfr)
  /\ take (length data) (drop (Z.to_nat (sizeof_epic_service_call sc)) bfr)
     = data
  /\ call_field bfr (call_data_len sc) = u32 (data_len + data_pad)
  /\ fst (afk_service_call_finish sc group command output output_len
            {| r_ret := 0; r_retcode := 0; r_output := bfr |})
     = 0.
Proof.
  intros data_len bfr Hdp Hd Hol Hop Ho.
  pose proof (call_size_ok sc Hsc) as Hsz.
  destruct (call_field_request group command data data_pad output_len
              output_pad Hdp Hd Hol Hop Ho)
    as (Hlen & Hg & Hc & Hdl & Hm).
  fold data_len bfr in Hlen, Hg, Hc, Hdl, Hm.
  split; [lia|]. split; [lia|]. split; [|split; [exact Hdl|]].
  - unfold bfr, afk_service_call_request. fold data_len.
    rewrite take_drop_load.
    + rewrite Z2Nat.id, Z.add_0_l by lia.
      change ([store_field 0 (call_group sc) (u16 group);
               store_field 0 (call_command sc) (u32 command);
               store_field 0 (call_data_len sc)
                 (u32 (usize (data_len + data_pad)));
               store_field 0 (call_magic sc)
                 (u32 (EPIC_SERVICE_CALL_MAGIC sc));
               (sizeof_epic_service_call sc, data)])
        with ([store_field 0 (call_group sc) (u16 group);
               store_field 0 (call_command sc) (u32 command);
               store_field 0 (call_data_len sc)
                 (u32 (usize (data_len + data_pad)));
               store_field 0 (call_magic sc)
                 (u32 (EPIC_SERVICE_CALL_MAGIC sc))]
              ++ (sizeof_epic_service_call sc, data) :: []).
      apply load_after_stores. intros x _. apply touches_nil.
    + unfold afk_service_call_bfr_len.
      rewrite (usize_small (data_len + data_pad)) by lia.
      rewrite (usize_small (output_len + output_pad)) by lia.
      rewrite usize_small by lia. unfold data_len. lia.
  - unfold afk_service_call_finish. cbn [r_ret r_retcode r_output].
    change (negb (0 =? 0)) with false. change (u32 0) with 0.
    change (negb (0 =? 0)) with false. cbv iota.
    rewrite Hg, Hc, Hm, !Z.eqb_refl. cbn [negb orb].
    destruct output as [o|]; [destruct (output_len =? 0)|]; reflexivity.
Qed.

End ServiceCall.

Lemma afk_service_call_request_valid_witness :
  fst (afk_service_call_finish asahi_service_call 7 0x20 (Some [0; 0]) 2
         {| r_ret := 0; r_retcode := 0;
            r_output :=
              afk_service_call_request asahi_service_call 7 0x20 [9; 8; 7] 1
                2 0 |})
  = 0.
Proof.
  destruct (afk_service_call_request_valid asahi_service_call
              asahi_service_call_ok 7 0x20 [9; 8; 7] 1 2 0 (Some [0; 0])
              ltac:(lia) ltac:(vm_compute; reflexivity) ltac:(lia) ltac:(lia)
              ltac:(vm_compute; reflexivity)) as (_ & _ & _ & _ & H).
  exact H.
Defined.

Lemma afk_service_call_finish_output_witness :
  snd (afk_service_call_finish asahi_service_call 7 0x20 (Some [0; 0]) 2
         {| r_ret := 0; r_retcode := 0;
            r_output :=
              afk_service_call_request asahi_service_call 7 0x20 [9; 8; 7] 1
                2 0 |})
  = Some [9; 8].
Proof.
  destruct (afk_service_call_finish_output asahi_service_call
              asahi_service_call_ok 7 0x20 (Some [0; 0]) 2
              {| r_ret := 0; r_retcode := 0;
                 r_output :=
                   afk_service_call_request asahi_service_call 7 0x20
                     [9; 8; 7] 1 2 0 |}
              ltac:(lia)
              ltac:(vm_compute; repeat constructor; discriminate)
              ltac:(vm_compute; discriminate)) as [_ H].
  destruct (H ltac:(vm_compute; reflexivity)) as (_ & _ & _ & _ & _ & Ho).
  destruct (Ho [0; 0] eq_refl ltac:(lia)) as [E _].
  rewrite E. vm_compute. reflexivity.
Defined.

(** ** Frames on a channel without a service *)

Section Unregistered.

Variable abi : afk_abi.
Hypothesis Habi : abi_ok abi.

(** X22.  A frame on a channel without a service, on an AOP endpoint,
    sends nothing, writes no memory and leaves the sequence number alone.
    It either changes nothing at all or registers one service, and it can
    register only as a [NOTIFY] or [REPLY] of category [REPORT] whose
    subtype is [ANNOUNCE] or the standard-service subtype, not [TEARDOWN],
    and which is long enough for both EPIC headers and a service
    record. *)
Theorem aop_recv_handle_unknown_channel (ep : apple_dcp_afkep)
    (ch type_ data data_size : Z) :
  0 <= data_size < 2 ^ 32 ->
  afk_epic_find_service ep ch = None ->
  let ep' := Aop.aop_recv_handle abi ep ch type_ data data_size in
  let eshdr := data + sizeof_epic_hdr abi in
  let subtype := load_field (memory ep) eshdr (eshdr_type abi) in
  events ep' = events ep
  /\ memory ep' = memory ep
  /\ qe_seq ep' = qe_seq ep
  /\ (ep' = ep
      \/ (num_channels ep' = num_channels ep + 1
          /\ (type_ = EPIC_TYPE_NOTIFY abi \/ type_ = EPIC_TYPE_REPLY abi)
          /\ load_field (memory ep) eshdr (eshdr_category abi)
             = EPIC_CAT_REPORT abi
          /\ (subtype = EPIC_SUBTYPE_ANNOUNCE abi
              \/ subtype = EPIC_SUBTYPE_STD_SERVICE abi)
          /\ subtype <> EPIC_SUBTYPE_TEARDOWN abi
          /\ sizeof_epic_hdr abi + sizeof_epic_sub_hdr abi
             + Aop.sizeof_aop_epic_service_init <= data_size)).
Proof.
  intros Hsz Hnone ep' eshdr subtype. subst ep'.
  pose proof (ehdr_size_ok abi Habi) as Heh.
  pose proof (eshdr_size_ok abi Habi) as Hsh.
  unfold Aop.aop_recv_handle, afk_recv_handle, epic_payload.
  fold eshdr. fold subtype.
  rewrite (usize_small (sizeof_epic_hdr abi + sizeof_epic_sub_hdr abi))
    by lia.
  destruct (Z.ltb_spec data_size
              (sizeof_epic_hdr abi + sizeof_epic_sub_hdr abi)) as [|Hfit];
    [repeat split; try reflexivity; left; reflexivity|].
  rewrite Hnone.
  rewrite (usize_small (data_size - sizeof_epic_hdr abi
                        - sizeof_epic_sub_hdr abi)) by lia.
  destruct (Z.eqb_spec type_ (EPIC_TYPE_NOTIFY abi)) as [Hn|Hn];
    destruct (Z.eqb_spec type_ (EPIC_TYPE_REPLY abi)) as [Hr|Hr];
    cbn [negb andb];
    try (repeat split; try reflexivity; left; reflexivity).
  all: destruct (Z.eqb_spec (load_field (memory ep) eshdr
                               (eshdr_category abi)) (EPIC_CAT_REPORT abi))
         as [Hc|Hc]; cbn [negb];
       [|repeat split; try reflexivity; left; reflexivity].
  all: destruct (Z.eqb_spec subtype (EPIC_SUBTYPE_TEARDOWN abi)) as [Ht|Ht];
       [repeat split; try reflexivity; left; reflexivity|].
  all: destruct (Z.eqb_spec subtype (EPIC_SUBTYPE_ANNOUNCE abi)) as [Ha|Ha];
       destruct (Z.eqb_spec subtype (EPIC_SUBTYPE_STD_SERVICE abi))
         as [Hs|Hs];
       cbn [negb andb];
       try (repeat split; try reflexivity; left; reflexivity).
  all: unfold Aop.apple_aop_recv_handle_init;
       destruct (Z.ltb_spec (data_size - sizeof_epic_hdr abi
                             - sizeof_epic_sub_hdr abi)
                   Aop.sizeof_aop_epic_service_init);
       [repeat split; try reflexivity; left; reflexivity|];
       destruct (_ >=? _);
       [repeat split; try reflexivity; left; reflexivity|];
       destruct (afk_match_service _ _);
       [|repeat split; try reflexivity; left; reflexivity];
       split; [reflexivity|]; split; [reflexivity|]; split; [reflexivity|];
       right; split; [reflexivity|];
       split; [tauto|]; split; [exact Hc|]; split; [tauto|];
       split; [exact Ht | lia].
Qed.

End Unregistered.

Lemma aop_recv_handle_unknown_channel_witness :
  events (Aop.aop_recv_handle asahi_abi Sample.ep_announce 7 0 0x30000 84)
  = events Sample.ep_announce.
Proof.
  destruct (aop_recv_handle_unknown_channel asahi_abi asahi_abi_ok
              Sample.ep_announce 7 0 0x30000 84
              ltac:(lia) ltac:(vm_compute; reflexivity)) as (H & _).
  exact H.
Defined.

(** ** Sending: the sub-header *)

Lemma asahi_members_apart : members_apart (eshdr_members asahi_abi).
Proof.
  unfold members_apart, eshdr_members.
  repeat (apply FOP_cons; [repeat apply List.Forall_cons;
                           try apply List.Forall_nil;
                           unfold field_apart; cbn; lia|]).
  apply FOP_nil.
Qed.

Section SubHeader.

Variable abi : afk_abi.
Hypothesis Habi : abi_ok abi.
Hypothesis Hapart : members_apart (eshdr_members abi).

(** A member stored into the sub-header reads back, when the stores that
    follow stay clear of it. *)
Lemma load_field_after_stores (m : mem) (a : Z) (f : field) (v : Z)
    (l1 l2 : stores) :
  (forall x, a + f_off f <= x < a + f_off f + Z.of_nat (f_width f) ->
             ~ touches l2 x) ->
  load_field (apply_stores m (l1 ++ store_field a f v :: l2)) a f
  = v mod 256 ^ Z.of_nat (f_width f).
Proof.
  intros H. unfold load_field, load_le, store_field, store_le.
  rewrite <- (length_le_bytes (f_width f) v) at 2.
  rewrite load_after_stores.
  - apply le_val_le_bytes.
  - intros x Hx. rewrite length_le_bytes in Hx. apply H, Hx.
Qed.

Lemma touches_store_fields (a : Z) (f : field) (l : list (field * Z))
    (x : Z) :
  List.Forall (fun g => field_apart f (fst g)) l ->
  a + f_off f <= x < a + f_off f + Z.of_nat (f_width f) ->
  ~ touches (map (fun g => store_field a (fst g) (snd g)) l) x.
Proof.
  intros Hall Hx (s & Hin & Hr). apply in_map_iff in Hin.
  destruct Hin as (g & <- & Hg).
  apply (proj1 (List.Forall_forall _ l) Hall) in Hg.
  unfold field_apart in Hg.
  cbn [fst snd store_field store_le] in Hr. rewrite length_le_bytes in Hr.
  lia.
Qed.


End SubHeader.


(** ** Receiving: the bounds check *)

(** X25: the bounds check of [afk_recv] adds the read pointer and the
    size of the entry in 32 bits.  When that sum passes [2 ^ 32] and what
    is left of it, with the entry header, fits the ring, the entry is
    neither taken for a wrap-around marker nor dropped: its frame is
    handed on with the size as written, and ends behind the ring body. *)
Theorem afk_recv_qe_size_wraps (abi : afk_abi) (ep : apple_dcp_afkep) :
  let rx := rxbfr ep in
  let rptr := afk_rb_get_rptr (memory ep) rx in
  let size := load_le (memory ep) (buf rx + rptr + qe_size) 4 in
  ready rx = true ->
  rptr <> afk_rb_get_wptr (memory ep) rx ->
  bufsz rx < 2 ^ 32 ->
  0 <= rptr <= bufsz rx - sizeof_afk_qe ->
  qe_magic_ok abi (load_le (memory ep) (buf rx + rptr + qe_magic) 4) = true ->
  0 <= size < 2 ^ 32 ->
  2 ^ 32 <= rptr + size ->
  rptr + size - 2 ^ 32 + sizeof_afk_qe <= bufsz rx ->
  exists f,
    snd (afk_recv_qe abi ep) = Some f
    /\ fr_data f = buf rx + rptr + sizeof_afk_qe
    /\ fr_size f = size
    /\ buf rx + bufsz rx < fr_data f + fr_size f.
Proof.
  intros rx rptr size Hrd Hne Hb Hr Hmg Hs Hover Hfit.
  unfold afk_recv_qe. fold rx. cbv zeta. rewrite Hrd. cbn [negb].
  fold rptr.
  destruct (Z.eqb_spec rptr (afk_rb_get_wptr (memory ep) rx)) as [E|_];
    [contradiction|].
  unfold sizeof_afk_qe in *.
  rewrite (usize_small (bufsz rx - 16)) by lia.
  destruct (Z.gtb_spec rptr (bufsz rx - 16)); [lia|].
  rewrite Hmg. cbn [negb]. fold size.
  assert (Hu : u32 (rptr + size) = rptr + size - 2 ^ 32).
  { unfold u32. symmetry. apply (Z.mod_unique _ _ 1); lia. }
  rewrite Hu. rewrite (usize_small (rptr + size - 2 ^ 32 + 16)) by lia.
  destruct (Z.gtb_spec (rptr + size - 2 ^ 32 + 16) (bufsz rx)); [lia|].
  cbv iota. cbn [andb]. fold size. rewrite Hu.
  rewrite (usize_small (rptr + size - 2 ^ 32 + 16)) by lia.
  destruct (Z.gtb_spec (rptr + size - 2 ^ 32 + 16) (bufsz rx)); [lia|].
  eexists. split; [reflexivity|]. cbn [fr_data fr_size]. unfold qe_data.
  split; [reflexivity|]. split; [reflexivity|]. lia.
Qed.

Lemma afk_recv_qe_size_wraps_witness :
  exists f,
    snd (afk_recv_qe asahi_abi ep_oversized) = Some f
    /\ fr_size f = 0xfffffff0.
Proof.
  destruct (afk_recv_qe_size_wraps asahi_abi ep_oversized
              ltac:(reflexivity)
              ltac:(vm_compute; discriminate)
              ltac:(vm_compute; reflexivity)
              ltac:(vm_compute; split; discriminate)
              ltac:(vm_compute; reflexivity)
              ltac:(vm_compute; split; [discriminate | reflexivity])
              ltac:(vm_compute; discriminate)
              ltac:(vm_compute; discriminate)) as (f & H1 & _ & H3 & _).
  exists f. split; [exact H1|]. rewrite H3. vm_compute. reflexivity.
Defined.

(** ** The service table *)

Section Table.

Variable abi : afk_abi.

Lemma num_channels_afk_recv_handle_reply (ep : apple_dcp_afkep)
    (ch t payload payload_size : Z) :
  num_channels (afk_recv_handle_reply abi ep ch t payload payload_size)
  = num_channels ep.
Proof.
  unfold afk_recv_handle_reply.
  destruct (afk_epic_find_service ep ch) as [si|]; [|reflexivity].
  destruct (_ <? _); [reflexivity|].
  destruct (_ >=? _); [reflexivity|]. cbv zeta.
  destruct (done _); [reflexivity|].
  destruct (negb _); [reflexivity|].
  cbn [free_on_ack completion].
  destruct (free_on_ack _); destruct (completion _);
    repeat match goal with
           | |- context [if ?c then _ else _] => destruct c
           end; reflexivity.
Qed.

Lemma num_channels_afk_recv_handle_std_service (ep : apple_dcp_afkep)
    (ch type_ eshdr payload payload_size : Z) :
  num_channels
    (afk_recv_handle_std_service abi ep ch type_ eshdr payload payload_size)
  = num_channels ep.
Proof.
  unfold afk_recv_handle_std_service.
  destruct (afk_epic_find_service ep ch) as [si|]; [|reflexivity].
  cbv zeta.
  destruct (_ && _).
  - destruct (_ <? _); [reflexivity|].
    destruct (_ <? _); [reflexivity|].
    destruct (call _) as [f|]; [|reflexivity].
    destruct (f _ _) as [ret out].
    destruct (negb _); [reflexivity|].
    apply services_afk_send_epic.
  - destruct (_ && _); [|reflexivity].
    destruct (report _); reflexivity.
Qed.

(** X26: one frame changes the number of service slots in use by at
    most one, upwards, and only when the table had room and the channel had
    no live service; no frame, a teardown included, gives a slot back. *)
Theorem aop_recv_handle_table_grows (ep : apple_dcp_afkep)
    (ch type_ data data_size : Z) :
  let ep' := Aop.aop_recv_handle abi ep ch type_ data data_size in
  num_channels ep' = num_channels ep
  \/ (num_channels ep' = num_channels ep + 1
      /\ num_channels ep < AFK_MAX_CHANNEL abi
      /\ afk_epic_find_service ep ch = None).
Proof.
  intros ep'. subst ep'. unfold Aop.aop_recv_handle, afk_recv_handle.
  destruct (epic_payload abi data data_size) as [[payload payload_size]|];
    [|left; reflexivity].
  destruct (afk_epic_find_service ep ch) as [si|] eqn:Ef.
  - left.
    destruct (_ && _).
    { apply (services_afk_recv_handle_teardown ep ch si Ef). }
    destruct (_ && _); [apply num_channels_afk_recv_handle_reply|].
    destruct (_ =? _); [apply num_channels_afk_recv_handle_std_service|].
    reflexivity.
  - destruct (_ && _); [left; reflexivity|].
    destruct (negb _); [left; reflexivity|].
    destruct (_ =? _); [left; reflexivity|].
    destruct (_ && _); [left; reflexivity|].
    unfold Aop.apple_aop_recv_handle_init.
    destruct (_ <? _); [left; reflexivity|].
    destruct (Z.geb_spec (num_channels ep) (AFK_MAX_CHANNEL abi));
      [left; reflexivity|].
    destruct (afk_match_service _ _); [|left; reflexivity].
    right. split; [reflexivity|]. split; [lia | reflexivity].
Qed.

End Table.
